(** * Aggregation strategies of [aggregator.py]

    A shallow embedding of the aggregation engine: the supernode mapper,
    the vertical (row-wise) and horizontal (column-wise) strategies and the
    [Aggregator] facade, together with the part of pandas (release 2.x) they
    call.  Numbers are idealised as canonical rationals [Qc]: sums and means
    are exact, where pandas wraps [int64] around and rounds [float64]; a
    statement that depends on the arithmetic names the cells on which the
    two agree ([exact_cells]).  Missing values (NaN) are not modelled: every
    table here is one without blanks.  The loader ([Data]) and the drivers
    ([aggregator], [sets_aggregator], [main]) only read files and pick a
    strategy; they come last, over the pandas readers taken as functions
    of their arguments.  [order_tuples] has no body and is left out. *)

From Stdlib Require Import QArith Qcanon.
From stdpp Require Import base numbers list strings gmap.

Set Default Proof Using "Type".

(** ** Python exceptions and outcomes *)

Inductive exn :=
  | KeyError            (* a column label that is not in the frame *)
  | IndexError          (* [group_by_cols[i]] out of range *)
  | AttributeError      (* a method the object does not have *)
  | TypeError           (* a reduction over non-numeric data *)
  | FileNotFoundError.  (* [open] on a path that does not exist *)

Inductive outcome (A : Type) :=
  | Ok (a : A)
  | Raise (e : exn).
Arguments Ok {A} a.
Arguments Raise {A} e.

Global Instance exn_eq_dec : EqDecision exn.
Proof. solve_decision. Defined.
Global Instance outcome_eq_dec `{EqDecision A} : EqDecision (outcome A).
Proof. solve_decision. Defined.

Definition is_raise {A} (o : outcome A) : Prop :=
  match o with Ok _ => False | Raise _ => True end.

(** ** Data model *)

(** A cell is a number or a string. *)
Inductive cell :=
  | CNum (q : Qc)
  | CStr (s : string).

Global Instance cell_eq_dec : EqDecision cell.
Proof. solve_decision. Defined.

(** A pandas [Series]: a column of numeric dtype or of object dtype
    (strings). *)
Inductive Series :=
  | NumCol (xs : list Qc)
  | ObjCol (xs : list string).

Global Instance Series_eq_dec : EqDecision Series.
Proof. solve_decision. Defined.

Definition cells (s : Series) : list cell :=
  match s with
  | NumCol xs => CNum <$> xs
  | ObjCol xs => CStr <$> xs
  end.

Definition series_len (s : Series) : nat :=
  match s with
  | NumCol xs => length xs
  | ObjCol xs => length xs
  end.

(** A pandas [DataFrame]: the length of its index and its named columns in
    order.  Column labels of a frame are distinct ([read_csv] and
    [read_excel] rename repeated headers). *)
Record DataFrame := mkDF {
  nrows : nat;
  columns : list (string * Series)
}.

Global Instance DataFrame_eq_dec : EqDecision DataFrame.
Proof. solve_decision. Defined.

Definition labels (df : DataFrame) : list string := (columns df).*1.

(** Every column has one cell per row. *)
Definition wf_frame (df : DataFrame) : Prop :=
  Forall (λ c, series_len c.2 = nrows df) (columns df).

(** The supernode dictionary, in insertion order: supernode name and its
    child nodes. *)
Definition SupernodeMap := list (string * list string).

(** The alias dictionary loaded from [config/alpha2.json]. *)
Definition AliasTable := gmap string string.

Definition num (z : Z) : Qc := Q2Qc (inject_Z z).

(** ** NodeMapper: [VerticalAggregationStrategy.map_supernode] *)

(** [map_supernode] (lines 65-70). *)
Fixpoint map_supernode (node : string) (supernodes : SupernodeMap) : string :=
  match supernodes with
  | [] => node
  | (supernode, child_nodes) :: rest =>
      if bool_decide (node ∈ child_nodes) then supernode
      else map_supernode node rest
  end.

(** [series.apply(lambda x: self.map_supernode(x, supernodes))].  A number is
    never [in] a list of strings, so a numeric column comes back as it is. *)
Definition apply_map_supernode (supernodes : SupernodeMap) (s : Series) : Series :=
  match s with
  | ObjCol xs => ObjCol ((λ x, map_supernode x supernodes) <$> xs)
  | NumCol xs => NumCol xs
  end.

(** ** The part of pandas the strategies call *)

(** Pure computations that may raise. *)
Definition obind {A B} (o : outcome A) (k : A → outcome B) : outcome B :=
  match o with
  | Ok a => k a
  | Raise e => Raise e
  end.

Notation "'try!' x := o 'in' k" := (obind o (λ x, k))
  (at level 10, x pattern, o at level 200, k at level 200).

(** [l[i]] on a Python list. *)
Definition py_index {A} (l : list A) (i : nat) : outcome A :=
  match l !! i with
  | Some x => Ok x
  | None => Raise IndexError
  end.

Fixpoint assoc {A} (c : string) (cols : list (string * A)) : option A :=
  match cols with
  | [] => None
  | (c', s) :: rest => if decide (c' = c) then Some s else assoc c rest
  end.

(** [df[c] = s] replaces the column labelled [c] where it stands, or appends
    a new column after the last one. *)
Fixpoint assoc_set {A} (c : string) (s : A) (cols : list (string * A)) : list (string * A) :=
  match cols with
  | [] => [(c, s)]
  | (c', s') :: rest =>
      if decide (c' = c) then (c, s) :: rest else (c', s') :: assoc_set c s rest
  end.

(** [df[c]] *)
Definition frame_getitem (df : DataFrame) (c : string) : outcome Series :=
  match assoc c (columns df) with
  | Some s => Ok s
  | None => Raise KeyError
  end.

Definition frame_setitem (df : DataFrame) (c : string) (s : Series) : DataFrame :=
  mkDF (nrows df) (assoc_set c s (columns df)).

(** [df[cs]] for a list of labels: the named columns in the order asked
    for; any label that is not a column raises. *)
Fixpoint take_columns (cols : list (string * Series)) (cs : list string)
    : outcome (list (string * Series)) :=
  match cs with
  | [] => Ok []
  | c :: cs' =>
      match assoc c cols with
      | None => Raise KeyError
      | Some s => try! r := take_columns cols cs' in Ok ((c, s) :: r)
      end
  end.

Definition frame_getitem_list (df : DataFrame) (cs : list string) : outcome DataFrame :=
  try! sel := take_columns (columns df) cs in Ok (mkDF (nrows df) sel).

(** [df.drop(cs, axis=1)]: every label must be a column. *)
Definition frame_drop (df : DataFrame) (cs : list string) : outcome DataFrame :=
  if bool_decide (Forall (λ c, c ∈ labels df) cs)
  then Ok (mkDF (nrows df) (filter (λ p, p.1 ∉ cs) (columns df)))
  else Raise KeyError.

(** Rows kept by a boolean mask. *)
Fixpoint select {A} (mask : list bool) (xs : list A) : list A :=
  match mask, xs with
  | b :: mask', x :: xs' => if b then x :: select mask' xs' else select mask' xs'
  | _, _ => []
  end.

Definition series_select (mask : list bool) (s : Series) : Series :=
  match s with
  | NumCol xs => NumCol (select mask xs)
  | ObjCol xs => ObjCol (select mask xs)
  end.

(** [a != b], cell by cell. *)
Definition series_ne (a b : Series) : list bool :=
  zip_with (λ x y, bool_decide (x ≠ y)) (cells a) (cells b).

(** [df[mask]] *)
Definition frame_getitem_mask (df : DataFrame) (mask : list bool) : DataFrame :=
  mkDF (length (select mask mask)) (prod_map id (series_select mask) <$> columns df).

(** *** Reductions along a row ([axis=1]) *)

Definition qsum (xs : list Qc) : Qc := foldr Qcplus 0%Qc xs.

Definition qmean (xs : list Qc) : Qc := (qsum xs / num (Z.of_nat (length xs)))%Qc.

Definition sconcat (xs : list string) : string := foldr String.append "" xs.

Definition row_of {A} (d : A) (cols : list (list A)) (i : nat) : list A :=
  (λ c, default d (c !! i)) <$> cols.

Definition row_sums (n : nat) (cols : list (list Qc)) : list Qc :=
  (λ i, qsum (row_of 0%Qc cols i)) <$> seq 0 n.

Definition row_means (n : nat) (cols : list (list Qc)) : list Qc :=
  (λ i, qmean (row_of 0%Qc cols i)) <$> seq 0 n.

Definition row_concats (n : nat) (cols : list (list string)) : list string :=
  (λ i, sconcat (row_of "" cols i)) <$> seq 0 n.

Definition as_num (s : Series) : option (list Qc) :=
  match s with NumCol xs => Some xs | ObjCol _ => None end.

Definition as_obj (s : Series) : option (list string) :=
  match s with ObjCol xs => Some xs | NumCol _ => None end.

(** [sel.sum(axis=1)]: numeric columns add up (an empty selection gives a
    column of zeros), string columns concatenate, a mix raises. *)
Definition sum_axis1 (sel : DataFrame) : outcome Series :=
  match mapM as_num (columns sel).*2 with
  | Some cols => Ok (NumCol (row_sums (nrows sel) cols))
  | None =>
      match mapM as_obj (columns sel).*2 with
      | Some cols => Ok (ObjCol (row_concats (nrows sel) cols))
      | None => Raise TypeError
      end
  end.

(** [sel.mean(axis=1)]: only numeric columns have a mean. *)
Definition mean_axis1 (sel : DataFrame) : outcome Series :=
  match mapM as_num (columns sel).*2 with
  | Some cols => Ok (NumCol (row_means (nrows sel) cols))
  | None => Raise TypeError
  end.

(** *** [groupby(by, as_index=False, sort=False)] *)

(** The key tuple of every row. *)
Fixpoint row_keys (n : nat) (keys : list Series) : list (list cell) :=
  match keys with
  | [] => replicate n []
  | k :: keys' => zip_with cons (cells k) (row_keys n keys')
  end.

(** Marks the rows whose key tuple was not seen above them: the groups, in
    order of first appearance ([sort=False]). *)
Fixpoint first_seen {A} `{EqDecision A} (seen : list A) (ks : list A) : list bool :=
  match ks with
  | [] => []
  | k :: ks' =>
      if decide (k ∈ seen) then false :: first_seen seen ks'
      else true :: first_seen (k :: seen) ks'
  end.

Definition member_mask {A} `{EqDecision A} (g : A) (ks : list A) : list bool :=
  (λ k, bool_decide (k = g)) <$> ks.

(** One reduced value per group. *)
Definition reduce_groups {A B K} `{EqDecision K} (f : list A → B) (ks : list K) (xs : list A)
    : list B :=
  (λ g, f (select (member_mask g ks) xs)) <$> select (first_seen [] ks) ks.

(** The grouper keeps the frame, the key labels and the key columns. *)
Record GroupBy := mkGroupBy {
  gb_obj : DataFrame;
  gb_by : list string;
  gb_keys : list Series
}.

Fixpoint key_columns (df : DataFrame) (names : list string) : outcome (list Series) :=
  match names with
  | [] => Ok []
  | k :: names' =>
      try! s := frame_getitem df k in
      try! r := key_columns df names' in
      Ok (s :: r)
  end.

(** The grouper of [df.groupby(names, as_index=False, sort=False)].  With a
    label listed twice in [names] pandas raises [ValueError] when a
    reduction puts the key columns into its result; the model has no such
    failure, so what is proved of a returned result is proved of more
    inputs than return in the code. *)
Definition groupby (df : DataFrame) (names : list string) : outcome GroupBy :=
  try! keys := key_columns df names in Ok (mkGroupBy df names keys).

Definition gb_row_keys (gb : GroupBy) : list (list cell) :=
  row_keys (nrows (gb_obj gb)) (gb_keys gb).

Definition gb_value_columns (gb : GroupBy) : list (string * Series) :=
  filter (λ p, p.1 ∉ gb_by gb) (columns (gb_obj gb)).

(** The key columns of the result: one row per group. *)
Definition gb_key_columns (gb : GroupBy) : list (string * Series) :=
  zip (gb_by gb) (series_select (first_seen [] (gb_row_keys gb)) <$> gb_keys gb).

Definition gb_ngroups (gb : GroupBy) : nat :=
  length (select (first_seen [] (gb_row_keys gb)) (gb_row_keys gb)).

(** [gb.sum(numeric_only)]: with [numeric_only] only the numeric value
    columns are reduced and the others are left out; without it strings
    concatenate. *)
Definition gb_sum (numeric_only : bool) (gb : GroupBy) : DataFrame :=
  mkDF (gb_ngroups gb)
    (gb_key_columns gb ++
     omap (λ p,
       match p.2 with
       | NumCol xs => Some (p.1, NumCol (reduce_groups qsum (gb_row_keys gb) xs))
       | ObjCol xs =>
           if numeric_only then None
           else Some (p.1, ObjCol (reduce_groups sconcat (gb_row_keys gb) xs))
       end) (gb_value_columns gb)).

(** [gb.mean(numeric_only)]: without [numeric_only] a string value column
    raises. *)
Definition gb_mean (numeric_only : bool) (gb : GroupBy) : outcome DataFrame :=
  if bool_decide (numeric_only = false ∧ Exists (λ p, as_num p.2 = None) (gb_value_columns gb))
  then Raise TypeError
  else Ok (mkDF (gb_ngroups gb)
    (gb_key_columns gb ++
     omap (λ p,
       match p.2 with
       | NumCol xs => Some (p.1, NumCol (reduce_groups qmean (gb_row_keys gb) xs))
       | ObjCol _ => None
       end) (gb_value_columns gb))).

(** [gb.count()]: the number of cells of each group that are not missing,
    in every value column.  The cell type holds no missing value, so this
    is the number of rows of the group. *)
Definition gb_count (gb : GroupBy) : DataFrame :=
  mkDF (gb_ngroups gb)
    (gb_key_columns gb ++
     ((λ p, (p.1, NumCol (reduce_groups (λ xs, num (Z.of_nat (length xs)))
                            (gb_row_keys gb) (cells p.2)))) <$> gb_value_columns gb)).

(** Python truth value of [agg_col], which [sum] and [mean] hand to pandas
    in the position of [numeric_only]. *)
Definition truthy (o : option string) : bool :=
  match o with
  | Some s => bool_decide (s ≠ "")
  | None => false
  end.

(** ** The world: the caller's table, the files, the files opened so far *)

(** The only frame the strategies mutate is the one passed in as [data];
    every other frame is built once and never written again, so it is a
    value.  [frame] is that object. *)
Record World := mkWorld {
  frame : DataFrame;
  files : gmap string AliasTable;
  opened : list string
}.

(** What a Python variable of frame type is bound to: the caller's object
    itself, or a frame built by the callee. *)
Inductive ref :=
  | Caller
  | Value (df : DataFrame).

Definition M (A : Type) : Type := World → outcome A * World.

Definition ret {A} (a : A) : M A := λ w, (Ok a, w).

Definition raise {A} (e : exn) : M A := λ w, (Raise e, w).

Definition bind {A B} (m : M A) (k : A → M B) : M B :=
  λ w, match m w with
       | (Ok a, w') => k a w'
       | (Raise e, w') => (Raise e, w')
       end.

Notation "'let!' x := m 'in' k" := (bind m (λ x, k))
  (at level 10, x pattern, m at level 200, k at level 200).

Definition lift {A} (o : outcome A) : M A := λ w, (o, w).

Definition load (r : ref) : M DataFrame :=
  λ w, match r with
       | Caller => (Ok (frame w), w)
       | Value df => (Ok df, w)
       end.

Definition set_frame (df : DataFrame) (w : World) : World :=
  mkWorld df (files w) (opened w).

(** [data[c]] on the caller's table. *)
Definition data_getitem (c : string) : M Series :=
  λ w, (frame_getitem (frame w) c, w).

(** [data[cs]] on the caller's table. *)
Definition data_getitem_list (cs : list string) : M DataFrame :=
  λ w, (frame_getitem_list (frame w) cs, w).

(** [data[c] = s]: writes into the caller's table. *)
Definition data_setitem (c : string) (s : Series) : M unit :=
  λ w, (Ok (), set_frame (frame_setitem (frame w) c s) w).

(** [data.drop(cs, axis=1, inplace=True)]: writes into the caller's table. *)
Definition data_drop (cs : list string) : M unit :=
  λ w, match frame_drop (frame w) cs with
       | Ok df => (Ok (), set_frame df w)
       | Raise e => (Raise e, w)
       end.

(** [with open(path) as f: json.load(f)] *)
Definition open_json (path : string) : M AliasTable :=
  λ w, let w' := mkWorld (frame w) (files w) (opened w ++ [path]) in
       match files w !! path with
       | Some d => (Ok d, w')
       | None => (Raise FileNotFoundError, w')
       end.

Fixpoint for_each {A} (body : A → M unit) (xs : list A) : M unit :=
  match xs with
  | [] => ret ()
  | x :: xs' => let! _ := body x in for_each body xs'
  end.

(** ** VerticalAggregationStrategy *)

Module VerticalAggregationStrategy.

(** The dataclass fields; [agg_col] is [None] when only the count is
    asked for. *)
Record t := mk {
  group_by_cols : list string;
  agg_col : option string;
  transmission : bool
}.

(** [aggregate] (lines 58-63).  The two assignments write into the caller's
    table; the row filter builds a new frame, which [data] is bound to from
    then on. *)
Definition aggregate (self : t) (supernodes : SupernodeMap) : M GroupBy :=
  let! g0 := lift (py_index (group_by_cols self) 0) in
  let! s0 := data_getitem g0 in
  let! _ := data_setitem g0 (apply_map_supernode supernodes s0) in
  let! data :=
    if transmission self then
      let! g1 := lift (py_index (group_by_cols self) 1) in
      let! s1 := data_getitem g1 in
      let! _ := data_setitem g1 (apply_map_supernode supernodes s1) in
      let! a := data_getitem g0 in
      let! b := data_getitem g1 in
      let! df := load Caller in
      ret (Value (frame_getitem_mask df (series_ne a b)))
    else ret Caller in
  let! df := load data in
  lift (groupby df (group_by_cols self)).

(** [sum] and [mean] (lines 48-52): [agg_col] is the first positional
    argument of the pandas reduction, which is [numeric_only]. *)
Definition sum (self : t) (supernodes : SupernodeMap) : M ref :=
  let! gb := aggregate self supernodes in
  ret (Value (gb_sum (truthy (agg_col self)) gb)).

Definition mean (self : t) (supernodes : SupernodeMap) : M ref :=
  let! gb := aggregate self supernodes in
  let! r := lift (gb_mean (truthy (agg_col self)) gb) in
  ret (Value r).

(** [agg] (lines 54-55): the count. *)
Definition agg (self : t) (supernodes : SupernodeMap) : M ref :=
  let! gb := aggregate self supernodes in
  ret (Value (gb_count gb)).

End VerticalAggregationStrategy.

(** ** HorizontalAggregationStrategy *)

(** The path [alpha2] opens. *)
Definition alpha2_path : string := "config/alpha2.json".

Module HorizontalAggregationStrategy.

(** [alpha2_dict.get(node, node)] *)
Definition alias (alpha2_dict : AliasTable) (node : string) : string :=
  default node (alpha2_dict !! node).

(** The list comprehension of [alpha2] for one supernode. *)
Definition effective (alpha2_dict : AliasTable) (data : DataFrame)
    (child_nodes : list string) : list string :=
  alias alpha2_dict <$>
    filter (λ node, alias alpha2_dict node ∈ labels data) child_nodes.

(** [alpha2] (lines 94-98): loads the alias dictionary from its file, then
    keeps of every child list the resolved names that are columns of the
    table. *)
Definition alpha2 (supernodes : SupernodeMap) : M SupernodeMap :=
  let! alpha2_dict := open_json alpha2_path in
  let! data := load Caller in
  ret (prod_map id (effective alpha2_dict data) <$> supernodes).

(** The body of the loop of [sum] (lines 79-80). *)
Definition sum_step (p : string * list string) : M unit :=
  let! sel := data_getitem_list p.2 in
  let! s := lift (sum_axis1 sel) in
  let! _ := data_setitem p.1 s in
  data_drop p.2.

(** [sum] (lines 76-82) returns [data], the caller's table. *)
Definition sum (supernodes : SupernodeMap) : M ref :=
  let! supernodes := alpha2 supernodes in
  let! _ := for_each sum_step supernodes in
  ret Caller.

(** The body of the loop of [mean] (lines 88-89). *)
Definition mean_step (p : string * list string) : M unit :=
  let! sel := data_getitem_list p.2 in
  let! s := lift (mean_axis1 sel) in
  let! _ := data_setitem p.1 s in
  data_drop p.2.

(** [mean] (lines 84-91) first leaves out the supernodes whose list is
    empty. *)
Definition mean (supernodes : SupernodeMap) : M ref :=
  let! supernodes_pre := alpha2 supernodes in
  let supernodes := filter (λ p, length p.2 ≠ 0) supernodes_pre in
  let! _ := for_each mean_step supernodes in
  ret Caller.

End HorizontalAggregationStrategy.

(** ** Aggregator *)

Inductive AggregationStrategy :=
  | Vertical (v : VerticalAggregationStrategy.t)
  | Horizontal.

(** The methods of a strategy object that take the table and the supernode
    map, by name.  [VerticalAggregationStrategy] defines [sum], [mean] and
    [agg]; [HorizontalAggregationStrategy] defines [sum] and [mean]. *)
Definition methods (strategy : AggregationStrategy)
    : list (string * (SupernodeMap → M ref)) :=
  match strategy with
  | Vertical v =>
      [("sum", VerticalAggregationStrategy.sum v);
       ("mean", VerticalAggregationStrategy.mean v);
       ("agg", VerticalAggregationStrategy.agg v)]
  | Horizontal =>
      [("sum", HorizontalAggregationStrategy.sum);
       ("mean", HorizontalAggregationStrategy.mean)]
  end.

(** [strategy.name]: attribute lookup on the strategy object. *)
Definition getattr (strategy : AggregationStrategy) (name : string)
    : outcome (SupernodeMap → M ref) :=
  match assoc name (methods strategy) with
  | Some m => Ok m
  | None => Raise AttributeError
  end.

Module Aggregator.

(** [self.data] is the caller's table. *)
Record t := mk {
  aggregation_strategy : AggregationStrategy;
  supernodes : SupernodeMap
}.

(** [sum], [mean] and [agg] (lines 106-113) look the method up on whatever
    strategy is bound and call it. *)
Definition sum (self : t) : M ref :=
  let! m := lift (getattr (aggregation_strategy self) "sum") in
  m (supernodes self).

Definition mean (self : t) : M ref :=
  let! m := lift (getattr (aggregation_strategy self) "mean") in
  m (supernodes self).

Definition agg (self : t) : M ref :=
  let! m := lift (getattr (aggregation_strategy self) "agg") in
  m (supernodes self).

End Aggregator.

(** The frame a returned reference stands for in a world. *)
Definition deref (w : World) (r : ref) : DataFrame :=
  match r with
  | Caller => frame w
  | Value df => df
  end.

(** ** Predicates used in the statements *)

(** A computation that opens no file and leaves the files alone. *)
Definition silent {A} (m : M A) : Prop :=
  ∀ w, opened (m w).2 = opened w ∧ files (m w).2 = files w.

(** The caller's table with column [c] remapped to supernodes. *)
Definition remap_column (supernodes : SupernodeMap) (c : string) (df : DataFrame)
    : DataFrame :=
  match frame_getitem df c with
  | Ok s => frame_setitem df c (apply_map_supernode supernodes s)
  | Raise _ => df
  end.


(** ** Example tables *)

(** One row, two node columns. *)
Definition ex_nodes : DataFrame :=
  mkDF 1 [("A", NumCol [num 1]); ("B", NumCol [num 2])].

(** A world whose alias file holds the dictionary [d]. *)
Definition world_with (d : AliasTable) (df : DataFrame) : World :=
  mkWorld df {[ alpha2_path := d ]} [].

(** The caller's table after a vertical call: the first key column, and
    with [transmission] the second one too, remapped where it stands. *)
Definition remapped_keys (self : VerticalAggregationStrategy.t)
    (supernodes : SupernodeMap) (df : DataFrame) : DataFrame :=
  match VerticalAggregationStrategy.group_by_cols self with
  | [] => df
  | g0 :: rest =>
      match frame_getitem df g0 with
      | Raise _ => df
      | Ok _ =>
          let df1 := remap_column supernodes g0 df in
          if VerticalAggregationStrategy.transmission self then
            match rest with
            | [] => df1
            | g1 :: _ => remap_column supernodes g1 df1
            end
          else df1
      end
  end.

(** Three rows keyed by node, one value column. *)
Definition ex_rows : DataFrame :=
  mkDF 3 [("k", ObjCol ["A"; "A"; "B"]); ("v", NumCol [num 1; num 2; num 3])].

(** Two edges, the first inside one supernode. *)
Definition ex_edges : DataFrame :=
  mkDF 2 [("from", ObjCol ["A"; "A"]); ("to", ObjCol ["B"; "C"]);
          ("v", NumCol [num 5; num 2])].

(** ** The horizontal loop on frame values *)

(** The body of the loop of [sum] and [mean] on a frame value: select the
    child columns, reduce them along the rows, write the supernode column,
    drop the child columns. *)
Definition collapse (reduce : DataFrame → outcome Series) (df : DataFrame)
    (p : string * list string) : outcome DataFrame :=
  try! sel := frame_getitem_list df p.2 in
  try! s := reduce sel in
  frame_drop (frame_setitem df p.1 s) p.2.

Fixpoint collapse_all (reduce : DataFrame → outcome Series) (df : DataFrame)
    (eff : SupernodeMap) : outcome DataFrame :=
  match eff with
  | [] => Ok df
  | p :: eff' => try! df' := collapse reduce df p in collapse_all reduce df' eff'
  end.

(** The same body in the monad, over the caller's table. *)
Definition reduce_step (reduce : DataFrame → outcome Series)
    (p : string * list string) : M unit :=
  let! sel := data_getitem_list p.2 in
  let! s := lift (reduce sel) in
  let! _ := data_setitem p.1 s in
  data_drop p.2.

(** The numeric cells of the named columns. *)
Definition child_values (df : DataFrame) (nodes : list string) : list (list Qc) :=
  (λ c, match assoc c (columns df) with
        | Some (NumCol xs) => xs
        | _ => []
        end) <$> nodes.

(** No label occurs in two of the lists. *)
Fixpoint pairwise_disjoint (ls : list (list string)) : Prop :=
  match ls with
  | [] => True
  | l :: ls' => (∀ c, c ∈ l → c ∉ concat ls') ∧ pairwise_disjoint ls'
  end.

Global Instance ref_eq_dec : EqDecision ref.
Proof. solve_decision. Defined.
Global Instance GroupBy_eq_dec : EqDecision GroupBy.
Proof. solve_decision. Defined.

(** The column is there and numeric. *)
Definition numeric_in (df : DataFrame) (c : string) : Prop :=
  ∃ xs, assoc c (columns df) = Some (NumCol xs).

(** The supernode columns a horizontal reduction writes, computed from the
    table as it was passed in; [rows] is the reduction along a row. *)
Definition supernode_columns (rows : nat → list (list Qc) → list Qc)
    (df : DataFrame) (eff : SupernodeMap) : list (string * Series) :=
  (λ p, (p.1, NumCol (rows (nrows df) (child_values df p.2)))) <$> eff.

(** The table a horizontal reduction leaves: the columns that are no
    supernode's child, in their order, then the supernode columns in
    iteration order. *)
Definition collapsed (rows : nat → list (list Qc) → list Qc)
    (df : DataFrame) (eff : SupernodeMap) : DataFrame :=
  mkDF (nrows df)
    (filter (λ q, q.1 ∉ concat eff.*2) (columns df) ++ supernode_columns rows df eff).

(** The shape of a table that a vertical reduction returns: the key columns
    first, under the grouping labels, then the value columns, none of which
    carries a grouping label; one row per key tuple.  [numeric] says that
    every value column is numeric, [tr] that no row has equal cells in its
    first two key columns. *)
Definition aggregated (names : list string) (numeric tr : bool) (df : DataFrame) : Prop :=
  ∃ keys vals,
    columns df = zip names keys ++ vals
    ∧ length keys = length names
    ∧ Forall (λ k, series_len k = nrows df) keys
    ∧ Forall (λ p, (p.1 ∉ names) ∧ series_len p.2 = nrows df
                   ∧ (numeric = true → as_num p.2 ≠ None)) vals
    ∧ NoDup (row_keys (nrows df) keys)
    ∧ (tr = true →
       ∃ k0 k1 rest, keys = k0 :: k1 :: rest
                     ∧ Forall (λ b, b = true) (series_ne k0 k1)).

(** Every cell of the key columns that a call remaps (the first one, and
    with transmission the second) resolves to itself. *)
Definition keys_resolved (self : VerticalAggregationStrategy.t)
    (supernodes : SupernodeMap) (df : DataFrame) : Prop :=
  ∀ g k x,
    g ∈ take (if VerticalAggregationStrategy.transmission self then 2 else 1)
             (VerticalAggregationStrategy.group_by_cols self) →
    frame_getitem df g = Ok k →
    CStr x ∈ cells k →
    map_supernode x supernodes = x.

(** Two rows, the second keyed by a name that is itself a supernode. *)
Definition ex_chain : DataFrame :=
  mkDF 2 [("k", ObjCol ["A"; "X"]); ("v", NumCol [num 1; num 2])].

(** Node rows with a second numeric column next to the value column. *)
Definition ex_measures : DataFrame :=
  mkDF 3 [("k", ObjCol ["A"; "A"; "B"]); ("v", NumCol [num 1; num 2; num 3]);
          ("w", NumCol [num 10; num 20; num 30])].

(** Following the specification's words (section 4.2 and section 9): the
    reduction takes exactly the one named value column, and a value column
    that is absent or not numeric is a type mismatch. *)
Definition spec_sum_named_column (agg_col : string) (gb : GroupBy) : outcome DataFrame :=
  match assoc agg_col (gb_value_columns gb) with
  | Some (NumCol xs) =>
      Ok (mkDF (gb_ngroups gb)
            (gb_key_columns gb
             ++ [(agg_col, NumCol (reduce_groups qsum (gb_row_keys gb) xs))]))
  | _ => Raise TypeError
  end.

(** What [aggregate] hands to the reduction: a well-formed frame, its key
    columns, and with transmission no row whose first two keys are equal. *)
Definition grouped (tr : bool) (gb : GroupBy) : Prop :=
  wf_frame (gb_obj gb)
  ∧ key_columns (gb_obj gb) (gb_by gb) = Ok (gb_keys gb)
  ∧ (tr = true →
     ∃ k0 k1 rest, gb_keys gb = k0 :: k1 :: rest
                   ∧ Forall (λ b, b = true) (series_ne k0 k1)).

(** ** Predicates used in the further properties *)

(** All three vertical entry points raise [e] and leave the world [w']. *)
Definition vertical_raises (self : VerticalAggregationStrategy.t)
    (supernodes : SupernodeMap) (w : World) (e : exn) (w' : World) : Prop :=
  VerticalAggregationStrategy.sum self supernodes w = (Raise e, w')
  ∧ VerticalAggregationStrategy.mean self supernodes w = (Raise e, w')
  ∧ VerticalAggregationStrategy.agg self supernodes w = (Raise e, w').

(** The horizontal loop over [eff] stopped with [e] at some supernode: the
    table [df'] is what the supernodes before it made of [df], and either a
    column of its list is missing ([KeyError]) or one of them holds strings
    ([TypeError]). *)
Definition stopped_at (reduce : DataFrame → outcome Series) (df : DataFrame)
    (eff : SupernodeMap) (e : exn) (df' : DataFrame) : Prop :=
  ∃ pre p post,
    eff = pre ++ p :: post
    ∧ collapse_all reduce df pre = Ok df'
    ∧ ((e = KeyError ∧ ∃ c, c ∈ p.2 ∧ c ∉ labels df')
       ∨ (e = TypeError ∧ ∃ c xs, c ∈ p.2 ∧ frame_getitem df' c = Ok (ObjCol xs))).

(** ** The drivers: [Data], [aggregator], [sets_aggregator], [main] *)

(** What the drivers raise: the exceptions above, the [Exception] of
    [check_exist], the [UnboundLocalError] of a local variable read before
    any assignment to it, and whatever a pandas reader or writer raises on
    its file. *)
Inductive driver_exn :=
  | Builtin (e : exn)
  | Exception (msg : string)
  | UnboundLocalError
  | PandasError.

Inductive result (A : Type) :=
  | Return (a : A)
  | Throw (e : driver_exn).
Arguments Return {A} a.
Arguments Throw {A} e.

(** The keyword arguments that a configuration entry hands to
    [pd.read_excel], by name; the drivers only pass them on. *)
Definition ReaderConfig := gmap string string.

(** The part of pandas that touches the disk, as functions of the arguments
    the drivers call it with: [pd.read_excel(io=path, **reader_config)],
    [pd.read_csv(path)], and whether [to_csv(path)] can write. *)
Record Pandas := mkPandas {
  read_excel : option string → ReaderConfig → result DataFrame;
  read_csv : option string → result DataFrame;
  to_csv_ok : string → bool
}.

Module Data.

(** The dataclass fields (lines 10-13); every field defaults to [None],
    [exist] to [True]. *)
Record t := mk {
  reader : option string;
  reader_config : option ReaderConfig;
  path : option string;
  exist : bool
}.

(** [check_exist] (lines 15-19).  [Path(None)] raises [TypeError]; the
    [raise] is not under the [if]. *)
Definition check_exist (is_file : string → bool) (self : t) : result unit * t :=
  match path self with
  | None => (Throw (Builtin TypeError), self)
  | Some p =>
      let self' :=
        if is_file p then mk (reader self) (reader_config self) (path self) true
        else self in
      (Throw (Exception "Does not exist."), self')
  end.

(** [pd.read_excel(io=self.path, **self.reader_config)]: unpacking [None]
    raises [TypeError] before the reader is called. *)
Definition call_read_excel (pandas : Pandas) (self : t) : result DataFrame :=
  match reader_config self with
  | Some kwargs => read_excel pandas (path self) kwargs
  | None => Throw (Builtin TypeError)
  end.

(** [fetch_data] (lines 21-27). *)
Definition fetch_data (pandas : Pandas) (self : t) : result DataFrame :=
  if decide (reader self = Some "excel") then call_read_excel pandas self
  else if decide (reader self = Some "set") then call_read_excel pandas self
  else read_csv pandas (path self).

End Data.

Module Config.

(** One entry of [config/reader_config.json], its values at the types the
    drivers use them at; [None] is a key that the entry does not have
    (for [transmission], which is read with [get], also a [null]). *)
Record t := mk {
  reader : option string;
  reader_config : option ReaderConfig;
  path : option string;
  group_by_cols : option (list string);
  agg_col : option string;
  transmission : option bool;
  agg_strat : option string;
  output_file : option string
}.

End Config.

(** What [json.load] gives for [config/reader_config.json]: an object of
    entries by key, or an array of entries. *)
Inductive ConfigFile :=
  | ByKey (entries : gmap string Config.t)
  | Listed (entries : list Config.t).

(** The files the drivers depend on. *)
Record Disk := mkDisk {
  reader_configs : option ConfigFile;
  alias_files : gmap string AliasTable;
  pandas : Pandas
}.

(** What a driver leaves behind: the paths it passed to [open], in order,
    and the tables written with [to_csv], in order. *)
Record Session := mkSession {
  s_opened : list string;
  s_written : list (string * DataFrame)
}.

Definition D (A : Type) : Type := Session → result A * Session.

Definition dret {A} (a : A) : D A := λ s, (Return a, s).

Definition dthrow {A} (e : driver_exn) : D A := λ s, (Throw e, s).

Definition dbind {A B} (m : D A) (k : A → D B) : D B :=
  λ s, match m s with
       | (Return a, s') => k a s'
       | (Throw e, s') => (Throw e, s')
       end.

Notation "'do!' x := m 'in' k" := (dbind m (λ x, k))
  (at level 10, x pattern, m at level 200, k at level 200).

Definition dlift {A} (r : result A) : D A := λ s, (r, s).

(** [d[key]] on a dictionary from JSON. *)
Definition getitem {A} (o : option A) : result A :=
  match o with
  | Some a => Return a
  | None => Throw (Builtin KeyError)
  end.

(** Reading a local variable. *)
Definition local {A} (o : option A) : result A :=
  match o with
  | Some a => Return a
  | None => Throw UnboundLocalError
  end.

Definition reader_config_path : string := "config/reader_config.json".

(** [with open('config/reader_config.json') as f: json.load(f)] *)
Definition open_reader_config (d : Disk) : D ConfigFile :=
  λ s, let s' := mkSession (s_opened s ++ [reader_config_path]) (s_written s) in
       match reader_configs d with
       | Some f => (Return f, s')
       | None => (Throw (Builtin FileNotFoundError), s')
       end.

(** [reader_config[config_key]] with a string key: an array raises
    [TypeError]. *)
Definition config_getitem (f : ConfigFile) (config_key : string) : result Config.t :=
  match f with
  | ByKey entries => getitem (entries !! config_key)
  | Listed _ => Throw (Builtin TypeError)
  end.

(** A method of an [Aggregator] called on the table [data] it holds: the
    table returned and the table [data] has become. *)
Definition call (d : Disk) (method : M ref) (data : DataFrame)
    : D (DataFrame * DataFrame) :=
  λ s, match method (mkWorld data (alias_files d) (s_opened s)) with
       | (Ok r, w') => (Return (deref w' r, frame w'), mkSession (opened w') (s_written s))
       | (Raise e, w') => (Throw (Builtin e), mkSession (opened w') (s_written s))
       end.

(** [Data(config['reader'], config['reader_config'], config['path'])
    .fetch_data()] *)
Definition fetch_with_config (d : Disk) (config : Config.t) : D DataFrame :=
  do! reader := dlift (getitem (Config.reader config)) in
  do! reader_config := dlift (getitem (Config.reader_config config)) in
  do! path := dlift (getitem (Config.path config)) in
  dlift (Data.fetch_data (pandas d)
           (Data.mk (Some reader) (Some reader_config) (Some path) true)).

(** [Data(reader=config['reader'], path=config['path']).fetch_data()] *)
Definition fetch_by_path (d : Disk) (config : Config.t) : D DataFrame :=
  do! reader := dlift (getitem (Config.reader config)) in
  do! path := dlift (getitem (Config.path config)) in
  dlift (Data.fetch_data (pandas d) (Data.mk (Some reader) None (Some path) true)).

(** The end of [aggregator] (lines 131-134); [bound] is the local variable
    [aggregator] with the table it holds, if it was assigned.  Falling off
    the end returns [None]. *)
Definition by_agg_strat (d : Disk) (config : Config.t)
    (bound : option (Aggregator.t * DataFrame)) : D (option DataFrame) :=
  do! agg_strat := dlift (getitem (Config.agg_strat config)) in
  if decide (agg_strat = "sum") then
    do! a := dlift (local bound) in
    do! r := call d (Aggregator.sum a.1) a.2 in
    dret (Some r.1)
  else if decide (agg_strat = "mean") then
    do! a := dlift (local bound) in
    do! r := call d (Aggregator.mean a.1) a.2 in
    dret (Some r.1)
  else dret None.

(** [aggregator] (lines 115-134).  [config.get("transmission")] is [None]
    when the key is absent, which the strategy takes for false. *)
Definition aggregator (d : Disk) (config_key : string) (supernodes : SupernodeMap)
    : D (option DataFrame) :=
  do! reader_config := open_reader_config d in
  do! config := dlift (config_getitem reader_config config_key) in
  do! reader := dlift (getitem (Config.reader config)) in
  if decide (reader = "excel") then
    do! data := fetch_with_config d config in
    do! group_by_cols := dlift (getitem (Config.group_by_cols config)) in
    do! agg_col := dlift (getitem (Config.agg_col config)) in
    let strategy :=
      VerticalAggregationStrategy.mk group_by_cols (Some agg_col)
        (default false (Config.transmission config)) in
    by_agg_strat d config (Some (Aggregator.mk (Vertical strategy) supernodes, data))
  else if decide (reader = "csv") then
    do! data := fetch_by_path d config in
    by_agg_strat d config (Some (Aggregator.mk Horizontal supernodes, data))
  else if decide (reader = "set") then
    do! data := fetch_with_config d config in
    do! group_by_cols := dlift (getitem (Config.group_by_cols config)) in
    let strategy :=
      VerticalAggregationStrategy.mk group_by_cols None
        (default false (Config.transmission config)) in
    do! r := call d (Aggregator.agg (Aggregator.mk (Vertical strategy) supernodes)) data in
    dret (Some r.1)
  else by_agg_strat d config None.

(** [sets_aggregator] (lines 136-142). *)
Definition sets_aggregator (d : Disk) (config_key : string) (supernodes : SupernodeMap)
    : D DataFrame :=
  do! reader_config := open_reader_config d in
  do! config := dlift (config_getitem reader_config config_key) in
  do! data := fetch_with_config d config in
  do! group_by_cols := dlift (getitem (Config.group_by_cols config)) in
  let strategy := VerticalAggregationStrategy.mk group_by_cols None false in
  do! r := call d (Aggregator.agg (Aggregator.mk (Vertical strategy) supernodes)) data in
  dret r.1.

(** The supernodes of [main] (lines 146-150). *)
Definition main_supernodes : SupernodeMap :=
  [("Nordics", ["NO1"; "Sweden"; "Denmark"]);
   ("Europe", ["France"; "Germany"]);
   ("Baltics", ["Romania"; "Poland"])].

(** The local variables of [main] that live across the iterations of its
    loop: [aggregator] with the table it holds, and [result].  A [result]
    that is the table of the aggregator is written in the same iteration
    that changed that table, so its contents are kept here as they were
    when it was bound. *)
Record Locals := mkLocals {
  v_aggregator : option (Aggregator.t * DataFrame);
  v_result : option DataFrame
}.

(** [result.to_csv(path)] *)
Definition to_csv (d : Disk) (path : string) (df : DataFrame) : D unit :=
  λ s, if to_csv_ok (pandas d) path
       then (Return (), mkSession (s_opened s) (s_written s ++ [(path, df)]))
       else (Throw PandasError, s).

(** The body of the loop of [main] (lines 155-168).  An entry whose reader
    is neither ['excel'] nor ['csv'] leaves [aggregator] as the iteration
    before left it, and one whose [agg_strat] is neither ['sum'] nor
    ['mean'] leaves [result] so. *)
Definition main_step (d : Disk) (vars : Locals) (config : Config.t) : D Locals :=
  do! reader := dlift (getitem (Config.reader config)) in
  do! bound :=
    if decide (reader = "excel") then
      do! data := fetch_with_config d config in
      do! group_by_cols := dlift (getitem (Config.group_by_cols config)) in
      do! agg_col := dlift (getitem (Config.agg_col config)) in
      let strategy := VerticalAggregationStrategy.mk group_by_cols (Some agg_col) false in
      dret (Some (Aggregator.mk (Vertical strategy) main_supernodes, data))
    else if decide (reader = "csv") then
      do! data := fetch_by_path d config in
      dret (Some (Aggregator.mk Horizontal main_supernodes, data))
    else dret (v_aggregator vars) in
  do! agg_strat := dlift (getitem (Config.agg_strat config)) in
  do! vars' :=
    if decide (agg_strat = "sum") then
      do! a := dlift (local bound) in
      do! r := call d (Aggregator.sum a.1) a.2 in
      dret (mkLocals (Some (a.1, r.2)) (Some r.1))
    else if decide (agg_strat = "mean") then
      do! a := dlift (local bound) in
      do! r := call d (Aggregator.mean a.1) a.2 in
      dret (mkLocals (Some (a.1, r.2)) (Some r.1))
    else dret (mkLocals bound (v_result vars)) in
  do! result := dlift (local (v_result vars')) in
  do! output_file := dlift (getitem (Config.output_file config)) in
  do! _ := to_csv d ("test_writes/" +:+ output_file) result in
  dret vars'.

Fixpoint main_loop (d : Disk) (vars : Locals) (entries : list Config.t) : D Locals :=
  match entries with
  | [] => dret vars
  | config :: rest => do! vars' := main_step d vars config in main_loop d vars' rest
  end.

(** [main] (lines 145-168).  Iterating over an object from JSON yields its
    keys, and indexing a key, a string, with ['reader'] raises
    [TypeError]. *)
Definition main (d : Disk) : D unit :=
  do! reader_config := open_reader_config d in
  match reader_config with
  | Listed entries =>
      do! _ := main_loop d (mkLocals None None) entries in dret ()
  | ByKey entries =>
      if decide (entries = ∅) then dret () else dthrow (Builtin TypeError)
  end.

(** What the horizontal loop over [eff] has left in [df'] when it went
    through on the table [df]: [df'] is the table after every step; a child
    column of a supernode is gone unless a later supernode has its name and
    wrote it again; and the column of a supernode holds the reduction of
    its child columns as they stood when the loop reached it, unless the
    supernode is its own child or a later supernode overwrote or dropped
    the column. *)
Definition loop_leaves (reduce : DataFrame → outcome Series) (df : DataFrame)
    (eff : SupernodeMap) (df' : DataFrame) : Prop :=
  collapse_all reduce df eff = Ok df'
  ∧ (∀ pre s nodes post c,
       eff = pre ++ (s, nodes) :: post → c ∈ nodes →
       (∀ p, p ∈ post → p.1 ≠ c) →
       c ∉ labels df')
  ∧ (∀ pre s nodes post,
       eff = pre ++ (s, nodes) :: post → s ∉ nodes →
       (∀ p, p ∈ post → p.1 ≠ s ∧ s ∉ p.2) →
       ∃ df1 sel col,
         collapse_all reduce df pre = Ok df1
         ∧ frame_getitem_list df1 nodes = Ok sel
         ∧ reduce sel = Ok col
         ∧ frame_getitem df' s = Ok col).

(** Cells on which pandas adds exactly, whatever the dtype of the column:
    whole numbers whose absolute values add up to at most [2^53], so that
    no [int64] sum wraps around and no [float64] sum is rounded.  On such
    cells the rational arithmetic of this model is the arithmetic of the
    code. *)
Definition exact_cells (xs : list Qc) : Prop :=
  ∃ zs : list Z,
    xs = num <$> zs ∧ (foldr (λ z acc, Z.abs z + acc) 0 zs ≤ 2 ^ 53)%Z.

(** ** Theorems *)

Lemma map_supernode_none node supernodes :
  (∀ s ch, (s, ch) ∈ supernodes → node ∉ ch) →
  map_supernode node supernodes = node.
Proof.
  induction supernodes as [|[s ch] rest IH]; intros Hno; simpl; [done|].
  rewrite bool_decide_eq_false_2.
  - apply IH. intros s' ch' Hin. apply (Hno s' ch'). by right.
  - apply (Hno s ch). by left.
Qed.

Lemma map_supernode_first node pre s ch post :
  node ∈ ch →
  (∀ s' ch', (s', ch') ∈ pre → node ∉ ch') →
  map_supernode node (pre ++ (s, ch) :: post) = s.
Proof.
  intros Hin. induction pre as [|[s0 ch0] pre IH]; intros Hpre; simpl.
  - by rewrite bool_decide_eq_true_2.
  - rewrite bool_decide_eq_false_2.
    + apply IH. intros s' ch' H. apply (Hpre s' ch'). by right.
    + apply (Hpre s0 ch0). by left.
Qed.

(** ** C2: the supernode mapper *)

(** C2.  [map_supernode] walks the supernodes in insertion order and
    returns the name of the first one whose children contain the node; a
    node that no supernode lists comes back unchanged.  It is a total
    function on strings, so no input (the empty string included) raises. *)
Theorem map_supernode_resolves node supernodes :
  (∀ pre s ch post,
      supernodes = pre ++ (s, ch) :: post →
      node ∈ ch →
      (∀ s' ch', (s', ch') ∈ pre → node ∉ ch') →
      map_supernode node supernodes = s)
  ∧ ((∀ s ch, (s, ch) ∈ supernodes → node ∉ ch) →
     map_supernode node supernodes = node).
Proof.
  split.
  - intros pre s ch post -> Hin Hpre. by apply map_supernode_first.
  - apply map_supernode_none.
Qed.

Lemma map_supernode_resolves_witness :
  map_supernode "NO1" [("Europe", ["France"]); ("Nordics", ["NO1"; "Sweden"]);
                       ("Scandinavia", ["NO1"])] = "Nordics"
  ∧ map_supernode "" [("Europe", ["France"])] = "".
Proof.
  split.
  - apply (proj1 (map_supernode_resolves "NO1" _) [("Europe", ["France"])]
             "Nordics" ["NO1"; "Sweden"] [("Scandinavia", ["NO1"])]).
    + reflexivity.
    + apply (bool_decide_unpack _). vm_compute. exact I.
    + intros s' ch' [= -> ->]%list_elem_of_singleton.
      apply (bool_decide_unpack _). vm_compute. exact I.
  - apply (proj2 (map_supernode_resolves "" _)).
    intros s ch [= -> ->]%list_elem_of_singleton.
    apply (bool_decide_unpack _). vm_compute. exact I.
Defined.

(** ** The monad: which computations open files *)

Lemma silent_ret {A} (a : A) : silent (ret a).
Proof. by intros w. Qed.

Lemma silent_raise {A} e : silent (@raise A e).
Proof. by intros w. Qed.

Lemma silent_lift {A} (o : outcome A) : silent (lift o).
Proof. by intros w. Qed.

Lemma silent_load r : silent (load r).
Proof. intros w. by destruct r. Qed.

Lemma silent_bind {A B} (m : M A) (k : A → M B) :
  silent m → (∀ a, silent (k a)) → silent (bind m k).
Proof.
  intros Hm Hk w. unfold bind.
  destruct (m w) as [[a|e] w'] eqn:E; specialize (Hm w); rewrite E in Hm; simpl in *.
  - destruct (Hk a w') as [-> ->]. done.
  - done.
Qed.

Lemma silent_data_getitem c : silent (data_getitem c).
Proof. by intros w. Qed.

Lemma silent_data_getitem_list cs : silent (data_getitem_list cs).
Proof. by intros w. Qed.

Lemma silent_data_setitem c s : silent (data_setitem c s).
Proof. by intros w. Qed.

Lemma silent_data_drop cs : silent (data_drop cs).
Proof. intros w. unfold data_drop. by destruct (frame_drop _ _). Qed.

Lemma silent_for_each {A} (body : A → M unit) xs :
  (∀ x, silent (body x)) → silent (for_each body xs).
Proof.
  intros Hb. induction xs as [|x xs IH]; simpl.
  - apply silent_ret.
  - apply silent_bind; auto.
Qed.

Create HintDb silent.
#[local] Hint Resolve silent_ret silent_raise silent_lift silent_load
  silent_data_getitem silent_data_getitem_list silent_data_setitem
  silent_data_drop : silent.

Ltac silent_tac :=
  repeat first
    [ apply silent_bind; [|intros ?]
    | apply silent_for_each; intros ?
    | match goal with |- silent (if ?b then _ else _) => destruct b end
    | solve [eauto with silent] ].

Lemma silent_aggregate self supernodes :
  silent (VerticalAggregationStrategy.aggregate self supernodes).
Proof. unfold VerticalAggregationStrategy.aggregate. silent_tac. Qed.

Lemma silent_vertical_sum self supernodes :
  silent (VerticalAggregationStrategy.sum self supernodes).
Proof.
  unfold VerticalAggregationStrategy.sum.
  apply silent_bind; [apply silent_aggregate|]. intros; silent_tac.
Qed.

Lemma silent_vertical_mean self supernodes :
  silent (VerticalAggregationStrategy.mean self supernodes).
Proof.
  unfold VerticalAggregationStrategy.mean.
  apply silent_bind; [apply silent_aggregate|]. intros; silent_tac.
Qed.

Lemma silent_vertical_agg self supernodes :
  silent (VerticalAggregationStrategy.agg self supernodes).
Proof.
  unfold VerticalAggregationStrategy.agg.
  apply silent_bind; [apply silent_aggregate|]. intros; silent_tac.
Qed.

Lemma silent_sum_step p : silent (HorizontalAggregationStrategy.sum_step p).
Proof. unfold HorizontalAggregationStrategy.sum_step. silent_tac. Qed.

Lemma silent_mean_step p : silent (HorizontalAggregationStrategy.mean_step p).
Proof. unfold HorizontalAggregationStrategy.mean_step. silent_tac. Qed.

(** What [alpha2] does: it opens the alias file, then builds the effective
    child lists from the caller's columns. *)
Lemma alpha2_run supernodes w :
  HorizontalAggregationStrategy.alpha2 supernodes w =
  let w' := mkWorld (frame w) (files w) (opened w ++ [alpha2_path]) in
  match files w !! alpha2_path with
  | Some d =>
      (Ok (prod_map id (HorizontalAggregationStrategy.effective d (frame w)) <$> supernodes), w')
  | None => (Raise FileNotFoundError, w')
  end.
Proof.
  unfold HorizontalAggregationStrategy.alpha2, bind, open_json, alpha2_path.
  by destruct (files w !! _).
Qed.

Lemma horizontal_sum_opened supernodes w :
  opened (HorizontalAggregationStrategy.sum supernodes w).2 = opened w ++ [alpha2_path].
Proof.
  unfold HorizontalAggregationStrategy.sum, bind at 1. rewrite alpha2_run. simpl.
  destruct (files w !! alpha2_path) as [d|]; [|done].
  match goal with |- context [bind ?m ?k ?w'] =>
    destruct (silent_bind m k (silent_for_each _ _ silent_sum_step)
                (λ _, silent_ret _) w') as [-> _] end.
  done.
Qed.

Lemma horizontal_mean_opened supernodes w :
  opened (HorizontalAggregationStrategy.mean supernodes w).2 = opened w ++ [alpha2_path].
Proof.
  unfold HorizontalAggregationStrategy.mean, bind at 1. rewrite alpha2_run. simpl.
  destruct (files w !! alpha2_path) as [d|]; [|done].
  match goal with |- context [bind ?m ?k ?w'] =>
    destruct (silent_bind m k (silent_for_each _ _ silent_mean_step)
                (λ _, silent_ret _) w') as [-> _] end.
  done.
Qed.

(** ** C6: count on the horizontal strategy *)

(** C6.  The count entry point of the service, [Aggregator.agg], bound to
    the horizontal strategy fails for every table, supernode map and world:
    the strategy has no [agg] method, so the lookup raises [AttributeError]
    (the UnsupportedOperation condition); no table is returned and the
    caller's table is not touched. *)
Theorem horizontal_count_unsupported (supernodes : SupernodeMap) (w : World) :
  getattr Horizontal "agg" = Raise AttributeError
  ∧ Aggregator.agg (Aggregator.mk Horizontal supernodes) w = (Raise AttributeError, w).
Proof.
  assert (H : getattr Horizontal "agg" = Raise AttributeError) by reflexivity.
  split; [exact H|]. unfold Aggregator.agg, bind, lift.
  change (Aggregator.aggregation_strategy (Aggregator.mk Horizontal supernodes))
    with Horizontal.
  by rewrite H.
Qed.

(** ** C7: alias resolution *)

Lemma filter_fmap_comm {A B} (f : A → B) (P : B → Prop) `{∀ x, Decision (P x)} (l : list A) :
  filter P (f <$> l) = f <$> filter (λ x, P (f x)) l.
Proof.
  induction l as [|x l IH]; [done|].
  rewrite fmap_cons, !filter_cons. destruct (decide (P (f x))); simpl; by rewrite IH.
Qed.

(** C7.  With the alias dictionary [d] in the alias file: a node resolves to
    its entry in [d] when it has one and to itself otherwise; [alpha2]
    returns, without raising and without touching the table, for every
    supernode the resolved names of its children, keeping a name exactly
    when it is one of the table's column labels. *)
Theorem alpha2_alias_resolution (d : AliasTable) (w : World) (supernodes : SupernodeMap) :
  files w !! alpha2_path = Some d →
  (∀ node, HorizontalAggregationStrategy.alias d node =
           match d !! node with Some a => a | None => node end)
  ∧ (∃ w', HorizontalAggregationStrategy.alpha2 supernodes w =
             (Ok (prod_map id (HorizontalAggregationStrategy.effective d (frame w))
                    <$> supernodes), w')
           ∧ frame w' = frame w)
  ∧ (∀ child_nodes,
       HorizontalAggregationStrategy.effective d (frame w) child_nodes =
       filter (λ name, name ∈ labels (frame w))
              (HorizontalAggregationStrategy.alias d <$> child_nodes))
  ∧ (∀ child_nodes name,
       name ∈ HorizontalAggregationStrategy.effective d (frame w) child_nodes ↔
       name ∈ labels (frame w) ∧
       ∃ node, node ∈ child_nodes ∧ name = HorizontalAggregationStrategy.alias d node).
Proof.
  intros Hd. split_and!.
  - intros node. unfold HorizontalAggregationStrategy.alias. by destruct (d !! node).
  - eexists. rewrite alpha2_run, Hd. split; reflexivity.
  - intros ch. unfold HorizontalAggregationStrategy.effective.
    by rewrite filter_fmap_comm.
  - intros ch name. unfold HorizontalAggregationStrategy.effective.
    rewrite list_elem_of_fmap. split.
    + intros (node & -> & [Hin Hch]%list_elem_of_filter). eauto.
    + intros (Hin & node & Hch & ->). exists node. split; [done|].
      by apply list_elem_of_filter.
Qed.

Lemma alpha2_alias_resolution_witness :
  HorizontalAggregationStrategy.effective {[ "NO" := "A" ]} ex_nodes ["NO"; "B"; "SE"]
  = ["A"; "B"].
Proof.
  destruct (alpha2_alias_resolution {[ "NO" := "A" ]}
              (world_with {[ "NO" := "A" ]} ex_nodes) []) as (_ & _ & H & _).
  - vm_compute. reflexivity.
  - etrans; [exact (H ["NO"; "B"; "SE"])|]. vm_compute. reflexivity.
Defined.

(** ** The facade dispatches to the bound strategy *)

Lemma aggregator_vertical v supernodes :
  Aggregator.sum (Aggregator.mk (Vertical v) supernodes)
    = VerticalAggregationStrategy.sum v supernodes
  ∧ Aggregator.mean (Aggregator.mk (Vertical v) supernodes)
    = VerticalAggregationStrategy.mean v supernodes
  ∧ Aggregator.agg (Aggregator.mk (Vertical v) supernodes)
    = VerticalAggregationStrategy.agg v supernodes.
Proof. split_and!; reflexivity. Qed.

Lemma aggregator_horizontal supernodes :
  Aggregator.sum (Aggregator.mk Horizontal supernodes)
    = HorizontalAggregationStrategy.sum supernodes
  ∧ Aggregator.mean (Aggregator.mk Horizontal supernodes)
    = HorizontalAggregationStrategy.mean supernodes.
Proof. split_and!; reflexivity. Qed.

(** ** C5: which calls read a file *)

(** C5 as the claim states it fails: a horizontal sum opens a file. *)
Lemma horizontal_sum_reads_alias_file :
  opened (Aggregator.sum (Aggregator.mk Horizontal [("X", ["A"; "B"])])
            (world_with ∅ ex_nodes)).2
  ≠ opened (world_with ∅ ex_nodes).
Proof. vm_compute. discriminate. Qed.

(** C5, amended.  The table and the supernode map are the ones passed in.
    A vertical call (sum, mean, count) opens no file.  A horizontal call
    (sum, mean) opens exactly one file, [config/alpha2.json], once, to load
    the alias dictionary, and raises [FileNotFoundError] when that file does
    not exist. *)
Theorem aggregation_file_reads (a : Aggregator.t) (w : World) :
  match Aggregator.aggregation_strategy a with
  | Vertical _ =>
      opened (Aggregator.sum a w).2 = opened w
      ∧ opened (Aggregator.mean a w).2 = opened w
      ∧ opened (Aggregator.agg a w).2 = opened w
  | Horizontal =>
      opened (Aggregator.sum a w).2 = opened w ++ [alpha2_path]
      ∧ opened (Aggregator.mean a w).2 = opened w ++ [alpha2_path]
      ∧ (files w !! alpha2_path = None →
         (Aggregator.sum a w).1 = Raise FileNotFoundError
         ∧ (Aggregator.mean a w).1 = Raise FileNotFoundError)
  end.
Proof.
  destruct a as [[v|] S]; simpl.
  - destruct (aggregator_vertical v S) as (-> & -> & ->). split_and!.
    + apply silent_vertical_sum.
    + apply silent_vertical_mean.
    + apply silent_vertical_agg.
  - destruct (aggregator_horizontal S) as (-> & ->). split_and!.
    + apply horizontal_sum_opened.
    + apply horizontal_mean_opened.
    + intros Hnone.
      unfold HorizontalAggregationStrategy.sum, HorizontalAggregationStrategy.mean, bind.
      by rewrite alpha2_run, Hnone.
Qed.

(** ** Facts about columns and frames *)

Lemma assoc_set_eq {A} c (s : A) cols : assoc c (assoc_set c s cols) = Some s.
Proof.
  induction cols as [|[c' s'] cols IH]; simpl.
  - by rewrite decide_True.
  - destruct (decide (c' = c)) as [->|Hne]; simpl.
    + by rewrite decide_True.
    + by rewrite decide_False.
Qed.

Lemma assoc_set_ne {A} c c' (s : A) cols :
  c' ≠ c → assoc c' (assoc_set c s cols) = assoc c' cols.
Proof.
  intros Hne. induction cols as [|[c0 s0] cols IH]; simpl.
  - by rewrite decide_False.
  - destruct (decide (c0 = c)) as [->|Hne0]; simpl.
    + by rewrite !decide_False.
    + by rewrite IH.
Qed.

Lemma assoc_set_id {A} c (s : A) cols : assoc c cols = Some s → assoc_set c s cols = cols.
Proof.
  induction cols as [|[c0 s0] cols IH]; simpl; [done|].
  destruct (decide (c0 = c)) as [->|Hne]; [by intros [= ->]|].
  intros H. by rewrite IH.
Qed.

Lemma assoc_set_labels {A} c (s s0 : A) cols :
  assoc c cols = Some s0 → (assoc_set c s cols).*1 = cols.*1.
Proof.
  induction cols as [|[c1 s1] cols IH]; simpl; [done|].
  destruct (decide (c1 = c)) as [->|Hne]; [done|].
  intros H. rewrite !fmap_cons. f_equal. by apply IH.
Qed.

Lemma assoc_None {A} c (cols : list (string * A)) : assoc c cols = None ↔ c ∉ cols.*1.
Proof.
  induction cols as [|[c0 s0] cols IH]; simpl.
  - split; [intros _; apply not_elem_of_nil|done].
  - rewrite not_elem_of_cons. destruct (decide (c0 = c)) as [->|Hne].
    + split; [done|]. by intros [? _].
    + rewrite IH. split; [by split|by intros [_ ?]].
Qed.

Lemma assoc_Some_label {A} c (s : A) cols : assoc c cols = Some s → c ∈ cols.*1.
Proof.
  intros H. destruct (decide (c ∈ cols.*1)) as [|Hn]; [done|].
  apply assoc_None in Hn. congruence.
Qed.

Lemma assoc_set_fresh {A} c (s : A) cols :
  c ∉ cols.*1 → assoc_set c s cols = cols ++ [(c, s)].
Proof.
  induction cols as [|[c0 s0] cols IH]; simpl; [done|].
  rewrite not_elem_of_cons. intros [Hne Hn].
  rewrite decide_False by done. by rewrite IH.
Qed.

Lemma assoc_fmap {A B} (f : A → B) c cols :
  assoc c (prod_map id f <$> cols) = f <$> assoc c cols.
Proof.
  induction cols as [|[c0 s0] cols IH]; simpl; [done|].
  by destruct (decide (c0 = c)).
Qed.

Lemma frame_getitem_setitem_eq df c s : frame_getitem (frame_setitem df c s) c = Ok s.
Proof. unfold frame_getitem, frame_setitem; simpl. by rewrite assoc_set_eq. Qed.

Lemma frame_getitem_setitem_ne df c c' s :
  c' ≠ c → frame_getitem (frame_setitem df c s) c' = frame_getitem df c'.
Proof. intros. unfold frame_getitem, frame_setitem; simpl. by rewrite assoc_set_ne. Qed.

Lemma frame_getitem_Ok df c s : frame_getitem df c = Ok s ↔ assoc c (columns df) = Some s.
Proof.
  unfold frame_getitem. destruct (assoc c (columns df)); split; congruence.
Qed.

Lemma frame_getitem_mask_Ok df mask c s :
  frame_getitem df c = Ok s →
  frame_getitem (frame_getitem_mask df mask) c = Ok (series_select mask s).
Proof.
  rewrite !frame_getitem_Ok. unfold frame_getitem_mask; simpl.
  rewrite assoc_fmap. by intros ->.
Qed.

(** [select] keeps the entries whose mask bit is set, in order. *)
Lemma select_filter_zip {A} (mask : list bool) (xs : list A) :
  select mask xs = (filter (λ p, p.1 = true) (zip mask xs)).*2.
Proof.
  revert xs. induction mask as [|b mask IH]; intros [|x xs]; try done.
  change (zip (b :: mask) (x :: xs)) with ((b, x) :: zip mask xs).
  rewrite filter_cons. simpl select. destruct b.
  - rewrite decide_True by done. rewrite fmap_cons. by rewrite IH.
  - rewrite decide_False by done. by rewrite IH.
Qed.

Lemma series_ne_lookup a b i keep :
  series_ne a b !! i = Some keep ↔
  ∃ x y, cells a !! i = Some x ∧ cells b !! i = Some y ∧ keep = bool_decide (x ≠ y).
Proof.
  unfold series_ne. rewrite lookup_zip_with_Some. split.
  - intros (x & y & -> & Hx & Hy). by exists x, y.
  - intros (x & y & Hx & Hy & ->). by exists x, y.
Qed.

(** ** C3: transmission *)

(** C3.  With two distinct key columns [g0], [g1] present in the table and
    the transmission flag set, [aggregate] remaps both key columns through
    [map_supernode] (in the caller's table), and groups the frame that keeps
    exactly the rows whose two remapped key cells differ: row [i] stays if
    and only if the remapped cells differ, and every column is cut down by
    that same mask. *)
Theorem transmission_drops_self_loops
    (self : VerticalAggregationStrategy.t) (supernodes : SupernodeMap) (w : World)
    (g0 g1 : string) (a b : Series) :
  VerticalAggregationStrategy.group_by_cols self = [g0; g1] →
  VerticalAggregationStrategy.transmission self = true →
  g0 ≠ g1 →
  frame_getitem (frame w) g0 = Ok a →
  frame_getitem (frame w) g1 = Ok b →
  let a' := apply_map_supernode supernodes a in
  let b' := apply_map_supernode supernodes b in
  let remapped := frame_setitem (frame_setitem (frame w) g0 a') g1 b' in
  let mask := series_ne a' b' in
  VerticalAggregationStrategy.aggregate self supernodes w =
    (Ok (mkGroupBy (frame_getitem_mask remapped mask) [g0; g1]
           [series_select mask a'; series_select mask b']),
     set_frame remapped w)
  ∧ columns (frame_getitem_mask remapped mask) =
      prod_map id (series_select mask) <$> columns remapped
  ∧ (∀ i, mask !! i = Some true ↔
          ∃ x y, cells a' !! i = Some x ∧ cells b' !! i = Some y ∧ x ≠ y)
  ∧ (∀ i, mask !! i = Some false ↔
          ∃ x, cells a' !! i = Some x ∧ cells b' !! i = Some x).
Proof.
  intros Hcols Htr Hne Ha Hb a' b' remapped mask.
  assert (Hg0 : frame_getitem remapped g0 = Ok a').
  { unfold remapped. rewrite frame_getitem_setitem_ne by done.
    apply frame_getitem_setitem_eq. }
  assert (Hg1 : frame_getitem remapped g1 = Ok b').
  { unfold remapped. apply frame_getitem_setitem_eq. }
  split_and!.
  - unfold VerticalAggregationStrategy.aggregate.
    rewrite Hcols, Htr.
    unfold bind, lift, py_index, data_getitem, data_setitem, load, ret; simpl.
    rewrite Ha; simpl.
    rewrite frame_getitem_setitem_ne, Hb by done; simpl.
    fold a' b' remapped. rewrite Hg0, Hg1; simpl. fold mask.
    unfold groupby; simpl.
    rewrite (frame_getitem_mask_Ok _ _ _ _ Hg0), (frame_getitem_mask_Ok _ _ _ _ Hg1).
    reflexivity.
  - reflexivity.
  - intros i. unfold mask. rewrite series_ne_lookup. split.
    + intros (x & y & Hx & Hy & Hk). exists x, y. split_and!; [done..|].
      symmetry in Hk. by apply bool_decide_eq_true in Hk.
    + intros (x & y & Hx & Hy & Hk). exists x, y. split_and!; [done..|].
      symmetry. by apply bool_decide_eq_true.
  - intros i. unfold mask. rewrite series_ne_lookup. split.
    + intros (x & y & Hx & Hy & Hk). exists x. split; [done|].
      symmetry in Hk. apply bool_decide_eq_false in Hk.
      destruct (decide (x = y)) as [->|]; [done|]. by destruct Hk.
    + intros (x & Hx & Hy). exists x, x. split_and!; [done..|].
      symmetry. apply bool_decide_eq_false. by intros ?.
Qed.

Lemma transmission_drops_self_loops_witness :
  (VerticalAggregationStrategy.aggregate
     (VerticalAggregationStrategy.mk ["from"; "to"] (Some "v") true)
     [("X", ["A"; "B"])] (world_with ∅ ex_edges)).1
  = Ok (mkGroupBy
          (mkDF 1 [("from", ObjCol ["X"]); ("to", ObjCol ["C"]); ("v", NumCol [num 2])])
          ["from"; "to"] [ObjCol ["X"]; ObjCol ["C"]]).
Proof.
  destruct (transmission_drops_self_loops
              (VerticalAggregationStrategy.mk ["from"; "to"] (Some "v") true)
              [("X", ["A"; "B"])] (world_with ∅ ex_edges) "from" "to"
              (ObjCol ["A"; "A"]) (ObjCol ["B"; "C"])) as [H _].
  - reflexivity.
  - reflexivity.
  - discriminate.
  - reflexivity.
  - reflexivity.
  - rewrite H. reflexivity.
Defined.

(** ** C8: what a call does to the caller's table *)

Lemma remap_column_shape supernodes c df :
  nrows (remap_column supernodes c df) = nrows df
  ∧ labels (remap_column supernodes c df) = labels df.
Proof.
  unfold remap_column. destruct (frame_getitem df c) as [s|e] eqn:E; [|done].
  split; [done|]. apply frame_getitem_Ok in E.
  unfold labels, frame_setitem; simpl. by eapply assoc_set_labels.
Qed.

Lemma aggregate_frame self supernodes w :
  frame (VerticalAggregationStrategy.aggregate self supernodes w).2 =
  remapped_keys self supernodes (frame w).
Proof.
  unfold VerticalAggregationStrategy.aggregate, remapped_keys, remap_column.
  destruct self as [cols ac tr]; simpl.
  unfold bind, lift, py_index, data_getitem, data_setitem, load, ret; simpl.
  destruct cols as [|g0 rest]; simpl; [done|].
  destruct (frame_getitem (frame w) g0) as [a|e] eqn:Ha; simpl; [|done].
  destruct tr; simpl.
  - destruct rest as [|g1 rest']; simpl; [done|].
    destruct (frame_getitem (frame_setitem (frame w) g0 _) g1) as [b|e] eqn:Hb;
      simpl; [|done].
    destruct (frame_getitem (frame_setitem _ g1 _) g0); simpl; [|done].
    by destruct (frame_getitem (frame_setitem _ g1 _) g1).
  - done.
Qed.

Lemma vertical_sum_world self supernodes w :
  (VerticalAggregationStrategy.sum self supernodes w).2 =
  (VerticalAggregationStrategy.aggregate self supernodes w).2.
Proof.
  unfold VerticalAggregationStrategy.sum, bind.
  by destruct (VerticalAggregationStrategy.aggregate self supernodes w) as [[gb|e] w'].
Qed.

Lemma vertical_mean_world self supernodes w :
  (VerticalAggregationStrategy.mean self supernodes w).2 =
  (VerticalAggregationStrategy.aggregate self supernodes w).2.
Proof.
  unfold VerticalAggregationStrategy.mean, bind, lift.
  destruct (VerticalAggregationStrategy.aggregate self supernodes w) as [[gb|e] w'];
    [|done].
  by destruct (gb_mean _ gb).
Qed.

Lemma vertical_agg_world self supernodes w :
  (VerticalAggregationStrategy.agg self supernodes w).2 =
  (VerticalAggregationStrategy.aggregate self supernodes w).2.
Proof.
  unfold VerticalAggregationStrategy.agg, bind.
  by destruct (VerticalAggregationStrategy.aggregate self supernodes w) as [[gb|e] w'].
Qed.

Lemma horizontal_sum_returns_caller supernodes w r :
  (HorizontalAggregationStrategy.sum supernodes w).1 = Ok r → r = Caller.
Proof.
  unfold HorizontalAggregationStrategy.sum, bind, ret.
  destruct (HorizontalAggregationStrategy.alpha2 supernodes w) as [[eff|e] w1]; [|done].
  destruct (for_each _ eff w1) as [[[]|e] w2]; simpl; congruence.
Qed.

Lemma horizontal_mean_returns_caller supernodes w r :
  (HorizontalAggregationStrategy.mean supernodes w).1 = Ok r → r = Caller.
Proof.
  unfold HorizontalAggregationStrategy.mean, bind, ret.
  destruct (HorizontalAggregationStrategy.alpha2 supernodes w) as [[eff|e] w1]; [|done].
  destruct (for_each _ _ w1) as [[[]|e] w2]; simpl; congruence.
Qed.

(** C8 as the claim states it fails: after a vertical sum the caller's
    table holds the remapped key column. *)
Lemma vertical_sum_changes_callers_table :
  frame (Aggregator.sum
           (Aggregator.mk (Vertical (VerticalAggregationStrategy.mk ["k"] (Some "v") false))
              [("X", ["A"; "B"])])
           (world_with ∅ ex_rows)).2
  ≠ frame (world_with ∅ ex_rows).
Proof. vm_compute. discriminate. Qed.

(** ** The horizontal loop *)

Lemma sum_step_reduce_step :
  HorizontalAggregationStrategy.sum_step = reduce_step sum_axis1.
Proof. reflexivity. Qed.

Lemma mean_step_reduce_step :
  HorizontalAggregationStrategy.mean_step = reduce_step mean_axis1.
Proof. reflexivity. Qed.

Lemma take_columns_labels cols cs sel :
  take_columns cols cs = Ok sel → sel.*1 = cs ∧ Forall (λ c, c ∈ cols.*1) cs.
Proof.
  revert sel. induction cs as [|c cs IH]; simpl; intros sel.
  - intros [= <-]. by split.
  - destruct (assoc c cols) as [s|] eqn:Hc; [|done].
    destruct (take_columns cols cs) as [r|e]; simpl; [|done].
    intros [= <-]. destruct (IH r eq_refl) as [Hl Hall].
    split; [by rewrite fmap_cons, Hl|]. constructor; [|done].
    by eapply assoc_Some_label.
Qed.

Lemma take_columns_missing cols cs c :
  c ∈ cs → c ∉ cols.*1 → take_columns cols cs = Raise KeyError.
Proof.
  intros Hin Hn. destruct (take_columns cols cs) as [sel|e] eqn:E.
  - apply take_columns_labels in E as [_ Hall].
    rewrite Forall_forall in Hall. by destruct Hn; apply Hall.
  - clear Hin Hn. revert E. induction cs as [|c0 cs IH]; simpl; [done|].
    destruct (assoc c0 cols); [|by intros [= <-]].
    destruct (take_columns cols cs); simpl; [done|]. auto.
Qed.

Lemma assoc_set_labels_subseteq {A} c (s : A) cols x :
  x ∈ (assoc_set c s cols).*1 ↔ x = c ∨ x ∈ cols.*1.
Proof.
  induction cols as [|[c0 s0] cols IH]; simpl.
  - rewrite list_elem_of_singleton, elem_of_nil. tauto.
  - destruct (decide (c0 = c)) as [->|Hne]; rewrite !fmap_cons, !elem_of_cons; simpl.
    + tauto.
    + rewrite IH. tauto.
Qed.

Lemma frame_drop_Ok df cs :
  Forall (λ c, c ∈ labels df) cs →
  frame_drop df cs = Ok (mkDF (nrows df) (filter (λ p, p.1 ∉ cs) (columns df))).
Proof. intros H. unfold frame_drop. by rewrite bool_decide_eq_true_2. Qed.

(** Once the selection and the reduction went through, the drop does too. *)
Lemma collapse_Ok reduce df p sel s :
  frame_getitem_list df p.2 = Ok sel →
  reduce sel = Ok s →
  collapse reduce df p =
    Ok (mkDF (nrows df) (filter (λ q, q.1 ∉ p.2) (assoc_set p.1 s (columns df)))).
Proof.
  intros Hsel Hs. unfold collapse. rewrite Hsel; simpl. rewrite Hs; simpl.
  rewrite frame_drop_Ok; [done|].
  unfold frame_getitem_list in Hsel.
  destruct (take_columns (columns df) p.2) as [r|e] eqn:E; [|done].
  apply take_columns_labels in E as [_ Hall].
  eapply Forall_impl; [exact Hall|]. intros c Hc. simpl in *.
  unfold labels, frame_setitem; simpl. apply assoc_set_labels_subseteq. by right.
Qed.

Lemma collapse_inv reduce df p df' :
  collapse reduce df p = Ok df' →
  ∃ sel s, frame_getitem_list df p.2 = Ok sel ∧ reduce sel = Ok s
           ∧ df' = mkDF (nrows df) (filter (λ q, q.1 ∉ p.2) (assoc_set p.1 s (columns df))).
Proof.
  intros H. unfold collapse in H.
  destruct (frame_getitem_list df p.2) as [sel|e] eqn:Hsel; [|done].
  simpl in H. destruct (reduce sel) as [s|e] eqn:Hs; [|done].
  exists sel, s. split_and!; [done..|].
  pose proof (collapse_Ok reduce df p sel s Hsel Hs) as H'.
  unfold collapse in H'. rewrite Hsel in H'; simpl in H'. rewrite Hs in H'; simpl in H'.
  simpl in H. congruence.
Qed.

Lemma collapse_all_app reduce df l1 l2 :
  collapse_all reduce df (l1 ++ l2) =
  try! df' := collapse_all reduce df l1 in collapse_all reduce df' l2.
Proof.
  revert df. induction l1 as [|p l1 IH]; intros df; simpl; [done|].
  destruct (collapse reduce df p); simpl; [apply IH|done].
Qed.

(** The monadic step agrees with the step on values. *)
Lemma reduce_step_run reduce p w :
  match collapse reduce (frame w) p with
  | Ok df' => reduce_step reduce p w = (Ok (), set_frame df' w)
  | Raise e => ∃ w', reduce_step reduce p w = (Raise e, w')
  end.
Proof.
  unfold collapse, reduce_step, bind, lift, data_getitem_list, data_setitem, data_drop.
  destruct (frame_getitem_list (frame w) p.2) as [sel|e]; simpl; [|by eexists].
  destruct (reduce sel) as [s|e]; simpl; [|by eexists].
  destruct (frame_drop _ _); [done|by eexists].
Qed.

Lemma for_each_reduce_step_run reduce eff w :
  match collapse_all reduce (frame w) eff with
  | Ok df' => for_each (reduce_step reduce) eff w = (Ok (), set_frame df' w)
  | Raise e => ∃ w', for_each (reduce_step reduce) eff w = (Raise e, w')
  end.
Proof.
  revert w. induction eff as [|p eff IH]; intros w; simpl.
  - by destruct w.
  - unfold bind. pose proof (reduce_step_run reduce p w) as Hstep.
    destruct (collapse reduce (frame w) p) as [df1|e]; simpl.
    + rewrite Hstep. specialize (IH (set_frame df1 w)). simpl in IH.
      destruct (collapse_all reduce df1 eff); [done|].
      destruct IH as [w' ->]. by eexists.
    + destruct Hstep as [w' ->]. by eexists.
Qed.

(** The whole of [sum] and [mean] in terms of the loop on values. *)
Lemma horizontal_sum_run supernodes w d :
  files w !! alpha2_path = Some d →
  let eff := prod_map id (HorizontalAggregationStrategy.effective d (frame w))
               <$> supernodes in
  match collapse_all sum_axis1 (frame w) eff with
  | Ok df' => HorizontalAggregationStrategy.sum supernodes w =
                (Ok Caller, mkWorld df' (files w) (opened w ++ [alpha2_path]))
  | Raise e => (HorizontalAggregationStrategy.sum supernodes w).1 = Raise e
  end.
Proof.
  intros Hd eff.
  pose proof (for_each_reduce_step_run sum_axis1 eff
                (mkWorld (frame w) (files w) (opened w ++ [alpha2_path]))) as H.
  change (frame (mkWorld (frame w) _ _)) with (frame w) in H.
  assert (HorizontalAggregationStrategy.sum supernodes w =
          let (o, w') := for_each (reduce_step sum_axis1) eff
                           (mkWorld (frame w) (files w) (opened w ++ [alpha2_path])) in
          match o with
          | Ok _ => (Ok Caller, w')
          | Raise e => (Raise e, w')
          end) as ->.
  { unfold HorizontalAggregationStrategy.sum, bind. by rewrite alpha2_run, Hd. }
  destruct (collapse_all sum_axis1 (frame w) eff).
  - by rewrite H.
  - destruct H as [w' ->]. done.
Qed.

Lemma horizontal_mean_run supernodes w d :
  files w !! alpha2_path = Some d →
  let eff := filter (λ p, length p.2 ≠ 0)
               (prod_map id (HorizontalAggregationStrategy.effective d (frame w))
                  <$> supernodes) in
  match collapse_all mean_axis1 (frame w) eff with
  | Ok df' => HorizontalAggregationStrategy.mean supernodes w =
                (Ok Caller, mkWorld df' (files w) (opened w ++ [alpha2_path]))
  | Raise e => (HorizontalAggregationStrategy.mean supernodes w).1 = Raise e
  end.
Proof.
  intros Hd eff.
  pose proof (for_each_reduce_step_run mean_axis1 eff
                (mkWorld (frame w) (files w) (opened w ++ [alpha2_path]))) as H.
  change (frame (mkWorld (frame w) _ _)) with (frame w) in H.
  assert (HorizontalAggregationStrategy.mean supernodes w =
          let (o, w') := for_each (reduce_step mean_axis1) eff
                           (mkWorld (frame w) (files w) (opened w ++ [alpha2_path])) in
          match o with
          | Ok _ => (Ok Caller, w')
          | Raise e => (Raise e, w')
          end) as ->.
  { unfold HorizontalAggregationStrategy.mean, bind. by rewrite alpha2_run, Hd. }
  destruct (collapse_all mean_axis1 (frame w) eff).
  - by rewrite H.
  - destruct H as [w' ->]. done.
Qed.

(** ** C10: two supernodes that share a child column *)

Lemma collapse_labels reduce df p df' x :
  collapse reduce df p = Ok df' →
  x ∈ labels df' → (x = p.1 ∨ x ∈ labels df) ∧ x ∉ p.2.
Proof.
  intros (sel & s & _ & _ & ->)%collapse_inv. unfold labels; simpl.
  intros ([x' s'] & -> & [Hn Hin]%list_elem_of_filter)%list_elem_of_fmap.
  simpl in *. split; [|done].
  apply (assoc_set_labels_subseteq p.1 s). by apply (list_elem_of_fmap_2 fst) in Hin.
Qed.

Lemma collapse_all_absent reduce c mid :
  ∀ df df',
    c ∉ labels df →
    (∀ p, p ∈ mid → p.1 ≠ c) →
    collapse_all reduce df mid = Ok df' →
    c ∉ labels df'.
Proof.
  induction mid as [|p mid IH]; intros df df' Hc Hmid; simpl.
  - by intros [= <-].
  - destruct (collapse reduce df p) as [df1|e] eqn:E; simpl; [|done].
    apply IH.
    + intros [[Heq|Hin] _]%(collapse_labels _ _ _ _ _ E).
      * apply (Hmid p); [by left|done].
      * done.
    + intros q Hq. apply Hmid. by right.
Qed.

Lemma collapse_missing reduce df p c :
  c ∈ p.2 → c ∉ labels df → collapse reduce df p = Raise KeyError.
Proof.
  intros Hin Hn. unfold collapse, frame_getitem_list.
  by rewrite (take_columns_missing _ _ c).
Qed.

Lemma collapse_all_shared_raises reduce df pre s1 n1 mid s2 n2 post c :
  c ∈ n1 → c ∈ n2 →
  (∀ p, p ∈ mid → p.1 ≠ c) →
  is_raise (collapse_all reduce df (pre ++ (s1, n1) :: mid ++ (s2, n2) :: post)).
Proof.
  intros H1 H2 Hmid. rewrite collapse_all_app.
  destruct (collapse_all reduce df pre) as [df1|e]; simpl; [|done].
  destruct (collapse reduce df1 (s1, n1)) as [df2|e] eqn:E1; simpl; [|done].
  rewrite collapse_all_app.
  destruct (collapse_all reduce df2 mid) as [df3|e] eqn:E2; simpl; [|done].
  rewrite (collapse_missing reduce df3 (s2, n2) c); [done|done|].
  eapply collapse_all_absent; [|exact Hmid|exact E2].
  intros [_ Hn]%(collapse_labels _ _ _ _ _ E1). by apply Hn.
Qed.

(** C10 as the claim states it fails: the lists of [S1] and [S3] share the
    column [A], a supernode named [A] sits between them and writes a column
    of that name again, and the sum returns a table. *)
Lemma shared_child_column_recreated :
  "A" ∈ HorizontalAggregationStrategy.effective ∅ ex_nodes ["A"]
  ∧ HorizontalAggregationStrategy.sum
      [("S1", ["A"]); ("A", ["B"]); ("S3", ["A"])] (world_with ∅ ex_nodes)
    = (Ok Caller,
       mkWorld (mkDF 1 [("S1", NumCol [num 1]); ("S3", NumCol [num 2])])
         {[ alpha2_path := ∅ ]} [alpha2_path]).
Proof.
  split.
  - apply (bool_decide_unpack _). vm_compute. exact I.
  - vm_compute. reflexivity.
Qed.

(** C10, amended.  When the effective child lists of two supernodes share a
    column [c] and no supernode that the loop visits between the two is
    itself named [c], the horizontal sum raises and returns no table: the
    first of the two (if the loop gets that far) drops [c], nothing writes
    it again, and the second one's selection misses it. *)
Theorem shared_child_column_raises
    (w : World) (d : AliasTable) (pre mid post : SupernodeMap)
    (s1 s2 : string) (ch1 ch2 : list string) (c : string) :
  files w !! alpha2_path = Some d →
  c ∈ HorizontalAggregationStrategy.effective d (frame w) ch1 →
  c ∈ HorizontalAggregationStrategy.effective d (frame w) ch2 →
  (∀ p, p ∈ mid → p.1 ≠ c) →
  ∃ e, (HorizontalAggregationStrategy.sum
          (pre ++ (s1, ch1) :: mid ++ (s2, ch2) :: post) w).1 = Raise e.
Proof.
  intros Hd H1 H2 Hmid.
  pose proof (horizontal_sum_run (pre ++ (s1, ch1) :: mid ++ (s2, ch2) :: post) w d Hd)
    as Hrun.
  cbv zeta in Hrun.
  rewrite fmap_app, fmap_cons, fmap_app, fmap_cons in Hrun.
  pose proof (collapse_all_shared_raises sum_axis1 (frame w)
    (prod_map id (HorizontalAggregationStrategy.effective d (frame w)) <$> pre)
    s1 (HorizontalAggregationStrategy.effective d (frame w) ch1)
    (prod_map id (HorizontalAggregationStrategy.effective d (frame w)) <$> mid)
    s2 (HorizontalAggregationStrategy.effective d (frame w) ch2)
    (prod_map id (HorizontalAggregationStrategy.effective d (frame w)) <$> post)
    c H1 H2) as Hraise.
  simpl in Hrun.
  destruct (collapse_all _ _ _) as [df'|e].
  - destruct Hraise. intros p ([s ch] & -> & Hp)%list_elem_of_fmap. simpl.
    by apply (Hmid (s, ch)).
  - by exists e.
Qed.

Lemma shared_child_column_raises_witness :
  ∃ e, (HorizontalAggregationStrategy.sum [("S1", ["A"]); ("S2", ["A"; "B"])]
          (world_with ∅ ex_nodes)).1 = Raise e.
Proof.
  apply (shared_child_column_raises (world_with ∅ ex_nodes) ∅ [] [] []
           "S1" "S2" ["A"] ["A"; "B"] "A").
  - vm_compute. reflexivity.
  - apply (bool_decide_unpack _). vm_compute. exact I.
  - apply (bool_decide_unpack _). vm_compute. exact I.
  - intros p Hp. by apply elem_of_nil in Hp.
Defined.

(** ** The result of a horizontal reduction *)

Lemma assoc_app {A} c (l1 l2 : list (string * A)) :
  assoc c (l1 ++ l2) = match assoc c l1 with Some s => Some s | None => assoc c l2 end.
Proof.
  induction l1 as [|[c0 s0] l1 IH]; simpl; [done|].
  by destruct (decide (c0 = c)).
Qed.

Lemma assoc_filter_keep {A} c (nodes : list string) (cols : list (string * A)) :
  c ∉ nodes → assoc c (filter (λ q, q.1 ∉ nodes) cols) = assoc c cols.
Proof.
  intros Hc. induction cols as [|[c0 s0] cols IH]; [done|].
  rewrite filter_cons. simpl. destruct (decide (c0 ∉ nodes)) as [HP|HP]; simpl.
  - by destruct (decide (c0 = c)).
  - destruct (decide (c0 = c)) as [->|]; [done|]. apply IH.
Qed.

Lemma assoc_elem {A} c (s : A) cols :
  NoDup cols.*1 → (c, s) ∈ cols → assoc c cols = Some s.
Proof.
  induction cols as [|[c0 s0] cols IH].
  - intros _ []%elem_of_nil.
  - rewrite fmap_cons, NoDup_cons, elem_of_cons. simpl.
    intros [Hn Hnd] [[= <- <-]|Hin].
    + by rewrite decide_True.
    + rewrite decide_False; [by apply IH|].
      intros ->. apply Hn. by apply (list_elem_of_fmap_2 fst) in Hin.
Qed.

Lemma numeric_in_label df c : numeric_in df c → c ∈ labels df.
Proof. intros [xs H]. by eapply assoc_Some_label. Qed.

Lemma elem_of_concat_snd (eff : SupernodeMap) p c :
  p ∈ eff → c ∈ p.2 → c ∈ concat eff.*2.
Proof.
  induction eff as [|q eff IH]; [by intros []%elem_of_nil|].
  rewrite fmap_cons. simpl. rewrite elem_of_cons, elem_of_app.
  intros [->|Hin] Hc; [by left|]. right. by apply IH.
Qed.

Lemma filter_not_elem_of_nil {A} (cols : list (string * A)) :
  filter (λ q, q.1 ∉ ([] : list string)) cols = cols.
Proof.
  induction cols as [|q cols IH]; [done|].
  rewrite filter_cons, decide_True by apply not_elem_of_nil. by rewrite IH.
Qed.

Lemma take_columns_numeric df nodes :
  (∀ c, c ∈ nodes → numeric_in df c) →
  ∃ sel, take_columns (columns df) nodes = Ok sel
         ∧ mapM as_num sel.*2 = Some (child_values df nodes).
Proof.
  induction nodes as [|c nodes IH]; intros Hnum; simpl.
  - by exists [].
  - destruct (Hnum c) as [xs Hc]; [by left|].
    destruct IH as (sel & Hsel & Hmap); [intros c' Hc'; apply Hnum; by right|].
    rewrite Hc, Hsel. simpl. exists ((c, NumCol xs) :: sel). split; [done|].
    rewrite fmap_cons. simpl. by rewrite Hmap.
Qed.

Section collapsed.
Variable reduce : DataFrame → outcome Series.
Variable rows : nat → list (list Qc) → list Qc.
Hypothesis reduce_numeric : ∀ sel cols,
  mapM as_num (columns sel).*2 = Some cols →
  reduce sel = Ok (NumCol (rows (nrows sel) cols)).

(** One supernode with fresh name and numeric children. *)
Lemma collapse_fresh df s nodes :
  s ∉ labels df →
  (∀ c, c ∈ nodes → numeric_in df c) →
  collapse reduce df (s, nodes) =
    Ok (mkDF (nrows df)
          (filter (λ q, q.1 ∉ nodes) (columns df)
           ++ [(s, NumCol (rows (nrows df) (child_values df nodes)))])).
Proof using reduce_numeric.
  intros Hs Hnum.
  destruct (take_columns_numeric df nodes Hnum) as (sel & Hsel & Hmap).
  rewrite (collapse_Ok reduce df (s, nodes) (mkDF (nrows df) sel)
             (NumCol (rows (nrows df) (child_values df nodes)))).
  - simpl. rewrite assoc_set_fresh by done. rewrite filter_app. do 3 f_equal.
    rewrite filter_cons, decide_True; [done|]. simpl.
    intros Hin. apply Hs. by apply numeric_in_label, Hnum.
  - unfold frame_getitem_list. simpl. by rewrite Hsel.
  - by apply (reduce_numeric (mkDF (nrows df) sel)).
Qed.

Lemma collapse_all_collapsed eff :
  ∀ df,
    NoDup eff.*1 →
    (∀ s, s ∈ eff.*1 → s ∉ labels df) →
    pairwise_disjoint eff.*2 →
    (∀ c, c ∈ concat eff.*2 → numeric_in df c) →
    collapse_all reduce df eff = Ok (collapsed rows df eff).
Proof using reduce_numeric.
  induction eff as [|[s nodes] eff IH]; intros df Hnd Hfresh Hdisj Hnum.
  - unfold collapsed, supernode_columns.
    change (concat ([] : SupernodeMap).*2) with ([] : list string).
    rewrite filter_not_elem_of_nil, fmap_nil, app_nil_r. by destruct df.
  - rewrite fmap_cons in Hnd. rewrite fmap_cons in Hdisj.
    setoid_rewrite fmap_cons in Hfresh. setoid_rewrite fmap_cons in Hnum.
    simpl in *.
    apply NoDup_cons in Hnd as [Hs Hnd]. destruct Hdisj as [Hd1 Hdisj].
    assert (Hnodes : ∀ c, c ∈ nodes → numeric_in df c).
    { intros c Hc. apply Hnum, elem_of_app. by left. }
    assert (Hrest : ∀ c, c ∈ concat eff.*2 → numeric_in df c).
    { intros c Hc. apply Hnum, elem_of_app. by right. }
    rewrite collapse_fresh; [|apply Hfresh; by left|done]. simpl.
    set (col := NumCol (rows (nrows df) (child_values df nodes))).
    set (df1 := mkDF (nrows df) (filter (λ q, q.1 ∉ nodes) (columns df) ++ [(s, col)])).
    assert (Hassoc : ∀ c, c ∈ concat eff.*2 →
              assoc c (columns df1) = assoc c (columns df)).
    { intros c Hc. unfold df1; simpl. rewrite assoc_app.
      rewrite assoc_filter_keep.
      - destruct (Hrest c Hc) as [xs ->]. done.
      - intros Hin. by apply (Hd1 c). }
    rewrite IH.
    + f_equal. unfold collapsed.
      change (concat ((s, nodes) :: eff).*2) with (nodes ++ concat eff.*2).
      change (nrows df1) with (nrows df). f_equal.
      change (columns df1)
        with (filter (λ q, q.1 ∉ nodes) (columns df) ++ [(s, col)]).
      rewrite filter_app, list_filter_filter.
      rewrite (filter_cons _ (s, col)), decide_True.
      * rewrite filter_nil, <-app_assoc. f_equal.
        { apply list_filter_iff. intros q. rewrite not_elem_of_app. tauto. }
        unfold supernode_columns. rewrite fmap_cons.
        change (nrows df1) with (nrows df). simpl. f_equal.
        apply Forall_fmap_ext_1, Forall_forall. intros p Hp. do 3 f_equal.
        unfold child_values. apply Forall_fmap_ext_1, Forall_forall.
        intros c Hc. by rewrite Hassoc by by eapply elem_of_concat_snd.
      * simpl. intros Hin. apply (Hfresh s); [by left|].
        by apply numeric_in_label, Hrest.
    + done.
    + intros s' Hs'. unfold labels, df1; simpl. rewrite fmap_app. simpl.
      rewrite elem_of_app, list_elem_of_singleton. intros [Hin| ->]; [|done].
      apply (Hfresh s'); [by right|].
      apply list_elem_of_fmap in Hin as (q & -> & [_ Hq]%list_elem_of_filter).
      by apply list_elem_of_fmap_2.
    + done.
    + intros c Hc. destruct (Hrest c Hc) as [xs Hx]. exists xs.
      by rewrite Hassoc.
Qed.
End collapsed.

Lemma sum_axis1_numeric sel cols :
  mapM as_num (columns sel).*2 = Some cols →
  sum_axis1 sel = Ok (NumCol (row_sums (nrows sel) cols)).
Proof. intros H. unfold sum_axis1. by rewrite H. Qed.

Lemma mean_axis1_numeric sel cols :
  mapM as_num (columns sel).*2 = Some cols →
  mean_axis1 sel = Ok (NumCol (row_means (nrows sel) cols)).
Proof. intros H. unfold mean_axis1. by rewrite H. Qed.

(** The sum along a row of no columns at all is zero in every row. *)
Lemma row_sums_nil n : row_sums n [] = replicate n 0%Qc.
Proof.
  unfold row_sums. rewrite (const_fmap _ _ 0%Qc); [by rewrite length_seq|done].
Qed.

Lemma effective_names (f : list string → list string) (supernodes : SupernodeMap) :
  (prod_map id f <$> supernodes).*1 = supernodes.*1.
Proof.
  induction supernodes as [|[s ch] l IH]; [done|].
  rewrite !fmap_cons. simpl. by rewrite IH.
Qed.

Lemma supernode_columns_names rows df eff : (supernode_columns rows df eff).*1 = eff.*1.
Proof.
  unfold supernode_columns. induction eff as [|p eff IH]; [done|].
  rewrite !fmap_cons. simpl. by rewrite IH.
Qed.

Lemma assoc_supernode_columns rows df eff s :
  assoc s (supernode_columns rows df eff) =
  (λ nodes, NumCol (rows (nrows df) (child_values df nodes))) <$> assoc s eff.
Proof.
  unfold supernode_columns. induction eff as [|[s0 n0] eff IH]; [done|].
  rewrite fmap_cons. simpl. by destruct (decide (s0 = s)).
Qed.

Lemma filter_labels_subseteq (nodes : list string) (cols : list (string * Series)) c :
  c ∈ (filter (λ q, q.1 ∉ nodes) cols).*1 → (c ∉ nodes) ∧ (c ∈ cols.*1).
Proof.
  intros (q & -> & [HP Hq]%list_elem_of_filter)%list_elem_of_fmap.
  split; [done|]. by apply list_elem_of_fmap_2.
Qed.

Lemma collapsed_lookup rows df eff s nodes :
  NoDup eff.*1 → (s, nodes) ∈ eff → s ∉ labels df →
  assoc s (columns (collapsed rows df eff)) =
    Some (NumCol (rows (nrows df) (child_values df nodes))).
Proof.
  intros Hnd Hin Hs. unfold collapsed; simpl. rewrite assoc_app.
  assert (assoc s (filter (λ q, q.1 ∉ concat eff.*2) (columns df)) = None) as ->.
  { apply assoc_None. intros Hl.
    apply filter_labels_subseteq in Hl as [_ Hl]. done. }
  rewrite assoc_supernode_columns, (assoc_elem s nodes eff Hnd Hin). done.
Qed.



(** Leaving out the supernodes with an empty list keeps the side conditions. *)
Lemma concat_filter_subseteq (P : string * list string → Prop)
    `{∀ x, Decision (P x)} (eff : list (string * list string)) c :
  c ∈ concat (filter P eff).*2 → c ∈ concat eff.*2.
Proof.
  induction eff as [|q eff IH]; [done|].
  rewrite filter_cons, (fmap_cons _ q).
  change (concat (q.2 :: eff.*2)) with (q.2 ++ concat eff.*2).
  rewrite elem_of_app. destruct (decide (P q)); [|by auto].
  rewrite fmap_cons.
  change (concat (q.2 :: (filter P eff).*2)) with (q.2 ++ concat (filter P eff).*2).
  rewrite elem_of_app. intros [?|?]; auto.
Qed.

Lemma pairwise_disjoint_filter (P : string * list string → Prop)
    `{∀ x, Decision (P x)} (eff : list (string * list string)) :
  pairwise_disjoint eff.*2 → pairwise_disjoint (filter P eff).*2.
Proof.
  induction eff as [|p eff IH]; [done|].
  rewrite fmap_cons. intros [Hp Hd]. rewrite filter_cons.
  destruct (decide (P p)); [|by apply IH].
  rewrite fmap_cons. split; [|by apply IH].
  intros c Hc Hin. apply (Hp c Hc). by eapply concat_filter_subseteq.
Qed.

(** What a horizontal sum returns on a table whose columns do not clash
    with the supernode names, with disjoint numeric child lists. *)
Lemma horizontal_sum_collapsed (w : World) (d : AliasTable) (supernodes : SupernodeMap) :
  let eff := prod_map id (HorizontalAggregationStrategy.effective d (frame w))
               <$> supernodes in
  files w !! alpha2_path = Some d →
  NoDup supernodes.*1 →
  (∀ s, s ∈ supernodes.*1 → s ∉ labels (frame w)) →
  pairwise_disjoint eff.*2 →
  (∀ c, c ∈ concat eff.*2 → numeric_in (frame w) c) →
  HorizontalAggregationStrategy.sum supernodes w =
    (Ok Caller,
     mkWorld (collapsed row_sums (frame w) eff) (files w) (opened w ++ [alpha2_path])).
Proof.
  intros eff Hd Hnd Hfresh Hdisj Hnum.
  pose proof (horizontal_sum_run supernodes w d Hd) as Hrun.
  cbv zeta in Hrun. fold eff in Hrun.
  rewrite (collapse_all_collapsed sum_axis1 row_sums sum_axis1_numeric) in Hrun;
    [done|..]; unfold eff; rewrite ?effective_names; done.
Qed.

Lemma horizontal_mean_collapsed (w : World) (d : AliasTable) (supernodes : SupernodeMap) :
  let eff := prod_map id (HorizontalAggregationStrategy.effective d (frame w))
               <$> supernodes in
  files w !! alpha2_path = Some d →
  NoDup supernodes.*1 →
  (∀ s, s ∈ supernodes.*1 → s ∉ labels (frame w)) →
  pairwise_disjoint eff.*2 →
  (∀ c, c ∈ concat eff.*2 → numeric_in (frame w) c) →
  HorizontalAggregationStrategy.mean supernodes w =
    (Ok Caller,
     mkWorld (collapsed row_means (frame w) (filter (λ p, length p.2 ≠ 0) eff))
       (files w) (opened w ++ [alpha2_path])).
Proof.
  intros eff Hd Hnd Hfresh Hdisj Hnum.
  pose proof (horizontal_mean_run supernodes w d Hd) as Hrun.
  cbv zeta in Hrun. fold eff in Hrun.
  assert (Hsub : (filter (λ p, length p.2 ≠ 0) eff).*1 `sublist_of` supernodes.*1).
  { rewrite <-(effective_names
                 (HorizontalAggregationStrategy.effective d (frame w)) supernodes).
    apply fmap_sublist, sublist_filter. }
  rewrite (collapse_all_collapsed mean_axis1 row_means mean_axis1_numeric) in Hrun.
  - done.
  - by eapply sublist_NoDup.
  - intros s Hs. apply Hfresh. by eapply elem_of_sublist.
  - by apply pairwise_disjoint_filter.
  - intros c Hc. by eapply Hnum, concat_filter_subseteq.
Qed.

(** ** C4: empty and non-empty effective child lists *)




(** ** Masks, first occurrences and groups *)

Lemma select_all {A} (mask : list bool) (xs : list A) :
  Forall (λ b, b = true) mask → length mask = length xs → select mask xs = xs.
Proof.
  revert xs. induction mask as [|b mask IH]; intros [|x xs] Hall Hlen; try done.
  apply Forall_cons in Hall as [-> Hall]. simpl. f_equal. apply IH; [done|].
  by injection Hlen.
Qed.

Lemma select_length {A B} (mask : list bool) (xs : list A) (ys : list B) :
  length xs = length ys → length (select mask xs) = length (select mask ys).
Proof.
  revert xs ys. induction mask as [|b mask IH]; intros [|x xs] [|y ys] Hlen; try done.
  injection Hlen as Hlen. destruct b; simpl; auto.
Qed.

Lemma select_fmap {A B} (f : A → B) (mask : list bool) (xs : list A) :
  select mask (f <$> xs) = f <$> select mask xs.
Proof.
  revert xs. induction mask as [|b mask IH]; intros [|x xs]; try done.
  rewrite fmap_cons. destruct b; simpl; by rewrite IH.
Qed.

Lemma select_zip_with {A B C} (f : A → B → C) (mask : list bool) xs ys :
  select mask (zip_with f xs ys) = zip_with f (select mask xs) (select mask ys).
Proof.
  revert xs ys. induction mask as [|b mask IH]; intros xs ys; [done|].
  destruct xs as [|x xs], ys as [|y ys]; simpl; try done.
  - destruct b; simpl; [done|]. by destruct (select mask xs).
  - destruct b; simpl; by rewrite IH.
Qed.

Lemma select_replicate {A} (mask : list bool) (x : A) :
  select mask (replicate (length mask) x) = replicate (length (select mask mask)) x.
Proof. induction mask as [|[] mask IH]; simpl; by rewrite ?IH. Qed.

Lemma Forall_select {A} (P : A → Prop) (mask : list bool) (xs : list A) :
  Forall P xs → Forall P (select mask xs).
Proof.
  intros Hall. revert mask. induction Hall as [|x xs Hx Hall IH]; intros mask.
  - destruct mask; constructor.
  - destruct mask as [|[] mask]; simpl; [constructor|constructor; auto|auto].
Qed.

Lemma first_seen_length {A} `{EqDecision A} (seen ks : list A) :
  length (first_seen seen ks) = length ks.
Proof.
  revert seen. induction ks as [|k ks IH]; intros seen; [done|].
  simpl. destruct (decide (k ∈ seen)); simpl; by rewrite IH.
Qed.

(** Keys that are all different are all first occurrences. *)
Lemma first_seen_NoDup {A} `{EqDecision A} (seen ks : list A) :
  NoDup ks → (∀ k, k ∈ ks → k ∉ seen) →
  Forall (λ b, b = true) (first_seen seen ks).
Proof.
  revert seen. induction ks as [|k ks IH]; intros seen Hnd Hseen; [done|].
  apply NoDup_cons in Hnd as [Hk Hnd]. simpl.
  rewrite decide_False by (apply Hseen; by left). constructor; [done|].
  apply IH; [done|]. intros k' Hk'. rewrite not_elem_of_cons. split.
  - by intros ->.
  - apply Hseen. by right.
Qed.

(** The first occurrences are pairwise different. *)
Lemma select_first_seen_NoDup {A} `{EqDecision A} (seen ks : list A) :
  NoDup (select (first_seen seen ks) ks)
  ∧ ∀ k, k ∈ select (first_seen seen ks) ks → k ∉ seen.
Proof.
  revert seen. induction ks as [|k ks IH]; intros seen.
  - split; [constructor|]. by intros k []%elem_of_nil.
  - simpl. destruct (decide (k ∈ seen)) as [Hin|Hn]; simpl.
    + apply IH.
    + destruct (IH (k :: seen)) as [Hnd Hfresh]. split.
      * apply NoDup_cons. split; [|done]. intros Hk. apply (Hfresh k Hk). by left.
      * intros k' [->|Hk']%elem_of_cons; [done|].
        intros Hs. apply (Hfresh k' Hk'). by right.
Qed.

Lemma select_member_mask_other {A B} `{EqDecision A} (g : A) (ks : list A) (xs : list B) :
  g ∉ ks → select (member_mask g ks) xs = [].
Proof.
  revert xs. induction ks as [|k ks IH]; intros [|x xs] Hg; try done.
  apply not_elem_of_cons in Hg as [Hne Hg]. unfold member_mask. rewrite fmap_cons.
  simpl. rewrite bool_decide_eq_false_2 by by intros ->. by apply IH.
Qed.

(** With one row per key every group is that one row. *)
Lemma reduce_groups_singletons {A K} `{EqDecision K} (f : list A → A)
    (ks : list K) (xs : list A) :
  (∀ x, f [x] = x) → NoDup ks → length xs = length ks →
  reduce_groups f ks xs = xs.
Proof.
  intros Hf Hnd Hlen. unfold reduce_groups.
  rewrite (select_all (first_seen [] ks) ks).
  2:{ apply first_seen_NoDup; [done|]. intros k _. apply not_elem_of_nil. }
  2:{ apply first_seen_length. }
  revert xs Hlen. induction Hnd as [|k ks Hk Hnd IH]; intros [|x xs] Hlen; try done.
  injection Hlen as Hlen. rewrite fmap_cons. f_equal.
  - unfold member_mask. rewrite fmap_cons. simpl. rewrite bool_decide_eq_true_2 by done.
    fold (member_mask k ks). by rewrite select_member_mask_other, Hf.
  - etrans; [|exact (IH xs Hlen)]. apply Forall_fmap_ext_1, Forall_forall.
    intros g Hg. unfold member_mask. rewrite fmap_cons. simpl.
    rewrite bool_decide_eq_false_2; [done|]. by intros ->.
Qed.

Lemma reduce_groups_length {A B K} `{EqDecision K} (f : list A → B) (ks : list K) xs :
  length (reduce_groups f ks xs) = length (select (first_seen [] ks) ks).
Proof. unfold reduce_groups. by rewrite length_fmap. Qed.

Lemma qsum_singleton x : qsum [x] = x.
Proof. unfold qsum. simpl. ring. Qed.

Lemma qmean_singleton x : qmean [x] = x.
Proof.
  unfold qmean. rewrite qsum_singleton.
  change (num (Z.of_nat (length [x]))) with (num 1).
  replace (num 1) with 1%Qc by (apply Qc_is_canon; reflexivity).
  transitivity ((x * 1) / 1)%Qc; [by rewrite Qcmult_1_r|].
  by apply Qcdiv_mult_l.
Qed.

Lemma sconcat_singleton x : sconcat [x] = x.
Proof.
  unfold sconcat. simpl. induction x as [|a x IH]; [reflexivity|].
  change (String a x +:+ "") with (String a (x +:+ "")). by rewrite IH.
Qed.

(** ** Grouping a table that has one row per key *)

Lemma fmap_id_Forall {A} (f : A → A) (l : list A) :
  Forall (λ x, f x = x) l → f <$> l = l.
Proof. induction 1 as [|x l Hx Hall IH]; [done|]. by rewrite fmap_cons, Hx, IH. Qed.

Lemma cells_length s : length (cells s) = series_len s.
Proof. destruct s; simpl; by rewrite length_fmap. Qed.

Lemma series_select_all mask s :
  Forall (λ b, b = true) mask → length mask = series_len s → series_select mask s = s.
Proof. intros. destruct s; simpl in *; by rewrite select_all. Qed.

Lemma cells_series_select mask s : cells (series_select mask s) = select mask (cells s).
Proof. destruct s; simpl; by rewrite select_fmap. Qed.

Lemma series_len_select mask s :
  length mask = series_len s →
  series_len (series_select mask s) = length (select mask mask).
Proof. intros H. destruct s; simpl in *; by apply select_length. Qed.

Lemma series_ne_select mask a b :
  series_ne (series_select mask a) (series_select mask b) = select mask (series_ne a b).
Proof. unfold series_ne. by rewrite !cells_series_select, select_zip_with. Qed.

Lemma series_ne_length a b n :
  series_len a = n → series_len b = n → length (series_ne a b) = n.
Proof.
  intros Ha Hb. unfold series_ne. rewrite length_zip_with, !cells_length. lia.
Qed.

Lemma select_self_true mask : Forall (λ b, b = true) (select mask mask).
Proof. induction mask as [|[] mask IH]; simpl; auto. Qed.

Lemma row_keys_length n keys :
  Forall (λ k, series_len k = n) keys → length (row_keys n keys) = n.
Proof.
  induction 1 as [|k keys Hk Hall IH]; simpl.
  - by rewrite length_replicate.
  - rewrite length_zip_with, cells_length. lia.
Qed.

Lemma row_keys_select mask keys :
  Forall (λ k, series_len k = length mask) keys →
  row_keys (length (select mask mask)) (series_select mask <$> keys) =
  select mask (row_keys (length mask) keys).
Proof.
  induction 1 as [|k keys Hk Hall IH].
  - simpl. by rewrite select_replicate.
  - rewrite fmap_cons. simpl. by rewrite IH, cells_series_select, select_zip_with.
Qed.

Lemma omap_id {A} (F : A → option A) (l : list A) :
  Forall (λ p, F p = Some p) l → omap F l = l.
Proof.
  induction 1 as [|p l Hp Hall IH]; simpl; [done|]. rewrite Hp. f_equal. exact IH.
Qed.

Lemma assoc_zip_lookup {A} (names : list string) (keys vals : list A) rest i g k :
  NoDup names → names !! i = Some g → keys !! i = Some k →
  assoc g (zip names keys ++ rest) = Some k.
Proof.
  intros Hnd. revert keys i. induction Hnd as [|g' names Hg' Hnd IH];
    intros [|k' keys] [|i]; simpl; try done.
  - intros [= ->] [= ->]. by rewrite decide_True.
  - intros Hg Hk. rewrite decide_False; [by eapply IH|].
    intros ->. apply Hg'. by eapply list_elem_of_lookup_2.
Qed.

Lemma key_columns_Forall2 df names keys :
  Forall2 (λ g k, frame_getitem df g = Ok k) names keys →
  key_columns df names = Ok keys.
Proof. induction 1 as [|g k names keys Hg Hall IH]; simpl; [done|]. by rewrite Hg, IH. Qed.

Lemma key_columns_inv df names keys :
  key_columns df names = Ok keys →
  Forall2 (λ g k, frame_getitem df g = Ok k) names keys.
Proof.
  revert keys. induction names as [|g names IH]; simpl; intros keys.
  - intros [= <-]. constructor.
  - destruct (frame_getitem df g) as [k|e] eqn:Hg; simpl; [|done].
    destruct (key_columns df names) as [ks|e]; simpl; [|done].
    intros [= <-]. constructor; auto.
Qed.

Lemma zip_labels_elem {A} (names : list string) (keys : list A) p :
  p ∈ zip names keys → p.1 ∈ names.
Proof.
  revert keys. induction names as [|g names IH]; intros [|k keys]; simpl;
    try by intros []%elem_of_nil.
  rewrite !elem_of_cons. intros [->|H]; [by left|right; by eapply IH].
Qed.

Lemma filter_none {A} (P : A → Prop) `{∀ x, Decision (P x)} (l : list A) :
  Forall (λ x, ¬ P x) l → filter P l = [].
Proof.
  induction 1 as [|x l Hx Hall IH]; [done|]. by rewrite filter_cons, decide_False.
Qed.

Lemma filter_all {A} (P : A → Prop) `{∀ x, Decision (P x)} (l : list A) :
  Forall P l → filter P l = l.
Proof.
  induction 1 as [|x l Hx Hall IH]; [done|].
  rewrite filter_cons, decide_True by done. by rewrite IH.
Qed.

Lemma filter_value_columns (names : list string) (keys : list Series)
    (vals : list (string * Series)) :
  Forall (λ p, p.1 ∉ names) vals →
  filter (λ p, p.1 ∉ names) (zip names keys ++ vals) = vals.
Proof.
  intros Hvals. rewrite filter_app, filter_none, filter_all; [done..|].
  apply Forall_forall. intros p Hp Hn. by apply Hn, (zip_labels_elem names keys).
Qed.

Lemma apply_map_supernode_resolved supernodes k :
  (∀ x, CStr x ∈ cells k → map_supernode x supernodes = x) →
  apply_map_supernode supernodes k = k.
Proof.
  destruct k as [xs|xs]; simpl; [done|]. intros H. f_equal.
  apply fmap_id_Forall, Forall_forall.
  intros x Hx. apply H. by apply list_elem_of_fmap_2.
Qed.

Lemma apply_map_supernode_len supernodes k :
  series_len (apply_map_supernode supernodes k) = series_len k.
Proof. destruct k; simpl; by rewrite ?length_fmap. Qed.

Lemma frame_setitem_id df c s : frame_getitem df c = Ok s → frame_setitem df c s = df.
Proof.
  intros H%frame_getitem_Ok. unfold frame_setitem. rewrite assoc_set_id by done.
  by destruct df.
Qed.

Lemma set_frame_id w : set_frame (frame w) w = w.
Proof. by destruct w. Qed.

Lemma wf_frame_getitem df c s : wf_frame df → frame_getitem df c = Ok s → series_len s = nrows df.
Proof.
  intros Hwf H%frame_getitem_Ok. unfold wf_frame in Hwf. rewrite Forall_forall in Hwf.
  revert H. generalize (columns df) Hwf. intros cols. induction cols as [|[c0 s0] cols IH];
    simpl; intros Hall; [done|].
  destruct (decide (c0 = c)) as [->|Hne].
  - intros [= <-]. apply (Hall (c, s0)). by left.
  - apply IH. intros p Hp. apply Hall. by right.
Qed.

Lemma frame_getitem_mask_all df mask :
  wf_frame df → Forall (λ b, b = true) mask → length mask = nrows df →
  frame_getitem_mask df mask = df.
Proof.
  intros Hwf Hall Hlen. unfold frame_getitem_mask.
  rewrite (select_all mask mask Hall eq_refl), Hlen.
  destruct df as [n cols]; simpl in *. f_equal.
  apply fmap_id_Forall.
  eapply Forall_impl; [exact Hwf|]. intros [c s] Hs; simpl in *.
  unfold prod_map; simpl. f_equal. apply series_select_all; [done|]. by rewrite Hlen.
Qed.

Lemma zip_values_elem {A} (names : list string) (keys : list A) p :
  p ∈ zip names keys → p.2 ∈ keys.
Proof.
  revert keys. induction names as [|g names IH]; intros [|k keys]; simpl;
    try by intros []%elem_of_nil.
  rewrite !elem_of_cons. intros [->|H]; [by left|right; by eapply IH].
Qed.

Lemma aggregated_wf df names keys (vals : list (string * Series)) (Q : string * Series → Prop) :
  columns df = zip names keys ++ vals →
  Forall (λ k, series_len k = nrows df) keys →
  Forall (λ p, Q p ∧ series_len p.2 = nrows df) vals →
  wf_frame df.
Proof.
  intros Hcols Hkeys Hvals. unfold wf_frame. rewrite Hcols. apply Forall_app. split.
  - apply Forall_forall. intros p Hp%zip_values_elem.
    rewrite Forall_forall in Hkeys. by apply Hkeys.
  - eapply Forall_impl; [exact Hvals|]. by intros p [_ ?].
Qed.

(** On a table in aggregated form whose keys resolve to themselves,
    [aggregate] writes nothing new and groups the table as it is. *)
Lemma aggregate_on_aggregated self supernodes w numeric keys vals :
  NoDup (VerticalAggregationStrategy.group_by_cols self) →
  VerticalAggregationStrategy.group_by_cols self ≠ [] →
  columns (frame w) = zip (VerticalAggregationStrategy.group_by_cols self) keys ++ vals →
  length keys = length (VerticalAggregationStrategy.group_by_cols self) →
  Forall (λ k, series_len k = nrows (frame w)) keys →
  Forall (λ p, (p.1 ∉ VerticalAggregationStrategy.group_by_cols self)
               ∧ series_len p.2 = nrows (frame w)
               ∧ (numeric = true → as_num p.2 ≠ None)) vals →
  (VerticalAggregationStrategy.transmission self = true →
   ∃ k0 k1 rest, keys = k0 :: k1 :: rest
                 ∧ Forall (λ b, b = true) (series_ne k0 k1)) →
  keys_resolved self supernodes (frame w) →
  VerticalAggregationStrategy.aggregate self supernodes w =
    (Ok (mkGroupBy (frame w) (VerticalAggregationStrategy.group_by_cols self) keys), w).
Proof.
  intros Hnd Hne Hcols Hlen Hklen Hvals Htr Hres.
  assert (Hwf : wf_frame (frame w)).
  { eapply (aggregated_wf _ _ _ _ (λ _, True)); [exact Hcols|exact Hklen|].
    eapply Forall_impl; [exact Hvals|]. by intros p (_ & ? & _). }
  assert (Hget : ∀ i g k,
            VerticalAggregationStrategy.group_by_cols self !! i = Some g →
            keys !! i = Some k → frame_getitem (frame w) g = Ok k).
  { intros i g k Hg Hk. apply frame_getitem_Ok. rewrite Hcols.
    by eapply assoc_zip_lookup. }
  assert (Hkeys : key_columns (frame w) (VerticalAggregationStrategy.group_by_cols self)
                  = Ok keys).
  { apply key_columns_Forall2, Forall2_same_length_lookup_2; [done|].
    intros i g k Hg Hk. by eapply Hget. }
  unfold keys_resolved in Hres.
  unfold VerticalAggregationStrategy.aggregate.
  destruct (VerticalAggregationStrategy.group_by_cols self) as [|g0 rest]; [done|].
  destruct keys as [|k0 keys']; [done|].
  assert (Hg0 : frame_getitem (frame w) g0 = Ok k0) by by apply (Hget 0).
  assert (Hfix0 : apply_map_supernode supernodes k0 = k0).
  { apply apply_map_supernode_resolved. intros x Hx. apply (Hres g0 k0 x); [|done..].
    destruct (VerticalAggregationStrategy.transmission self); by left. }
  unfold bind, lift, py_index, data_getitem, data_setitem, load, ret; simpl.
  rewrite Hg0; simpl. rewrite Hfix0, (frame_setitem_id _ _ _ Hg0), set_frame_id.
  destruct (VerticalAggregationStrategy.transmission self) eqn:Htrans; simpl.
  - destruct (Htr eq_refl) as (k0' & k1 & rest' & [= <- ->] & Hall).
    destruct rest as [|g1 rest2]; [done|].
    assert (Hg1 : frame_getitem (frame w) g1 = Ok k1) by by apply (Hget 1).
    assert (Hfix1 : apply_map_supernode supernodes k1 = k1).
    { apply apply_map_supernode_resolved. intros x Hx. apply (Hres g1 k1 x); [|done..].
      right; by left. }
    simpl. rewrite Hg1; simpl.
    rewrite Hfix1, (frame_setitem_id _ _ _ Hg1), set_frame_id.
    rewrite Hg0, Hg1; simpl.
    rewrite frame_getitem_mask_all; [|done|done|].
    + unfold groupby. by rewrite Hkeys.
    + apply series_ne_length; by eapply wf_frame_getitem.
  - unfold groupby. by rewrite Hkeys.
Qed.

Lemma gb_sum_on_aggregated numeric_only numeric df names keys vals :
  columns df = zip names keys ++ vals →
  Forall (λ k, series_len k = nrows df) keys →
  Forall (λ p, (p.1 ∉ names) ∧ series_len p.2 = nrows df
               ∧ (numeric = true → as_num p.2 ≠ None)) vals →
  NoDup (row_keys (nrows df) keys) →
  (numeric_only = true → numeric = true) →
  gb_sum numeric_only (mkGroupBy df names keys) = df.
Proof.
  intros Hcols Hklen Hvals Hnd Hnum.
  pose proof (row_keys_length _ _ Hklen) as Hrk.
  assert (Hfs : Forall (λ b, b = true) (first_seen [] (row_keys (nrows df) keys))).
  { apply first_seen_NoDup; [done|]. intros k _. apply not_elem_of_nil. }
  assert (Hfl : length (first_seen [] (row_keys (nrows df) keys)) = nrows df).
  { by rewrite first_seen_length. }
  unfold gb_sum, gb_ngroups, gb_key_columns, gb_value_columns, gb_row_keys; simpl.
  rewrite (select_all _ (row_keys (nrows df) keys)) by (done || congruence).
  rewrite Hrk, Hcols, filter_value_columns.
  2:{ eapply Forall_impl; [exact Hvals|]. by intros p [? _]. }
  destruct df as [n cols]; simpl in *. subst cols. f_equal. f_equal.
  - f_equal. apply fmap_id_Forall.
    eapply Forall_impl; [exact Hklen|]. intros k Hk. simpl.
    apply series_select_all; [done|congruence].
  - apply omap_id. eapply Forall_impl; [exact Hvals|].
    intros [c [xs|xs]] (_ & Hl & Hn); simpl in *.
    + by rewrite reduce_groups_singletons by (auto using qsum_singleton || congruence).
    + destruct numeric_only; [by destruct (Hn (Hnum eq_refl))|].
      by rewrite reduce_groups_singletons by (auto using sconcat_singleton || congruence).
Qed.

Lemma gb_mean_on_aggregated numeric_only df names keys vals :
  columns df = zip names keys ++ vals →
  Forall (λ k, series_len k = nrows df) keys →
  Forall (λ p, (p.1 ∉ names) ∧ series_len p.2 = nrows df
               ∧ (true = true → as_num p.2 ≠ None)) vals →
  NoDup (row_keys (nrows df) keys) →
  gb_mean numeric_only (mkGroupBy df names keys) = Ok df.
Proof.
  intros Hcols Hklen Hvals Hnd.
  pose proof (row_keys_length _ _ Hklen) as Hrk.
  assert (Hfs : Forall (λ b, b = true) (first_seen [] (row_keys (nrows df) keys))).
  { apply first_seen_NoDup; [done|]. intros k _. apply not_elem_of_nil. }
  assert (Hfl : length (first_seen [] (row_keys (nrows df) keys)) = nrows df).
  { by rewrite first_seen_length. }
  unfold gb_mean, gb_ngroups, gb_key_columns, gb_value_columns, gb_row_keys; simpl.
  rewrite (select_all _ (row_keys (nrows df) keys)) by (done || congruence).
  rewrite Hrk, Hcols, filter_value_columns.
  2:{ eapply Forall_impl; [exact Hvals|]. by intros p [? _]. }
  rewrite bool_decide_eq_false_2.
  2:{ intros [_ Hex]. apply Exists_exists in Hex as (p & Hp & Hnone).
      rewrite Forall_forall in Hvals. by destruct (Hvals p Hp) as (_ & _ & Hn); apply Hn. }
  destruct df as [n cols]; simpl in *. subst cols. f_equal. f_equal. f_equal.
  - f_equal. apply fmap_id_Forall.
    eapply Forall_impl; [exact Hklen|]. intros k Hk. simpl.
    apply series_select_all; [done|congruence].
  - apply omap_id. eapply Forall_impl; [exact Hvals|].
    intros [c [xs|xs]] (_ & Hl & Hn); simpl in *.
    + by rewrite reduce_groups_singletons by (auto using qmean_singleton || congruence).
    + by destruct (Hn eq_refl).
Qed.

(** ** The shape of what a vertical reduction returns *)

Lemma wf_frame_setitem df c s :
  wf_frame df → series_len s = nrows df → wf_frame (frame_setitem df c s).
Proof.
  unfold wf_frame, frame_setitem; simpl. intros Hwf Hs.
  induction Hwf as [|[c0 s0] cols Hc Hall IH]; simpl.
  - by constructor.
  - destruct (decide (c0 = c)); constructor; auto.
Qed.

Lemma wf_frame_getitem_mask df mask :
  wf_frame df → length mask = nrows df → wf_frame (frame_getitem_mask df mask).
Proof.
  unfold wf_frame, frame_getitem_mask; simpl. intros Hwf Hlen.
  apply Forall_fmap. eapply Forall_impl; [exact Hwf|].
  intros [c s] Hs; simpl in *. apply series_len_select. congruence.
Qed.

Lemma key_columns_len df names keys :
  wf_frame df → key_columns df names = Ok keys →
  Forall (λ k, series_len k = nrows df) keys.
Proof.
  intros Hwf H%key_columns_inv.
  induction H as [|g k names keys Hg Hall IH]; constructor; [|done].
  by eapply wf_frame_getitem.
Qed.

Lemma elem_of_omap_inv {A B} (F : A → option B) (l : list A) q :
  q ∈ omap F l → ∃ p, p ∈ l ∧ F p = Some q.
Proof.
  induction l as [|p l IH]; simpl; [by intros []%elem_of_nil|].
  destruct (F p) as [q'|] eqn:E.
  - intros [->|H]%elem_of_cons.
    + exists p. split; [by left|done].
    + destruct (IH H) as (p' & ? & ?). exists p'. split; [by right|done].
  - intros H. destruct (IH H) as (p' & ? & ?). exists p'. split; [by right|done].
Qed.

(** Whatever the reduction writes into the value columns, one cell per
    group, the result has the aggregated shape. *)
Lemma reduction_aggregated tr numeric gb (F : string * Series → option (string * Series)) :
  grouped tr gb →
  (∀ p q, F p = Some q →
     q.1 = p.1 ∧ series_len q.2 = gb_ngroups gb ∧ (numeric = true → as_num q.2 ≠ None)) →
  aggregated (gb_by gb) numeric tr
    (mkDF (gb_ngroups gb) (gb_key_columns gb ++ omap F (gb_value_columns gb))).
Proof.
  intros (Hwf & Hkeys & Htr) HF.
  pose proof (key_columns_len _ _ _ Hwf Hkeys) as Hklen.
  pose proof (row_keys_length _ _ Hklen) as Hrk.
  set (fs := first_seen [] (gb_row_keys gb)).
  assert (Hfl : length fs = nrows (gb_obj gb)).
  { unfold fs. by rewrite first_seen_length. }
  assert (Hng : gb_ngroups gb = length (select fs fs)).
  { unfold gb_ngroups. fold fs. apply select_length. unfold gb_row_keys. congruence. }
  exists (series_select fs <$> gb_keys gb), (omap F (gb_value_columns gb)).
  simpl. split_and!.
  - done.
  - rewrite length_fmap. symmetry. eapply Forall2_length, key_columns_inv, Hkeys.
  - apply Forall_fmap. eapply Forall_impl; [exact Hklen|].
    intros k Hk. simpl. rewrite Hng. apply series_len_select. congruence.
  - apply Forall_forall. intros q (p & Hp & Hq)%elem_of_omap_inv.
    destruct (HF p q Hq) as (-> & Hlen & Hnum).
    apply list_elem_of_filter in Hp as [Hn _]. done.
  - rewrite Hng, row_keys_select.
    + rewrite Hfl. apply select_first_seen_NoDup.
    + eapply Forall_impl; [exact Hklen|]. intros k Hk. simpl. congruence.
  - intros Ht. destruct (Htr Ht) as (k0 & k1 & rest & -> & Hall).
    exists (series_select fs k0), (series_select fs k1), (series_select fs <$> rest).
    split; [done|]. rewrite series_ne_select. by apply Forall_select.
Qed.

Lemma gb_sum_aggregated tr numeric_only gb :
  grouped tr gb → aggregated (gb_by gb) numeric_only tr (gb_sum numeric_only gb).
Proof.
  intros Hg. unfold gb_sum. apply reduction_aggregated; [done|].
  intros [c [xs|xs]] q; simpl.
  - intros [= <-]. simpl. by rewrite reduce_groups_length.
  - destruct numeric_only; [done|]. intros [= <-]. simpl.
    by rewrite reduce_groups_length.
Qed.

Lemma gb_mean_aggregated tr numeric_only gb out :
  grouped tr gb → gb_mean numeric_only gb = Ok out → aggregated (gb_by gb) true tr out.
Proof.
  intros Hg. unfold gb_mean. destruct (bool_decide _); [done|]. intros [= <-].
  apply reduction_aggregated; [done|].
  intros [c [xs|xs]] q; simpl; [|done].
  intros [= <-]. simpl. by rewrite reduce_groups_length.
Qed.

(** A call of [aggregate] that returns, returns such a grouping. *)
Lemma aggregate_grouped self supernodes w gb w' :
  VerticalAggregationStrategy.aggregate self supernodes w = (Ok gb, w') →
  wf_frame (frame w) →
  grouped (VerticalAggregationStrategy.transmission self) gb
  ∧ gb_by gb = VerticalAggregationStrategy.group_by_cols self
  ∧ VerticalAggregationStrategy.group_by_cols self ≠ [].
Proof.
  unfold VerticalAggregationStrategy.aggregate. intros Hrun Hwf.
  destruct (VerticalAggregationStrategy.group_by_cols self) as [|g0 rest]; [done|].
  unfold bind, lift, py_index, data_getitem, data_setitem, load, ret in Hrun;
    simpl in Hrun.
  destruct (frame_getitem (frame w) g0) as [a|e] eqn:Ha; simpl in Hrun; [|done].
  set (df1 := frame_setitem (frame w) g0 (apply_map_supernode supernodes a)) in *.
  assert (Hwf1 : wf_frame df1).
  { apply wf_frame_setitem; [done|]. rewrite apply_map_supernode_len.
    by eapply wf_frame_getitem. }
  destruct (VerticalAggregationStrategy.transmission self); simpl in Hrun.
  - destruct rest as [|g1 rest]; simpl in Hrun; [done|].
    destruct (frame_getitem df1 g1) as [b|e] eqn:Hb; simpl in Hrun; [|done].
    set (df2 := frame_setitem df1 g1 (apply_map_supernode supernodes b)) in *.
    assert (Hwf2 : wf_frame df2).
    { apply wf_frame_setitem; [done|]. rewrite apply_map_supernode_len.
      by eapply wf_frame_getitem. }
    destruct (frame_getitem df2 g0) as [a2|e] eqn:Ha2; simpl in Hrun; [|done].
    destruct (frame_getitem df2 g1) as [b2|e] eqn:Hb2; simpl in Hrun; [|done].
    set (mask := series_ne a2 b2) in *.
    unfold groupby in Hrun.
    destruct (key_columns _ (g0 :: g1 :: rest)) as [keys|e] eqn:Hk; simpl in Hrun;
      [|done].
    injection Hrun as <- <-. split_and!; [|done..]. split_and!; simpl.
    + apply wf_frame_getitem_mask; [done|].
      apply series_ne_length; by eapply wf_frame_getitem.
    + done.
    + intros _. simpl in Hk.
      rewrite (frame_getitem_mask_Ok _ _ _ _ Ha2), (frame_getitem_mask_Ok _ _ _ _ Hb2)
        in Hk. simpl in Hk.
      destruct (key_columns _ rest) as [ks|e]; simpl in Hk; [|done].
      injection Hk as <-. eexists _, _, _. split; [done|].
      rewrite series_ne_select. apply select_self_true.
  - unfold groupby in Hrun.
    destruct (key_columns df1 (g0 :: rest)) as [keys|e] eqn:Hk; simpl in Hrun; [|done].
    injection Hrun as <- <-. split_and!; [|done..]. by split_and!.
Qed.

(** ** C9: aggregating an aggregated table again *)

(** C9 as the claim states it fails.  With [X] listed as a child of [Y], the
    sum of [ex_chain] has the keys [X] and [Y], which are exactly the
    supernode names; summing that output again folds its two rows into
    one. *)
Lemma chained_supernodes_regroup :
  let self := VerticalAggregationStrategy.mk ["k"] (Some "v") false in
  let supernodes := [("X", ["A"]); ("Y", ["X"])] in
  let out := mkDF 2 [("k", ObjCol ["X"; "Y"]); ("v", NumCol [num 1; num 2])] in
  (VerticalAggregationStrategy.sum self supernodes (world_with ∅ ex_chain)).1
    = Ok (Value out)
  ∧ supernodes.*1 ⊆ ["X"; "Y"]
  ∧ (VerticalAggregationStrategy.sum self supernodes (world_with ∅ out)).1
    = Ok (Value (mkDF 1 [("k", ObjCol ["Y"]); ("v", NumCol [num 3])]))
  ∧ (VerticalAggregationStrategy.sum self supernodes (world_with ∅ out)).1
    ≠ Ok (Value out).
Proof.
  split_and!.
  - apply (bool_decide_unpack _). vm_compute. exact I.
  - done.
  - apply (bool_decide_unpack _). vm_compute. exact I.
  - apply (bool_decide_unpack _). vm_compute. exact I.
Qed.

(** C9, amended.  Take the table [out] that a vertical sum (resp. mean)
    returned for a well-formed table under distinct grouping labels, and
    suppose every cell of its remapped key columns resolves to itself under
    the supernode map, that is, no key of [out] is listed as a child of a
    supernode of another name.  Then the same sum (resp. mean) run on [out]
    returns [out] again, every group being one row, and leaves the table it
    was given as it is. *)
Theorem vertical_reaggregation_noop
    (self : VerticalAggregationStrategy.t) (supernodes : SupernodeMap) (w0 : World) :
  NoDup (VerticalAggregationStrategy.group_by_cols self) →
  wf_frame (frame w0) →
  (∀ out w1 w,
     VerticalAggregationStrategy.sum self supernodes w0 = (Ok (Value out), w1) →
     frame w = out →
     keys_resolved self supernodes out →
     VerticalAggregationStrategy.sum self supernodes w = (Ok (Value out), w))
  ∧ (∀ out w1 w,
     VerticalAggregationStrategy.mean self supernodes w0 = (Ok (Value out), w1) →
     frame w = out →
     keys_resolved self supernodes out →
     VerticalAggregationStrategy.mean self supernodes w = (Ok (Value out), w)).
Proof.
  intros Hnd Hwf. split.
  - intros out w1 w Hrun Hw Hres.
    unfold VerticalAggregationStrategy.sum, bind, ret in Hrun.
    destruct (VerticalAggregationStrategy.aggregate self supernodes w0)
      as [[gb|e] w1'] eqn:Hagg; [|done].
    injection Hrun as Hout _.
    destruct (aggregate_grouped _ _ _ _ _ Hagg Hwf) as (Hg & Hby & Hne).
    pose proof (gb_sum_aggregated _ (truthy (VerticalAggregationStrategy.agg_col self))
                  gb Hg) as Hshape.
    rewrite Hout, Hby in Hshape. clear Hout.
    destruct Hshape as (keys & vals & Hcols & Hlen & Hklen & Hvals & Hrk & Htr).
    subst out.
    unfold VerticalAggregationStrategy.sum, bind, ret.
    rewrite (aggregate_on_aggregated self supernodes w
               (truthy (VerticalAggregationStrategy.agg_col self)) keys vals); try done.
    by rewrite (gb_sum_on_aggregated _
                  (truthy (VerticalAggregationStrategy.agg_col self)) _ _ keys vals).
  - intros out w1 w Hrun Hw Hres.
    unfold VerticalAggregationStrategy.mean, bind, lift, ret in Hrun.
    destruct (VerticalAggregationStrategy.aggregate self supernodes w0)
      as [[gb|e] w1'] eqn:Hagg; [|done].
    destruct (gb_mean _ gb) as [r|e] eqn:Hmean; [|done].
    injection Hrun as Hout _.
    destruct (aggregate_grouped _ _ _ _ _ Hagg Hwf) as (Hg & Hby & Hne).
    pose proof (gb_mean_aggregated _ _ gb r Hg Hmean) as Hshape.
    rewrite Hout, Hby in Hshape. clear Hout.
    destruct Hshape as (keys & vals & Hcols & Hlen & Hklen & Hvals & Hrk & Htr).
    subst out.
    unfold VerticalAggregationStrategy.mean, bind, lift, ret.
    rewrite (aggregate_on_aggregated self supernodes w true keys vals); try done.
    by rewrite (gb_mean_on_aggregated _ _ _ keys vals).
Qed.

Lemma vertical_reaggregation_noop_witness :
  let self := VerticalAggregationStrategy.mk ["k"] (Some "v") false in
  let out := mkDF 1 [("k", ObjCol ["X"]); ("v", NumCol [num 6])] in
  VerticalAggregationStrategy.sum self [("X", ["A"; "B"])] (world_with ∅ out)
  = (Ok (Value out), world_with ∅ out).
Proof.
  intros self out.
  apply (proj1 (vertical_reaggregation_noop self [("X", ["A"; "B"])]
                  (world_with ∅ ex_rows) ltac:(apply (bool_decide_unpack _); vm_compute; exact I)
                  ltac:(repeat constructor))
           out (world_with ∅ (mkDF 3 [("k", ObjCol ["X"; "X"; "X"]);
                                       ("v", NumCol [num 1; num 2; num 3])]))).
  - vm_compute. reflexivity.
  - reflexivity.
  - intros g k x Hg Hk Hx. simpl in Hg. apply list_elem_of_singleton in Hg as ->.
    vm_compute in Hk. injection Hk as <-. simpl in Hx.
    apply list_elem_of_singleton in Hx. injection Hx as ->. reflexivity.
Defined.

(** ** C1: which columns a vertical sum reduces *)

Lemma assoc_filter_Some {A} c (names : list string) (cols : list (string * A)) x :
  assoc c (filter (λ q, q.1 ∉ names) cols) = Some x → c ∉ names.
Proof.
  induction cols as [|[c0 s0] cols IH]; [done|].
  rewrite filter_cons. simpl. destruct (decide (c0 ∉ names)) as [Hn|Hn]; [|done].
  simpl. by destruct (decide (c0 = c)) as [<-|].
Qed.

Lemma assoc_omap_first {A B} (F : string * A → option (string * B)) c cols x y :
  (∀ p q, F p = Some q → q.1 = p.1) →
  assoc c cols = Some x → F (c, x) = Some (c, y) →
  assoc c (omap F cols) = Some y.
Proof.
  intros HF. induction cols as [|[c0 s0] cols IH]; simpl; [done|].
  destruct (decide (c0 = c)) as [->|Hne].
  - intros [= ->] ->. simpl. by rewrite decide_True.
  - intros Hc Hy. destruct (F (c0, s0)) as [[c1 s1]|] eqn:E; [|by apply IH].
    simpl. apply HF in E. simpl in E. subst c1. rewrite decide_False by done.
    by apply IH.
Qed.

(** What does hold of the named column: when it is a numeric value column,
    the result carries it, with the total of each group. *)
Lemma gb_sum_named_column numeric_only gb agg_col xs :
  assoc agg_col (gb_value_columns gb) = Some (NumCol xs) →
  assoc agg_col (columns (gb_sum numeric_only gb)) =
    Some (NumCol (reduce_groups qsum (gb_row_keys gb) xs)).
Proof.
  intros Hv. unfold gb_sum; simpl. rewrite assoc_app.
  assert (assoc agg_col (gb_key_columns gb) = None) as ->.
  { apply assoc_None. intros (p & -> & Hp)%list_elem_of_fmap.
    apply zip_labels_elem in Hp. by apply assoc_filter_Some in Hv. }
  eapply assoc_omap_first; [|exact Hv|done].
  intros [c [ys|ys]] q; simpl.
  - by intros [= <-].
  - destruct numeric_only; [done|]. by intros [= <-].
Qed.

(** Where the named numeric column is the only value column, the code and
    the reduction of exactly that column agree. *)
Lemma vertical_sum_single_value_column agg_col xs gb :
  gb_value_columns gb = [(agg_col, NumCol xs)] →
  ∀ numeric_only, Ok (gb_sum numeric_only gb) = spec_sum_named_column agg_col gb.
Proof.
  intros Hv numeric_only. unfold gb_sum, spec_sum_named_column. rewrite Hv. simpl.
  by rewrite decide_True.
Qed.

(** C1 on a table with a second numeric column.  [sum] and [mean] hand
    [agg_col] to pandas in the position of [numeric_only], so the name only
    counts as a true value: every numeric column that is not a key is
    reduced, here [w] next to the named [v], where the reduction of exactly
    the named column gives the keys and [v] alone. *)
Theorem vertical_sum_reduces_every_numeric_column :
  let self := VerticalAggregationStrategy.mk ["k"] (Some "v") false in
  let gb := mkGroupBy ex_measures ["k"] [ObjCol ["A"; "A"; "B"]] in
  (VerticalAggregationStrategy.aggregate self [] (world_with ∅ ex_measures)).1 = Ok gb
  ∧ (VerticalAggregationStrategy.sum self [] (world_with ∅ ex_measures)).1
    = Ok (Value (mkDF 2 [("k", ObjCol ["A"; "B"]); ("v", NumCol [num 3; num 3]);
                         ("w", NumCol [num 30; num 30])]))
  ∧ (VerticalAggregationStrategy.mean self [] (world_with ∅ ex_measures)).1
    = Ok (Value (mkDF 2 [("k", ObjCol ["A"; "B"]);
                         ("v", NumCol [(num 3 / num 2)%Qc; num 3]);
                         ("w", NumCol [num 15; num 30])]))
  ∧ spec_sum_named_column "v" gb
    = Ok (mkDF 2 [("k", ObjCol ["A"; "B"]); ("v", NumCol [num 3; num 3])]).
Proof.
  split_and!; apply (bool_decide_unpack _); vm_compute; exact I.
Qed.

(** * Further properties of the strategies *)

(** ** The supernode mapper *)

Lemma map_supernode_cases node supernodes :
  map_supernode node supernodes = node
  ∨ ∃ ch, (map_supernode node supernodes, ch) ∈ supernodes ∧ node ∈ ch.
Proof.
  induction supernodes as [|[s ch] rest IH]; simpl; [by left|].
  destruct (bool_decide (node ∈ ch)) eqn:E.
  - right. exists ch. split; [by left|]. by apply bool_decide_eq_true in E.
  - destruct IH as [?|(ch' & Hin & Hn)]; [by left|].
    right. exists ch'. split; [by right|done].
Qed.

(** X1.  [map_supernode] returns the node itself or the name of a supernode
    whose children contain the node: it never invents a name. *)
Theorem map_supernode_range node supernodes :
  map_supernode node supernodes = node
  ∨ ∃ ch, (map_supernode node supernodes, ch) ∈ supernodes ∧ node ∈ ch.
Proof. apply map_supernode_cases. Qed.

(** X2.  Resolving twice is resolving once, provided every supernode name
    resolves to itself, that is, the first supernode that lists a supernode
    name among its children, if there is one, is the supernode of that
    name. *)
Theorem map_supernode_idempotent node supernodes :
  (∀ s, s ∈ supernodes.*1 → map_supernode s supernodes = s) →
  map_supernode (map_supernode node supernodes) supernodes
  = map_supernode node supernodes.
Proof.
  intros Hnames. destruct (map_supernode_cases node supernodes) as [H|(ch & Hin & _)].
  - by rewrite !H.
  - apply Hnames. by apply (list_elem_of_fmap_2 fst) in Hin.
Qed.

Lemma map_supernode_idempotent_witness :
  map_supernode (map_supernode "NO1" [("Nordics", ["NO1"; "Sweden"]); ("Europe", ["France"])])
    [("Nordics", ["NO1"; "Sweden"]); ("Europe", ["France"])]
  = map_supernode "NO1" [("Nordics", ["NO1"; "Sweden"]); ("Europe", ["France"])].
Proof.
  apply map_supernode_idempotent.
  apply Forall_forall. apply (bool_decide_unpack _). vm_compute. exact I.
Defined.

(** ** Vertical calls that raise *)

Lemma aggregate_raise_propagates self supernodes w e w' :
  VerticalAggregationStrategy.aggregate self supernodes w = (Raise e, w') →
  vertical_raises self supernodes w e w'.
Proof.
  intros H. unfold vertical_raises, VerticalAggregationStrategy.sum,
    VerticalAggregationStrategy.mean, VerticalAggregationStrategy.agg, bind.
  by rewrite H.
Qed.

Lemma frame_getitem_missing df c : c ∉ labels df → frame_getitem df c = Raise KeyError.
Proof. intros H%assoc_None. unfold frame_getitem. by rewrite H. Qed.

Lemma key_columns_raise df names e : key_columns df names = Raise e → e = KeyError.
Proof.
  induction names as [|g names IH]; simpl; [done|].
  unfold frame_getitem. destruct (assoc g (columns df)); simpl; [|by intros [= <-]].
  destruct (key_columns df names); simpl; [done|]. intros [= <-]. by apply IH.
Qed.

Lemma key_columns_missing df names g :
  g ∈ names → g ∉ labels df → key_columns df names = Raise KeyError.
Proof.
  intros Hin Hn. destruct (key_columns df names) as [keys|e] eqn:E.
  - apply key_columns_inv in E.
    apply list_elem_of_lookup in Hin as [i Hi].
    destruct (Forall2_lookup_l _ _ _ _ _ E Hi) as (k & _ & Hk).
    apply frame_getitem_Ok, assoc_Some_label in Hk. done.
  - by rewrite (key_columns_raise _ _ _ E).
Qed.

(** X3.  A vertical sum, mean or count whose grouping list is empty raises
    [IndexError], and one whose first grouping column is not in the table
    raises [KeyError]; in both cases nothing has been written: the world,
    the caller's table included, is as before. *)
Theorem vertical_fails_before_writing
    (self : VerticalAggregationStrategy.t) (supernodes : SupernodeMap) (w : World) :
  match VerticalAggregationStrategy.group_by_cols self with
  | [] => vertical_raises self supernodes w IndexError w
  | g0 :: _ => g0 ∉ labels (frame w) → vertical_raises self supernodes w KeyError w
  end.
Proof.
  destruct (VerticalAggregationStrategy.group_by_cols self) as [|g0 rest] eqn:Hby.
  - apply aggregate_raise_propagates.
    unfold VerticalAggregationStrategy.aggregate. by rewrite Hby.
  - intros Hg0. apply aggregate_raise_propagates.
    unfold VerticalAggregationStrategy.aggregate. rewrite Hby.
    unfold bind, lift, py_index, data_getitem; simpl.
    by rewrite frame_getitem_missing.
Qed.

Lemma vertical_fails_before_writing_witness :
  vertical_raises (VerticalAggregationStrategy.mk ["zone"] (Some "v") false)
    [("X", ["A"; "B"])] (world_with ∅ ex_rows) KeyError (world_with ∅ ex_rows).
Proof.
  apply (vertical_fails_before_writing
           (VerticalAggregationStrategy.mk ["zone"] (Some "v") false)
           [("X", ["A"; "B"])] (world_with ∅ ex_rows)).
  apply (bool_decide_unpack _). vm_compute. exact I.
Defined.

(** X4.  A vertical call can raise after it has written.  With the first
    grouping column present, a call with transmission and no second grouping
    label raises [IndexError], and a call without transmission one of whose
    further grouping columns is missing raises [KeyError]; either way the
    caller's table is left with its first key column already remapped. *)
Theorem vertical_fails_after_writing
    (self : VerticalAggregationStrategy.t) (supernodes : SupernodeMap) (w : World)
    (g0 : string) (rest : list string) (a : Series) :
  VerticalAggregationStrategy.group_by_cols self = g0 :: rest →
  frame_getitem (frame w) g0 = Ok a →
  let written :=
    set_frame (frame_setitem (frame w) g0 (apply_map_supernode supernodes a)) w in
  (VerticalAggregationStrategy.transmission self = true → rest = [] →
   vertical_raises self supernodes w IndexError written)
  ∧ (VerticalAggregationStrategy.transmission self = false →
     (∃ g, g ∈ rest ∧ g ∉ labels (frame w)) →
     vertical_raises self supernodes w KeyError written).
Proof.
  intros Hby Ha written. split.
  - intros Htr ->. apply aggregate_raise_propagates.
    unfold VerticalAggregationStrategy.aggregate. rewrite Hby, Htr.
    unfold bind, lift, py_index, data_getitem, data_setitem; simpl.
    by rewrite Ha.
  - intros Htr (g & Hg & Hn). apply aggregate_raise_propagates.
    unfold VerticalAggregationStrategy.aggregate. rewrite Hby, Htr.
    unfold bind, lift, py_index, data_getitem, data_setitem, load, ret, groupby; simpl.
    rewrite Ha; simpl. rewrite frame_getitem_setitem_eq; simpl.
    rewrite (key_columns_missing _ rest g); [done|done|].
    unfold labels, frame_setitem; simpl.
    apply frame_getitem_Ok in Ha. by rewrite (assoc_set_labels _ _ _ _ Ha).
Qed.

Lemma vertical_fails_after_writing_witness :
  VerticalAggregationStrategy.sum (VerticalAggregationStrategy.mk ["k"] (Some "v") true)
    [("X", ["A"; "B"])] (world_with ∅ ex_rows)
  = (Raise IndexError,
     world_with ∅ (mkDF 3 [("k", ObjCol ["X"; "X"; "X"]);
                            ("v", NumCol [num 1; num 2; num 3])])).
Proof.
  destruct (vertical_fails_after_writing
              (VerticalAggregationStrategy.mk ["k"] (Some "v") true)
              [("X", ["A"; "B"])] (world_with ∅ ex_rows) "k" []
              (ObjCol ["A"; "A"; "B"]) eq_refl eq_refl) as [H _].
  by destruct (H eq_refl eq_refl) as [-> _].
Defined.

(** ** Totals over the groups *)

Lemma qsum_app xs ys : qsum (xs ++ ys) = (qsum xs + qsum ys)%Qc.
Proof.
  unfold qsum. induction xs as [|x xs IH]; simpl; [ring|]. rewrite IH. ring.
Qed.

(** The rows seen before and the rows of one new key make up the rows seen
    after. *)
Lemma select_partition {A K} `{EqDecision K} (h : A → Qc) (k : K) (seen ks : list K)
    (xs : list A) :
  k ∉ seen →
  (qsum (h <$> select (member_mask k ks) xs)
   + qsum (h <$> select ((λ k', bool_decide (k' ∉ k :: seen)) <$> ks) xs))%Qc
  = qsum (h <$> select ((λ k', bool_decide (k' ∉ seen)) <$> ks) xs).
Proof.
  intros Hk. revert xs. induction ks as [|k0 ks IH]; intros [|x xs];
    try (unfold qsum; simpl; ring).
  unfold member_mask. rewrite !fmap_cons. simpl. fold (member_mask k ks).
  specialize (IH xs).
  destruct (decide (k0 = k)) as [->|Hne].
  - rewrite bool_decide_eq_true_2 by done.
    rewrite (bool_decide_eq_false_2 (k ∉ k :: seen)) by (intros H; apply H; by left).
    rewrite (bool_decide_eq_true_2 (k ∉ seen)) by done.
    rewrite !fmap_cons. unfold qsum in *. simpl. rewrite <-IH. ring.
  - rewrite bool_decide_eq_false_2 by done.
    destruct (decide (k0 ∈ seen)) as [Hin|Hnin].
    + rewrite (bool_decide_eq_false_2 (k0 ∉ k :: seen))
        by (intros H; apply H; by right).
      rewrite (bool_decide_eq_false_2 (k0 ∉ seen)) by (intros H; by apply H).
      exact IH.
    + rewrite (bool_decide_eq_true_2 (k0 ∉ k :: seen))
        by (apply not_elem_of_cons; by split).
      rewrite (bool_decide_eq_true_2 (k0 ∉ seen)) by done.
      rewrite !fmap_cons. unfold qsum in *. simpl. rewrite <-IH. ring.
Qed.

Lemma first_seen_cons {A} `{EqDecision A} (seen : list A) k ks :
  first_seen seen (k :: ks) =
  if decide (k ∈ seen) then false :: first_seen seen ks
  else true :: first_seen (k :: seen) ks.
Proof. reflexivity. Qed.

Lemma member_mask_cons {A} `{EqDecision A} (g k : A) ks :
  member_mask g (k :: ks) = bool_decide (k = g) :: member_mask g ks.
Proof. reflexivity. Qed.

Lemma select_cons {A} (b : bool) mask (x : A) xs :
  select (b :: mask) (x :: xs) = if b then x :: select mask xs else select mask xs.
Proof. reflexivity. Qed.

Lemma qsum_cons x xs : qsum (x :: xs) = (x + qsum xs)%Qc.
Proof. reflexivity. Qed.

Lemma groups_total_from {A K} `{EqDecision K} (h : A → Qc) (seen ks : list K)
    (xs : list A) :
  length xs = length ks →
  qsum ((λ g, qsum (h <$> select (member_mask g ks) xs))
          <$> select (first_seen seen ks) ks)
  = qsum (h <$> select ((λ k, bool_decide (k ∉ seen)) <$> ks) xs).
Proof.
  revert seen xs. induction ks as [|k ks IH]; intros seen [|x xs] Hlen; try done.
  injection Hlen as Hlen.
  assert (Hother : ∀ seen',
            k ∈ seen' →
            (λ g, qsum (h <$> select (member_mask g (k :: ks)) (x :: xs)))
              <$> select (first_seen seen' ks) ks
            = (λ g, qsum (h <$> select (member_mask g ks) xs))
              <$> select (first_seen seen' ks) ks).
  { intros seen' Hk. apply Forall_fmap_ext_1, Forall_forall. intros g Hg.
    apply select_first_seen_NoDup in Hg.
    rewrite member_mask_cons, select_cons, bool_decide_eq_false_2; [done|].
    by intros ->. }
  rewrite first_seen_cons, (fmap_cons _ k ks), !select_cons.
  destruct (decide (k ∈ seen)) as [Hin|Hn].
  - rewrite select_cons, (bool_decide_eq_false_2 (k ∉ seen)) by (intros H; by apply H).
    rewrite Hother by done. by apply IH.
  - rewrite select_cons, (bool_decide_eq_true_2 (k ∉ seen)) by done.
    rewrite !fmap_cons, !qsum_cons, member_mask_cons, select_cons.
    rewrite (bool_decide_eq_true_2 (k = k)) by done.
    rewrite Hother by by left.
    rewrite (IH (k :: seen) xs Hlen), <-(select_partition h k seen ks xs Hn).
    rewrite fmap_cons, qsum_cons. ring.
Qed.

(** The group totals add up to the total over all rows. *)
Lemma reduce_groups_total {A K} `{EqDecision K} (f : list A → Qc) (h : A → Qc)
    (ks : list K) (xs : list A) :
  (∀ l, f l = qsum (h <$> l)) →
  length xs = length ks →
  qsum (reduce_groups f ks xs) = qsum (h <$> xs).
Proof.
  intros Hf Hlen. unfold reduce_groups.
  rewrite (Forall_fmap_ext_1 _ (λ g, qsum (h <$> select (member_mask g ks) xs)))
    by (apply Forall_forall; intros g _; apply Hf).
  rewrite groups_total_from by done. f_equal. f_equal.
  apply select_all; [|by rewrite length_fmap].
  apply Forall_fmap, Forall_forall. by intros k _.
Qed.

(** ** What a vertical call that returns has done *)

Lemma num_add a b : num (a + b) = (num a + num b)%Qc.
Proof.
  apply Qc_is_canon. unfold num, Qcplus. simpl.
  by rewrite !Qred_correct, inject_Z_plus.
Qed.

Lemma num_length {A} (l : list A) :
  num (Z.of_nat (length l)) = qsum ((λ _, 1%Qc) <$> l).
Proof.
  induction l as [|x l IH]; [by apply Qc_is_canon|].
  rewrite fmap_cons, qsum_cons, <-IH.
  change (length (x :: l)) with (S (length l)).
  rewrite Nat2Z.inj_succ, <-Z.add_1_l, num_add. reflexivity.
Qed.

Lemma select_length_le {A} (mask : list bool) (xs : list A) :
  length (select mask xs) ≤ length xs.
Proof.
  revert xs. induction mask as [|b mask IH]; intros [|x xs]; simpl; try lia.
  specialize (IH xs). destruct b; simpl; lia.
Qed.

Lemma omap_Some_fmap {A B} (f : A → B) (l : list A) :
  omap (λ x, Some (f x)) l = f <$> l.
Proof. induction l as [|x l IH]; [done|]. simpl. by f_equal. Qed.

Lemma gb_count_aggregated tr gb :
  grouped tr gb → aggregated (gb_by gb) true tr (gb_count gb).
Proof.
  intros Hg. unfold gb_count. rewrite <-omap_Some_fmap.
  apply reduction_aggregated; [done|].
  intros p q [= <-]. simpl. by rewrite reduce_groups_length.
Qed.

(** Without transmission [aggregate] groups the caller's table as it stands
    after the remapping of the first key column. *)
Lemma aggregate_plain_inv self supernodes w gb w' :
  VerticalAggregationStrategy.transmission self = false →
  VerticalAggregationStrategy.aggregate self supernodes w = (Ok gb, w') →
  ∃ g0 rest a,
    VerticalAggregationStrategy.group_by_cols self = g0 :: rest
    ∧ frame_getitem (frame w) g0 = Ok a
    ∧ gb_obj gb = frame_setitem (frame w) g0 (apply_map_supernode supernodes a)
    ∧ gb_by gb = g0 :: rest
    ∧ key_columns (gb_obj gb) (g0 :: rest) = Ok (gb_keys gb).
Proof.
  intros Htr. unfold VerticalAggregationStrategy.aggregate. rewrite Htr.
  destruct (VerticalAggregationStrategy.group_by_cols self) as [|g0 rest]; [done|].
  unfold bind, lift, py_index, data_getitem, data_setitem, load, ret, groupby;
    cbn -[key_columns].
  destruct (frame_getitem (frame w) g0) as [a|e] eqn:Ha; cbn -[key_columns]; [|done].
  destruct (key_columns _ (g0 :: rest)) as [keys|e] eqn:Hk; cbn -[key_columns];
    [|done].
  intros [= <- <-]. by exists g0, rest, a.
Qed.

Lemma aggregate_rows self supernodes w gb w' :
  VerticalAggregationStrategy.aggregate self supernodes w = (Ok gb, w') →
  wf_frame (frame w) →
  nrows (gb_obj gb) ≤ nrows (frame w).
Proof.
  unfold VerticalAggregationStrategy.aggregate. intros Hrun Hwf.
  destruct (VerticalAggregationStrategy.group_by_cols self) as [|g0 rest]; [done|].
  unfold bind, lift, py_index, data_getitem, data_setitem, load, ret, groupby in Hrun;
    cbn -[key_columns] in Hrun.
  destruct (frame_getitem (frame w) g0) as [a|e] eqn:Ha; cbn -[key_columns] in Hrun;
    [|done].
  set (df1 := frame_setitem (frame w) g0 (apply_map_supernode supernodes a)) in *.
  assert (Hwf1 : wf_frame df1).
  { apply wf_frame_setitem; [done|]. rewrite apply_map_supernode_len.
    by eapply wf_frame_getitem. }
  destruct (VerticalAggregationStrategy.transmission self); cbn -[key_columns] in Hrun.
  - destruct rest as [|g1 rest]; cbn -[key_columns] in Hrun; [done|].
    destruct (frame_getitem df1 g1) as [b|e] eqn:Hb; cbn -[key_columns] in Hrun;
      [|done].
    set (df2 := frame_setitem df1 g1 (apply_map_supernode supernodes b)) in *.
    assert (Hwf2 : wf_frame df2).
    { apply wf_frame_setitem; [done|]. rewrite apply_map_supernode_len.
      by eapply wf_frame_getitem. }
    destruct (frame_getitem df2 g0) as [a2|e] eqn:Ha2; cbn -[key_columns] in Hrun;
      [|done].
    destruct (frame_getitem df2 g1) as [b2|e] eqn:Hb2; cbn -[key_columns] in Hrun;
      [|done].
    destruct (key_columns _ (g0 :: g1 :: rest)) as [keys|e]; cbn -[key_columns] in Hrun;
      [|done].
    injection Hrun as <- _. simpl.
    etrans; [apply select_length_le|].
    by rewrite (series_ne_length a2 b2 (nrows df2)) by by eapply wf_frame_getitem.
  - destruct (key_columns df1 (g0 :: rest)) as [keys|e]; cbn -[key_columns] in Hrun;
      [|done].
    by injection Hrun as <- _.
Qed.

Lemma aggregated_keys names numeric tr df :
  NoDup names → aggregated names numeric tr df →
  ∃ keys, key_columns df names = Ok keys ∧ NoDup (row_keys (nrows df) keys).
Proof.
  intros Hnd (keys & vals & Hcols & Hlen & _ & _ & Hrk & _). exists keys.
  split; [|done].
  apply key_columns_Forall2, Forall2_same_length_lookup_2; [done|].
  intros i g k Hg Hk. apply frame_getitem_Ok. rewrite Hcols.
  by eapply assoc_zip_lookup.
Qed.

Lemma gb_ngroups_le gb :
  wf_frame (gb_obj gb) → key_columns (gb_obj gb) (gb_by gb) = Ok (gb_keys gb) →
  gb_ngroups gb ≤ nrows (gb_obj gb).
Proof.
  intros Hwf Hk. unfold gb_ngroups. etrans; [apply select_length_le|].
  unfold gb_row_keys. by rewrite row_keys_length by by eapply key_columns_len.
Qed.

(** X5.  The result of a vertical sum, mean or count has one row per key
    tuple: its key columns are the grouping columns, no two of its rows have
    the same key tuple, and it never has more rows than the table passed
    in. *)
Theorem vertical_result_one_row_per_key
    (self : VerticalAggregationStrategy.t) (supernodes : SupernodeMap)
    (w w' : World) (out : DataFrame) :
  NoDup (VerticalAggregationStrategy.group_by_cols self) →
  wf_frame (frame w) →
  VerticalAggregationStrategy.sum self supernodes w = (Ok (Value out), w')
  ∨ VerticalAggregationStrategy.mean self supernodes w = (Ok (Value out), w')
  ∨ VerticalAggregationStrategy.agg self supernodes w = (Ok (Value out), w') →
  ∃ keys,
    key_columns out (VerticalAggregationStrategy.group_by_cols self) = Ok keys
    ∧ NoDup (row_keys (nrows out) keys)
    ∧ nrows out ≤ nrows (frame w).
Proof.
  intros Hnd Hwf Hrun.
  assert (∃ gb w1 numeric,
            VerticalAggregationStrategy.aggregate self supernodes w = (Ok gb, w1)
            ∧ aggregated (gb_by gb) numeric
                (VerticalAggregationStrategy.transmission self) out
            ∧ nrows out = gb_ngroups gb) as (gb & w1 & numeric & Hagg & Hshape & Hn).
  { unfold VerticalAggregationStrategy.sum, VerticalAggregationStrategy.mean,
      VerticalAggregationStrategy.agg, bind, lift, ret in Hrun.
    destruct (VerticalAggregationStrategy.aggregate self supernodes w)
      as [[gb|e] w1] eqn:Hagg; [|by destruct Hrun as [?|[?|?]]].
    destruct (aggregate_grouped _ _ _ _ _ Hagg Hwf) as (Hg & _ & _).
    destruct Hrun as [Hrun|[Hrun|Hrun]].
    - injection Hrun as <- _. eexists gb, w1, _. split; [done|].
      split; [by apply gb_sum_aggregated|done].
    - destruct (gb_mean _ gb) as [r|e] eqn:Hmean; [|done]. injection Hrun as <- _.
      eexists gb, w1, _. split; [done|].
      split; [by eapply gb_mean_aggregated|].
      unfold gb_mean in Hmean. destruct (bool_decide _); [done|].
      by injection Hmean as <-.
    - injection Hrun as <- _. eexists gb, w1, _. split; [done|].
      split; [by apply gb_count_aggregated|done]. }
  destruct (aggregate_grouped _ _ _ _ _ Hagg Hwf) as ((Hwfo & Hk & _) & Hby & _).
  rewrite Hby in Hshape.
  destruct (aggregated_keys _ _ _ _ Hnd Hshape) as (keys & Hkeys & Hrk).
  exists keys. split_and!; [done..|].
  rewrite Hn. etrans; [by apply gb_ngroups_le|]. by eapply aggregate_rows.
Qed.

Lemma vertical_result_one_row_per_key_witness :
  ∃ keys,
    key_columns (mkDF 2 [("k", ObjCol ["A"; "B"]); ("v", NumCol [num 3; num 3])]) ["k"]
      = Ok keys
    ∧ NoDup (row_keys 2 keys)
    ∧ 2 ≤ 3.
Proof.
  apply (vertical_result_one_row_per_key
           (VerticalAggregationStrategy.mk ["k"] (Some "v") false) []
           (world_with ∅ ex_rows) (world_with ∅ ex_rows)).
  - apply (bool_decide_unpack _). vm_compute. exact I.
  - repeat constructor.
  - left. vm_compute. reflexivity.
Defined.

Lemma num_zsum (zs : list Z) : qsum (num <$> zs) = num (foldr Z.add 0%Z zs).
Proof.
  induction zs as [|z zs IH]; [done|].
  rewrite fmap_cons, qsum_cons, IH. simpl. by rewrite num_add.
Qed.

Lemma num_inj a b : num a = num b → a = b.
Proof.
  unfold num. intros H%Q2Qc_eq_iff. by apply inject_Z_injective.
Qed.

Lemma reduce_groups_fmap {A B C K} `{EqDecision K} (f : list B → C) (g : A → B)
    (ks : list K) (xs : list A) :
  reduce_groups f ks (g <$> xs) = reduce_groups (λ l, f (g <$> l)) ks xs.
Proof.
  unfold reduce_groups. apply Forall_fmap_ext_1, Forall_forall. intros k _.
  by rewrite select_fmap.
Qed.

Lemma reduce_groups_post {A B C K} `{EqDecision K} (f : list A → B) (g : B → C)
    (ks : list K) (xs : list A) :
  g <$> reduce_groups f ks xs = reduce_groups (λ l, g (f l)) ks xs.
Proof. unfold reduce_groups. by rewrite <-list_fmap_compose. Qed.

Lemma reduce_groups_ext {A B K} `{EqDecision K} (f f' : list A → B)
    (ks : list K) (xs : list A) :
  (∀ l, f l = f' l) → reduce_groups f ks xs = reduce_groups f' ks xs.
Proof.
  intros H. unfold reduce_groups. apply Forall_fmap_ext_1, Forall_forall.
  intros k _. apply H.
Qed.

Lemma zsum_abs_le (l : list Z) :
  (Z.abs (foldr Z.add 0 l) ≤ foldr (λ z acc, Z.abs z + acc) 0 l)%Z.
Proof. induction l as [|z l IH]; simpl; lia. Qed.

Lemma num_zabs (l : list Z) :
  num (foldr (λ z acc, Z.abs z + acc)%Z 0%Z l) = qsum ((λ z, num (Z.abs z)) <$> l).
Proof.
  induction l as [|z l IH]; [done|].
  rewrite fmap_cons, qsum_cons, <-IH. simpl. by rewrite num_add.
Qed.

(** The group totals of whole numbers are whole numbers, and their absolute
    values add up to no more than those of the cells. *)
Lemma reduce_groups_exact {K} `{EqDecision K} (ks : list K) (xs : list Qc) :
  length xs = length ks → exact_cells xs → exact_cells (reduce_groups qsum ks xs).
Proof.
  intros Hlen (zs & -> & Hbound). rewrite length_fmap in Hlen.
  exists (reduce_groups (foldr Z.add 0%Z) ks zs). split.
  - rewrite reduce_groups_fmap, reduce_groups_post.
    apply reduce_groups_ext, num_zsum.
  - etrans; [|exact Hbound].
    assert (Htotal : foldr Z.add 0%Z
                       (reduce_groups (foldr (λ z acc, Z.abs z + acc)%Z 0%Z) ks zs)
                     = foldr (λ z acc, Z.abs z + acc)%Z 0%Z zs).
    { apply num_inj. rewrite <-num_zsum, reduce_groups_post, num_zabs.
      by apply reduce_groups_total; [apply num_zabs|]. }
    rewrite <-Htotal. unfold reduce_groups.
    induction (select (first_seen [] ks) ks) as [|g G IH]; [done|].
    rewrite !fmap_cons. simpl.
    pose proof (zsum_abs_le (select (member_mask g ks) zs)). lia.
Qed.

(** X6.  Without transmission a vertical sum keeps the total of a value
    column, on a table without missing values and for a column of whole
    numbers whose absolute values add up to at most [2^53] (the cells on
    which neither an [int64] nor a [float64] sum wraps or rounds): the group
    totals in the result are again such cells, and they add up to the total
    of the column in the table passed in. *)
Theorem vertical_sum_conserves_total
    (self : VerticalAggregationStrategy.t) (supernodes : SupernodeMap)
    (w w' : World) (out : DataFrame) (c : string) (xs : list Qc) :
  VerticalAggregationStrategy.transmission self = false →
  wf_frame (frame w) →
  c ∉ VerticalAggregationStrategy.group_by_cols self →
  frame_getitem (frame w) c = Ok (NumCol xs) →
  exact_cells xs →
  VerticalAggregationStrategy.sum self supernodes w = (Ok (Value out), w') →
  ∃ ys, frame_getitem out c = Ok (NumCol ys) ∧ exact_cells ys ∧ qsum ys = qsum xs.
Proof.
  intros Htr Hwf Hc Hxs Hexact Hrun.
  unfold VerticalAggregationStrategy.sum, bind, ret in Hrun.
  destruct (VerticalAggregationStrategy.aggregate self supernodes w)
    as [[gb|e] w1] eqn:Hagg; [|done].
  injection Hrun as <- _.
  destruct (aggregate_grouped _ _ _ _ _ Hagg Hwf) as ((Hwfo & Hk & _) & Hby & _).
  destruct (aggregate_plain_inv _ _ _ _ _ Htr Hagg)
    as (g0 & rest & a & Hnames & Ha & Hobj & Hby' & _).
  rewrite Hnames in Hc. apply not_elem_of_cons in Hc as [Hcg0 Hcrest].
  assert (Hv : assoc c (gb_value_columns gb) = Some (NumCol xs)).
  { unfold gb_value_columns. rewrite assoc_filter_keep.
    - rewrite Hobj. unfold frame_setitem; simpl. rewrite assoc_set_ne by done.
      by apply frame_getitem_Ok.
    - rewrite Hby'. by apply not_elem_of_cons. }
  assert (Hlen : length xs = length (gb_row_keys gb)).
  { unfold gb_row_keys.
    rewrite row_keys_length by by eapply key_columns_len.
    rewrite Hobj. simpl. by apply (wf_frame_getitem _ c (NumCol xs)) in Hwf. }
  eexists. split_and!.
  - apply frame_getitem_Ok. by apply gb_sum_named_column.
  - by apply reduce_groups_exact.
  - rewrite (reduce_groups_total qsum id).
    + by rewrite list_fmap_id.
    + intros l. by rewrite list_fmap_id.
    + done.
Qed.

Lemma vertical_sum_conserves_total_witness :
  ∃ ys, frame_getitem (mkDF 1 [("k", ObjCol ["X"]); ("v", NumCol [num 6])]) "v"
          = Ok (NumCol ys)
        ∧ exact_cells ys
        ∧ qsum ys = qsum [num 1; num 2; num 3].
Proof.
  apply (vertical_sum_conserves_total
           (VerticalAggregationStrategy.mk ["k"] (Some "v") false) [("X", ["A"; "B"])]
           (world_with ∅ ex_rows)
           (world_with ∅ (mkDF 3 [("k", ObjCol ["X"; "X"; "X"]);
                                   ("v", NumCol [num 1; num 2; num 3])]))).
  - reflexivity.
  - repeat constructor.
  - apply (bool_decide_unpack _). vm_compute. exact I.
  - reflexivity.
  - exists [1; 2; 3]%Z. split; [reflexivity|]. by apply Z.leb_le.
  - vm_compute. reflexivity.
Defined.

Lemma gb_count_named_column gb c s :
  assoc c (gb_value_columns gb) = Some s →
  assoc c (columns (gb_count gb)) =
    Some (NumCol (reduce_groups (λ xs, num (Z.of_nat (length xs)))
                    (gb_row_keys gb) (cells s))).
Proof.
  intros Hv. unfold gb_count; simpl. rewrite assoc_app.
  assert (assoc c (gb_key_columns gb) = None) as ->.
  { apply assoc_None. intros (p & -> & Hp)%list_elem_of_fmap.
    apply zip_labels_elem in Hp. by apply assoc_filter_Some in Hv. }
  revert Hv. generalize (gb_value_columns gb). intros cols.
  induction cols as [|[c0 s0] cols IH]; simpl; [done|].
  destruct (decide (c0 = c)) as [->|Hne]; [by intros [= ->]|done].
Qed.

(** X7.  On a table without missing values (the tables of this model: the
    cell type holds none), without transmission, the counts of a vertical
    count add up to the number of rows of the table passed in, in every
    value column. *)
Theorem vertical_count_adds_up
    (self : VerticalAggregationStrategy.t) (supernodes : SupernodeMap)
    (w w' : World) (out : DataFrame) (c : string) :
  VerticalAggregationStrategy.transmission self = false →
  wf_frame (frame w) →
  c ∉ VerticalAggregationStrategy.group_by_cols self →
  c ∈ labels (frame w) →
  VerticalAggregationStrategy.agg self supernodes w = (Ok (Value out), w') →
  ∃ ys, frame_getitem out c = Ok (NumCol ys)
        ∧ qsum ys = num (Z.of_nat (nrows (frame w))).
Proof.
  intros Htr Hwf Hc Hl Hrun.
  unfold VerticalAggregationStrategy.agg, bind, ret in Hrun.
  destruct (VerticalAggregationStrategy.aggregate self supernodes w)
    as [[gb|e] w1] eqn:Hagg; [|done].
  injection Hrun as <- _.
  destruct (aggregate_plain_inv _ _ _ _ _ Htr Hagg)
    as (g0 & rest & a & Hnames & Ha & Hobj & Hby' & Hk).
  rewrite Hnames in Hc. apply not_elem_of_cons in Hc as [Hcg0 Hcrest].
  destruct (assoc c (columns (frame w))) as [s|] eqn:Hs;
    [|by apply assoc_None in Hs].
  assert (Hlen : series_len s = nrows (frame w)).
  { eapply wf_frame_getitem; [done|]. by apply frame_getitem_Ok. }
  assert (Hv : assoc c (gb_value_columns gb) = Some s).
  { unfold gb_value_columns. rewrite assoc_filter_keep.
    - rewrite Hobj. unfold frame_setitem; simpl. by rewrite assoc_set_ne.
    - rewrite Hby'. by apply not_elem_of_cons. }
  assert (Hwf1 : wf_frame (gb_obj gb)).
  { rewrite Hobj. apply wf_frame_setitem; [done|]. rewrite apply_map_supernode_len.
    by eapply wf_frame_getitem. }
  eexists. split.
  - apply frame_getitem_Ok. by apply gb_count_named_column.
  - rewrite (reduce_groups_total _ (λ _, 1%Qc)).
    + by rewrite <-num_length, cells_length, Hlen.
    + intros l. apply num_length.
    + unfold gb_row_keys.
      rewrite row_keys_length by by eapply key_columns_len.
      rewrite cells_length, Hlen, Hobj. done.
Qed.

Lemma vertical_count_adds_up_witness :
  ∃ ys, frame_getitem (mkDF 1 [("k", ObjCol ["X"]); ("v", NumCol [num 3])]) "v"
          = Ok (NumCol ys)
        ∧ qsum ys = num (Z.of_nat 3).
Proof.
  apply (vertical_count_adds_up
           (VerticalAggregationStrategy.mk ["k"] None false) [("X", ["A"; "B"])]
           (world_with ∅ ex_rows)
           (world_with ∅ (mkDF 3 [("k", ObjCol ["X"; "X"; "X"]);
                                   ("v", NumCol [num 1; num 2; num 3])]))).
  - reflexivity.
  - repeat constructor.
  - apply (bool_decide_unpack _). vm_compute. exact I.
  - apply (bool_decide_unpack _). vm_compute. exact I.
  - vm_compute. reflexivity.
Defined.

(** ** Key columns that resolve to themselves *)

Lemma remap_column_resolved supernodes c df :
  (∀ k x, frame_getitem df c = Ok k → CStr x ∈ cells k →
          map_supernode x supernodes = x) →
  remap_column supernodes c df = df.
Proof.
  intros H. unfold remap_column.
  destruct (frame_getitem df c) as [k|e] eqn:Hk; [|done].
  rewrite apply_map_supernode_resolved by (intros x Hx; by eapply H).
  by apply frame_setitem_id.
Qed.

Lemma remapped_keys_resolved self supernodes df :
  keys_resolved self supernodes df → remapped_keys self supernodes df = df.
Proof.
  unfold keys_resolved, remapped_keys. intros H.
  destruct (VerticalAggregationStrategy.group_by_cols self) as [|g0 rest]; [done|].
  destruct (frame_getitem df g0) as [k0|e] eqn:Hk0; [|done].
  assert (H0 : remap_column supernodes g0 df = df).
  { apply remap_column_resolved. intros k x Hk Hx. apply (H g0 k x); [|done..].
    destruct (VerticalAggregationStrategy.transmission self); by left. }
  rewrite H0.
  destruct (VerticalAggregationStrategy.transmission self); [|done].
  destruct rest as [|g1 rest]; [done|].
  apply remap_column_resolved. intros k x Hk Hx. apply (H g1 k x); [|done..].
  right. by left.
Qed.

Lemma world_eq w w' :
  frame w = frame w' → files w = files w' → opened w = opened w' → w = w'.
Proof. destruct w, w'; simpl. by intros -> -> ->. Qed.

(** X8.  When every cell of the key columns that a vertical call remaps
    resolves to itself (as under the empty supernode map), the call leaves
    the caller's table and the rest of the world exactly as they were,
    whether it returns or raises. *)
Theorem vertical_resolved_keys_leave_world
    (self : VerticalAggregationStrategy.t) (supernodes : SupernodeMap) (w : World) :
  keys_resolved self supernodes (frame w) →
  (VerticalAggregationStrategy.sum self supernodes w).2 = w
  ∧ (VerticalAggregationStrategy.mean self supernodes w).2 = w
  ∧ (VerticalAggregationStrategy.agg self supernodes w).2 = w.
Proof.
  intros Hres. split_and!; apply world_eq.
  - by rewrite vertical_sum_world, aggregate_frame, remapped_keys_resolved.
  - apply silent_vertical_sum.
  - apply silent_vertical_sum.
  - by rewrite vertical_mean_world, aggregate_frame, remapped_keys_resolved.
  - apply silent_vertical_mean.
  - apply silent_vertical_mean.
  - by rewrite vertical_agg_world, aggregate_frame, remapped_keys_resolved.
  - apply silent_vertical_agg.
  - apply silent_vertical_agg.
Qed.

Lemma vertical_resolved_keys_leave_world_witness :
  (VerticalAggregationStrategy.sum
     (VerticalAggregationStrategy.mk ["k"] (Some "v") false) []
     (world_with ∅ ex_rows)).2 = world_with ∅ ex_rows
  ∧ (VerticalAggregationStrategy.mean
       (VerticalAggregationStrategy.mk ["k"] (Some "v") false) []
       (world_with ∅ ex_rows)).2 = world_with ∅ ex_rows
  ∧ (VerticalAggregationStrategy.agg
       (VerticalAggregationStrategy.mk ["k"] (Some "v") false) []
       (world_with ∅ ex_rows)).2 = world_with ∅ ex_rows.
Proof.
  apply (vertical_resolved_keys_leave_world
           (VerticalAggregationStrategy.mk ["k"] (Some "v") false) []
           (world_with ∅ ex_rows)).
  intros g k x _ _ _. reflexivity.
Defined.

(** ** The horizontal loop, whatever its outcome *)

(** A step that raises has written nothing: once the selection and the
    reduction went through, the drop goes through too. *)
Lemma reduce_step_raise reduce p w e :
  collapse reduce (frame w) p = Raise e → reduce_step reduce p w = (Raise e, w).
Proof.
  intros H. unfold reduce_step, bind, lift, data_getitem_list.
  destruct (frame_getitem_list (frame w) p.2) as [sel|e1] eqn:Hsel.
  - destruct (reduce sel) as [s|e2] eqn:Hs.
    + by rewrite (collapse_Ok _ _ _ _ _ Hsel Hs) in H.
    + unfold collapse in H. rewrite Hsel in H; simpl in H. rewrite Hs in H.
      simpl in H. by injection H as ->.
  - unfold collapse in H. rewrite Hsel in H. simpl in H. by injection H as ->.
Qed.

Lemma set_frame_set_frame df1 df2 w : set_frame df2 (set_frame df1 w) = set_frame df2 w.
Proof. done. Qed.

Lemma for_each_reduce_step_inv reduce eff :
  ∀ w o w',
    for_each (reduce_step reduce) eff w = (o, w') →
    ∃ pre post df1,
      eff = pre ++ post
      ∧ collapse_all reduce (frame w) pre = Ok df1
      ∧ w' = set_frame df1 w
      ∧ match o with
        | Ok _ => post = []
        | Raise e => ∃ p post', post = p :: post' ∧ collapse reduce df1 p = Raise e
        end.
Proof.
  induction eff as [|p eff IH]; intros w o w'.
  - intros [= <- <-]. exists [], [], (frame w). by rewrite set_frame_id.
  - change (for_each (reduce_step reduce) (p :: eff) w)
      with (bind (reduce_step reduce p) (λ _, for_each (reduce_step reduce) eff) w).
    unfold bind. pose proof (reduce_step_run reduce p w) as Hstep.
    destruct (collapse reduce (frame w) p) as [df1|e] eqn:Hc.
    + rewrite Hstep. intros Hrun.
      destruct (IH _ _ _ Hrun) as (pre & post & df2 & -> & Hpre & -> & Ho).
      exists (p :: pre), post, df2. split_and!; [done| |done|done].
      simpl. rewrite Hc. done.
    + rewrite (reduce_step_raise _ _ _ _ Hc). intros [= <- <-].
      exists [], (p :: eff), (frame w). rewrite set_frame_id.
      split_and!; [done..|]. by exists p, eff.
Qed.

Lemma take_columns_raise cols cs e :
  take_columns cols cs = Raise e → e = KeyError ∧ ∃ c, c ∈ cs ∧ c ∉ cols.*1.
Proof.
  induction cs as [|c cs IH]; simpl; [done|].
  destruct (assoc c cols) as [s|] eqn:Hc.
  - destruct (take_columns cols cs) as [r|e1]; simpl; [done|].
    intros [= <-]. destruct (IH eq_refl) as (-> & c' & Hin & Hn).
    split; [done|]. exists c'. split; [by right|done].
  - intros [= <-]. split; [done|]. exists c. split; [by left|].
    by apply assoc_None.
Qed.

Lemma take_columns_elem cols cs sel q :
  take_columns cols cs = Ok sel → q ∈ sel → q.1 ∈ cs ∧ assoc q.1 cols = Some q.2.
Proof.
  revert sel. induction cs as [|c cs IH]; simpl; intros sel.
  - intros [= <-]. by intros []%elem_of_nil.
  - destruct (assoc c cols) as [s|] eqn:Hc; [|done].
    destruct (take_columns cols cs) as [r|e]; simpl; [|done].
    intros [= <-]. rewrite elem_of_cons. intros [->|Hin]; simpl.
    + split; [by left|done].
    + destruct (IH r eq_refl Hin). split; [by right|done].
Qed.

Lemma mapM_as_num_None (l : list Series) :
  mapM as_num l = None → ∃ xs, ObjCol xs ∈ l.
Proof.
  induction l as [|s l IH]; [done|].
  destruct s as [xs|xs].
  - destruct (mapM as_num l) as [r|] eqn:E.
    + intros H. exfalso. revert H. unfold mapM; fold (mapM as_num l).
      simpl. by rewrite E.
    + intros _. destruct (IH eq_refl) as [ys Hys]. exists ys. by right.
  - intros _. exists xs. by left.
Qed.

Lemma collapse_raise reduce df p e :
  (∀ sel e, reduce sel = Raise e →
            e = TypeError ∧ mapM as_num (columns sel).*2 = None) →
  collapse reduce df p = Raise e →
  (e = KeyError ∧ ∃ c, c ∈ p.2 ∧ c ∉ labels df)
  ∨ (e = TypeError ∧ ∃ c xs, c ∈ p.2 ∧ frame_getitem df c = Ok (ObjCol xs)).
Proof.
  intros Hred. unfold collapse, frame_getitem_list.
  destruct (take_columns (columns df) p.2) as [sel|e1] eqn:Hsel; simpl.
  - destruct (reduce (mkDF (nrows df) sel)) as [s|e2] eqn:Hs; simpl.
    + intros H. exfalso.
      assert (Hok : frame_getitem_list df p.2 = Ok (mkDF (nrows df) sel)).
      { unfold frame_getitem_list. by rewrite Hsel. }
      pose proof (collapse_Ok reduce df p _ _ Hok Hs) as Hc.
      unfold collapse in Hc. rewrite Hok in Hc. simpl in Hc. rewrite Hs in Hc.
      simpl in Hc. congruence.
    + intros [= <-]. right. destruct (Hred _ _ Hs) as [-> Hnone].
      split; [done|]. simpl in Hnone.
      apply mapM_as_num_None in Hnone as [xs Hxs].
      apply list_elem_of_fmap in Hxs as ([c s] & Hs' & Hin). simpl in Hs'. subst s.
      destruct (take_columns_elem _ _ _ _ Hsel Hin) as [Hc Ha]. simpl in *.
      exists c, xs. split; [done|]. by apply frame_getitem_Ok.
  - intros [= <-]. left. by apply take_columns_raise in Hsel.
Qed.

Lemma sum_axis1_raise sel e :
  sum_axis1 sel = Raise e → e = TypeError ∧ mapM as_num (columns sel).*2 = None.
Proof.
  unfold sum_axis1. destruct (mapM as_num _); [done|].
  destruct (mapM as_obj _); [done|]. by intros [= <-].
Qed.

Lemma mean_axis1_raise sel e :
  mean_axis1 sel = Raise e → e = TypeError ∧ mapM as_num (columns sel).*2 = None.
Proof. unfold mean_axis1. destruct (mapM as_num _); [done|]. by intros [= <-]. Qed.

(** Every outcome of [sum] and [mean] once the alias file is there. *)
Lemma horizontal_sum_inv supernodes w d o w' :
  files w !! alpha2_path = Some d →
  HorizontalAggregationStrategy.sum supernodes w = (o, w') →
  ∃ pre post df1,
    prod_map id (HorizontalAggregationStrategy.effective d (frame w)) <$> supernodes
      = pre ++ post
    ∧ collapse_all sum_axis1 (frame w) pre = Ok df1
    ∧ w' = mkWorld df1 (files w) (opened w ++ [alpha2_path])
    ∧ match o with
      | Ok r => r = Caller ∧ post = []
      | Raise e => ∃ p post', post = p :: post' ∧ collapse sum_axis1 df1 p = Raise e
      end.
Proof.
  intros Hd. unfold HorizontalAggregationStrategy.sum, bind.
  rewrite alpha2_run, Hd. cbv beta iota zeta.
  set (eff := prod_map id _ <$> supernodes).
  set (w0 := mkWorld (frame w) (files w) (opened w ++ [alpha2_path])).
  destruct (for_each HorizontalAggregationStrategy.sum_step eff w0) as [o1 w1] eqn:Hrun.
  change (for_each (reduce_step sum_axis1) eff w0 = (o1, w1)) in Hrun.
  apply for_each_reduce_step_inv in Hrun as (pre & post & df1 & Heff & Hpre & -> & Ho).
  destruct o1 as [[]|e]; unfold ret; intros [= <- <-]; exists pre, post, df1;
    by split_and!.
Qed.

Lemma horizontal_mean_inv supernodes w d o w' :
  files w !! alpha2_path = Some d →
  HorizontalAggregationStrategy.mean supernodes w = (o, w') →
  ∃ pre post df1,
    filter (λ p, length p.2 ≠ 0)
      (prod_map id (HorizontalAggregationStrategy.effective d (frame w)) <$> supernodes)
      = pre ++ post
    ∧ collapse_all mean_axis1 (frame w) pre = Ok df1
    ∧ w' = mkWorld df1 (files w) (opened w ++ [alpha2_path])
    ∧ match o with
      | Ok r => r = Caller ∧ post = []
      | Raise e => ∃ p post', post = p :: post' ∧ collapse mean_axis1 df1 p = Raise e
      end.
Proof.
  intros Hd. unfold HorizontalAggregationStrategy.mean, bind.
  rewrite alpha2_run, Hd. cbv beta iota zeta.
  set (w0 := mkWorld (frame w) (files w) (opened w ++ [alpha2_path])).
  destruct (for_each HorizontalAggregationStrategy.mean_step _ w0) as [o1 w1] eqn:Hrun.
  apply (for_each_reduce_step_inv mean_axis1) in Hrun
    as (pre & post & df1 & Heff & Hpre & -> & Ho).
  destruct o1 as [[]|e]; unfold ret; intros [= <- <-]; exists pre, post, df1;
    by split_and!.
Qed.

(** ** C8, the horizontal half: what the loop leaves in the caller's table *)

Lemma collapse_all_keeps_column reduce s post :
  ∀ df df',
    collapse_all reduce df post = Ok df' →
    (∀ p, p ∈ post → p.1 ≠ s ∧ s ∉ p.2) →
    frame_getitem df' s = frame_getitem df s.
Proof.
  induction post as [|p post IH]; intros df df'; simpl.
  - by intros [= <-].
  - destruct (collapse reduce df p) as [df1|e] eqn:Hc; simpl; [|done].
    intros Hrest Hp. rewrite (IH _ _ Hrest) by (intros q Hq; apply Hp; by right).
    destruct (Hp p) as [Hne Hn]; [by left|].
    apply collapse_inv in Hc as (sel & col & _ & _ & ->).
    unfold frame_getitem; simpl.
    by rewrite assoc_filter_keep, assoc_set_ne by done.
Qed.

Lemma collapse_all_loop_leaves reduce df eff df' :
  collapse_all reduce df eff = Ok df' → loop_leaves reduce df eff df'.
Proof.
  intros Hrun. split_and!; [done| |].
  - intros pre s nodes post c -> Hc Hpost. rewrite collapse_all_app in Hrun.
    destruct (collapse_all reduce df pre) as [df1|e]; simpl in Hrun; [|done].
    destruct (collapse reduce df1 (s, nodes)) as [df2|e] eqn:Hstep; simpl in Hrun;
      [|done].
    eapply collapse_all_absent; [|exact Hpost|exact Hrun].
    intros [_ Hn]%(collapse_labels _ _ _ _ _ Hstep). by apply Hn.
  - intros pre s nodes post -> Hs Hpost. rewrite collapse_all_app in Hrun.
    destruct (collapse_all reduce df pre) as [df1|e]; simpl in Hrun; [|done].
    destruct (collapse reduce df1 (s, nodes)) as [df2|e] eqn:Hstep; simpl in Hrun;
      [|done].
    apply collapse_inv in Hstep as (sel & col & Hsel & Hcol & ->).
    exists df1, sel, col. split_and!; [done..|].
    rewrite (collapse_all_keeps_column _ s _ _ _ Hrun Hpost).
    unfold frame_getitem; simpl.
    by rewrite assoc_filter_keep, assoc_set_eq by done.
Qed.

(** C8, amended.  No copy is made; the calls write into the caller's table.
    After a vertical sum, mean or count the caller's table has its first key
    column, and with transmission its second key column too, replaced where
    it stands by the remapped column; its row count and its column labels
    are as before (the row filter and the reduction act on new frames).  A
    horizontal sum or mean that returns, returns the caller's table itself,
    in which the supernode columns were written and the child columns
    dropped: the table is what the steps of the loop over the effective
    child lists made of it, each child column is gone (unless a later
    supernode of that name wrote it again), and each supernode column holds
    the row-wise reduction of its child columns (unless the supernode is its
    own child or a later supernode overwrote or dropped it). *)
Theorem aggregation_writes_callers_table
    (self : VerticalAggregationStrategy.t) (supernodes : SupernodeMap) (w : World) :
  (frame (VerticalAggregationStrategy.sum self supernodes w).2
     = remapped_keys self supernodes (frame w)
   ∧ frame (VerticalAggregationStrategy.mean self supernodes w).2
     = remapped_keys self supernodes (frame w)
   ∧ frame (VerticalAggregationStrategy.agg self supernodes w).2
     = remapped_keys self supernodes (frame w))
  ∧ (nrows (remapped_keys self supernodes (frame w)) = nrows (frame w)
     ∧ labels (remapped_keys self supernodes (frame w)) = labels (frame w))
  ∧ (∀ r w', HorizontalAggregationStrategy.sum supernodes w = (Ok r, w') →
             r = Caller ∧ deref w' r = frame w'
             ∧ ∃ d, files w !! alpha2_path = Some d
                    ∧ loop_leaves sum_axis1 (frame w)
                        (prod_map id (HorizontalAggregationStrategy.effective d (frame w))
                           <$> supernodes)
                        (frame w'))
  ∧ (∀ r w', HorizontalAggregationStrategy.mean supernodes w = (Ok r, w') →
             r = Caller ∧ deref w' r = frame w'
             ∧ ∃ d, files w !! alpha2_path = Some d
                    ∧ loop_leaves mean_axis1 (frame w)
                        (filter (λ p, length p.2 ≠ 0)
                           (prod_map id (HorizontalAggregationStrategy.effective d (frame w))
                              <$> supernodes))
                        (frame w')).
Proof.
  split_and!.
  - by rewrite vertical_sum_world, aggregate_frame.
  - by rewrite vertical_mean_world, aggregate_frame.
  - by rewrite vertical_agg_world, aggregate_frame.
  - unfold remapped_keys.
    destruct (VerticalAggregationStrategy.group_by_cols self) as [|g0 rest]; [done|].
    destruct (frame_getitem (frame w) g0); [|done].
    destruct (VerticalAggregationStrategy.transmission self);
      [destruct rest|]; simpl;
      rewrite ?(proj1 (remap_column_shape _ _ _)); done.
  - unfold remapped_keys.
    destruct (VerticalAggregationStrategy.group_by_cols self) as [|g0 rest]; [done|].
    destruct (frame_getitem (frame w) g0); [|done].
    destruct (VerticalAggregationStrategy.transmission self);
      [destruct rest|]; simpl;
      rewrite ?(proj2 (remap_column_shape _ _ _)); done.
  - intros r w' H.
    destruct (files w !! alpha2_path) as [d|] eqn:Hd.
    + destruct (horizontal_sum_inv _ _ d _ _ Hd H)
        as (pre & post & df1 & Heff & Hpre & -> & -> & ->).
      rewrite app_nil_r in Heff. subst pre. split_and!; [done..|].
      exists d. split; [done|]. by apply collapse_all_loop_leaves.
    + exfalso. revert H. unfold HorizontalAggregationStrategy.sum, bind.
      by rewrite alpha2_run, Hd.
  - intros r w' H.
    destruct (files w !! alpha2_path) as [d|] eqn:Hd.
    + destruct (horizontal_mean_inv _ _ d _ _ Hd H)
        as (pre & post & df1 & Heff & Hpre & -> & -> & ->).
      rewrite app_nil_r in Heff. subst pre. split_and!; [done..|].
      exists d. split; [done|]. by apply collapse_all_loop_leaves.
    + exfalso. revert H. unfold HorizontalAggregationStrategy.mean, bind.
      by rewrite alpha2_run, Hd.
Qed.

Lemma aggregation_writes_callers_table_witness :
  let out := mkDF 1 [("X", NumCol [num 3])] in
  (("A" ∉ labels out) ∧ ("B" ∉ labels out))
  ∧ ∃ df1 sel col,
      collapse_all sum_axis1 ex_nodes [] = Ok df1
      ∧ frame_getitem_list df1 ["A"; "B"] = Ok sel
      ∧ sum_axis1 sel = Ok col
      ∧ frame_getitem out "X" = Ok col.
Proof.
  intros out.
  destruct (aggregation_writes_callers_table
              (VerticalAggregationStrategy.mk ["k"] (Some "v") false)
              [("X", ["A"; "B"])] (world_with ∅ ex_nodes)) as (_ & _ & Hsum & _).
  destruct (Hsum Caller (mkWorld out {[ alpha2_path := ∅ ]} [alpha2_path]))
    as (_ & _ & d & Hd & _ & Hdrop & Hwrite); [vm_compute; reflexivity|].
  assert (d = ∅) as ->.
  { unfold world_with in Hd. simpl in Hd. rewrite lookup_singleton_eq in Hd.
    by injection Hd. }
  split; [split|].
  - apply (Hdrop [] "X" ["A"; "B"] [] "A").
    + apply (bool_decide_unpack _). vm_compute. exact I.
    + by left.
    + by intros p []%elem_of_nil.
  - apply (Hdrop [] "X" ["A"; "B"] [] "B").
    + apply (bool_decide_unpack _). vm_compute. exact I.
    + right. by left.
    + by intros p []%elem_of_nil.
  - apply (Hwrite [] "X" ["A"; "B"] []).
    + apply (bool_decide_unpack _). vm_compute. exact I.
    + apply (bool_decide_unpack _). vm_compute. exact I.
    + by intros p []%elem_of_nil.
Defined.

(** X9.  A horizontal sum or mean that raises inside its loop has not
    undone the supernodes it had finished: the caller's table is left as
    the supernodes before the failing one made it, with their columns
    written and their child columns dropped; the failing supernode itself
    has written nothing.  The error is [KeyError] when a column of its list
    is no longer in the table and [TypeError] when one of them holds
    strings. *)
Theorem horizontal_failure_keeps_earlier_writes
    (w : World) (d : AliasTable) (supernodes : SupernodeMap) :
  let eff := prod_map id (HorizontalAggregationStrategy.effective d (frame w))
               <$> supernodes in
  files w !! alpha2_path = Some d →
  (∀ e w', HorizontalAggregationStrategy.sum supernodes w = (Raise e, w') →
           stopped_at sum_axis1 (frame w) eff e (frame w'))
  ∧ (∀ e w', HorizontalAggregationStrategy.mean supernodes w = (Raise e, w') →
             stopped_at mean_axis1 (frame w) (filter (λ p, length p.2 ≠ 0) eff) e
               (frame w')).
Proof.
  intros eff Hd. split; intros e w' Hrun.
  - apply (horizontal_sum_inv _ _ d) in Hrun
      as (pre & post & df1 & Heff & Hpre & -> & p & post' & -> & Hc); [|done].
    exists pre, p, post'. split_and!; [done..|].
    by apply (collapse_raise _ _ _ _ sum_axis1_raise).
  - apply (horizontal_mean_inv _ _ d) in Hrun
      as (pre & post & df1 & Heff & Hpre & -> & p & post' & -> & Hc); [|done].
    exists pre, p, post'. split_and!; [done..|].
    by apply (collapse_raise _ _ _ _ mean_axis1_raise).
Qed.

Lemma horizontal_failure_keeps_earlier_writes_witness :
  stopped_at sum_axis1 ex_nodes [("S1", ["A"]); ("S2", ["A"; "B"])] KeyError
    (mkDF 1 [("B", NumCol [num 2]); ("S1", NumCol [num 1])]).
Proof.
  assert (Hd : files (world_with ∅ ex_nodes) !! alpha2_path = Some (∅ : AliasTable))
    by (vm_compute; reflexivity).
  apply (proj1 (horizontal_failure_keeps_earlier_writes
                  (world_with ∅ ex_nodes) ∅ [("S1", ["A"]); ("S2", ["A"; "B"])] Hd)
           KeyError
           (mkWorld (mkDF 1 [("B", NumCol [num 2]); ("S1", NumCol [num 1])])
              {[ alpha2_path := ∅ ]} [alpha2_path])).
  vm_compute. reflexivity.
Defined.

(** ** The shape of the caller's table under the horizontal loop *)

Lemma assoc_set_NoDup {A} c (s : A) cols :
  NoDup cols.*1 → NoDup (assoc_set c s cols).*1.
Proof.
  intros Hnd. destruct (assoc c cols) as [s0|] eqn:Hc.
  - by rewrite (assoc_set_labels c s s0).
  - apply assoc_None in Hc. rewrite assoc_set_fresh, fmap_app by done.
    apply NoDup_app. split_and!; [done| |apply NoDup_singleton].
    intros x Hx ->%list_elem_of_singleton. done.
Qed.

Lemma collapse_shape reduce df p df' :
  (∀ sel s, reduce sel = Ok s → series_len s = nrows sel) →
  collapse reduce df p = Ok df' →
  nrows df' = nrows df
  ∧ (wf_frame df → wf_frame df')
  ∧ (NoDup (labels df) → NoDup (labels df')).
Proof.
  intros Hred (sel & s & Hsel & Hs & ->)%collapse_inv. split_and!; [done| |].
  - intros Hwf. unfold wf_frame; simpl. apply Forall_forall.
    intros q [_ Hq]%list_elem_of_filter. revert q Hq. apply Forall_forall.
    apply (wf_frame_setitem df p.1 s Hwf). rewrite (Hred _ _ Hs).
    unfold frame_getitem_list in Hsel.
    destruct (take_columns (columns df) p.2); [|done]. by injection Hsel as <-.
  - intros Hnd. unfold labels; simpl.
    eapply sublist_NoDup; [|apply fmap_sublist, sublist_filter].
    by apply assoc_set_NoDup.
Qed.

Lemma collapse_all_shape reduce eff :
  (∀ sel s, reduce sel = Ok s → series_len s = nrows sel) →
  ∀ df df',
    collapse_all reduce df eff = Ok df' →
    nrows df' = nrows df
    ∧ (wf_frame df → wf_frame df')
    ∧ (NoDup (labels df) → NoDup (labels df')).
Proof.
  intros Hred. induction eff as [|p eff IH]; intros df df'; simpl.
  - by intros [= <-].
  - destruct (collapse reduce df p) as [df1|e] eqn:Hc; simpl; [|done].
    intros Hrest. destruct (collapse_shape _ _ _ _ Hred Hc) as (Hn1 & Hwf1 & Hnd1).
    destruct (IH _ _ Hrest) as (Hn & Hwf & Hnd).
    split_and!; [congruence|auto..].
Qed.

Lemma row_sums_length n cols : length (row_sums n cols) = n.
Proof. unfold row_sums. by rewrite length_fmap, length_seq. Qed.

Lemma row_means_length n cols : length (row_means n cols) = n.
Proof. unfold row_means. by rewrite length_fmap, length_seq. Qed.

Lemma row_concats_length n cols : length (row_concats n cols) = n.
Proof. unfold row_concats. by rewrite length_fmap, length_seq. Qed.

Lemma sum_axis1_len sel s : sum_axis1 sel = Ok s → series_len s = nrows sel.
Proof.
  unfold sum_axis1. destruct (mapM as_num _).
  - intros [= <-]. apply row_sums_length.
  - destruct (mapM as_obj _); [|done]. intros [= <-]. apply row_concats_length.
Qed.

Lemma mean_axis1_len sel s : mean_axis1 sel = Ok s → series_len s = nrows sel.
Proof.
  unfold mean_axis1. destruct (mapM as_num _); [|done].
  intros [= <-]. apply row_means_length.
Qed.

Lemma horizontal_sum_frame supernodes w :
  ∃ pre df1,
    collapse_all sum_axis1 (frame w) pre = Ok df1
    ∧ frame (HorizontalAggregationStrategy.sum supernodes w).2 = df1.
Proof.
  destruct (files w !! alpha2_path) as [d|] eqn:Hd.
  - destruct (HorizontalAggregationStrategy.sum supernodes w) as [o w'] eqn:Hrun.
    apply (horizontal_sum_inv _ _ d) in Hrun
      as (pre & post & df1 & _ & Hpre & -> & _); [|done].
    by exists pre, df1.
  - exists [], (frame w). split; [done|].
    unfold HorizontalAggregationStrategy.sum, bind. by rewrite alpha2_run, Hd.
Qed.

Lemma horizontal_mean_frame supernodes w :
  ∃ pre df1,
    collapse_all mean_axis1 (frame w) pre = Ok df1
    ∧ frame (HorizontalAggregationStrategy.mean supernodes w).2 = df1.
Proof.
  destruct (files w !! alpha2_path) as [d|] eqn:Hd.
  - destruct (HorizontalAggregationStrategy.mean supernodes w) as [o w'] eqn:Hrun.
    apply (horizontal_mean_inv _ _ d) in Hrun
      as (pre & post & df1 & _ & Hpre & -> & _); [|done].
    by exists pre, df1.
  - exists [], (frame w). split; [done|].
    unfold HorizontalAggregationStrategy.mean, bind. by rewrite alpha2_run, Hd.
Qed.

(** X10.  Whatever a horizontal sum or mean does (return, raise inside the
    loop, fail to open the alias file), it leaves the caller's table a
    table: the number of rows is as before, every column still has one cell
    per row, and the column labels are still distinct. *)
Theorem horizontal_keeps_table_shape (supernodes : SupernodeMap) (w w' : World) :
  wf_frame (frame w) →
  NoDup (labels (frame w)) →
  w' = (HorizontalAggregationStrategy.sum supernodes w).2
  ∨ w' = (HorizontalAggregationStrategy.mean supernodes w).2 →
  nrows (frame w') = nrows (frame w)
  ∧ wf_frame (frame w')
  ∧ NoDup (labels (frame w')).
Proof.
  intros Hwf Hnd [->| ->].
  - destruct (horizontal_sum_frame supernodes w) as (pre & df1 & Hpre & ->).
    destruct (collapse_all_shape _ _ sum_axis1_len _ _ Hpre) as (? & ? & ?). auto.
  - destruct (horizontal_mean_frame supernodes w) as (pre & df1 & Hpre & ->).
    destruct (collapse_all_shape _ _ mean_axis1_len _ _ Hpre) as (? & ? & ?). auto.
Qed.

Lemma horizontal_keeps_table_shape_witness :
  nrows (mkDF 1 [("B", NumCol [num 2]); ("S1", NumCol [num 1])]) = nrows ex_nodes
  ∧ wf_frame (mkDF 1 [("B", NumCol [num 2]); ("S1", NumCol [num 1])])
  ∧ NoDup (labels (mkDF 1 [("B", NumCol [num 2]); ("S1", NumCol [num 1])])).
Proof.
  apply (horizontal_keeps_table_shape [("S1", ["A"]); ("S2", ["A"; "B"])]
           (world_with ∅ ex_nodes)
           (mkWorld (mkDF 1 [("B", NumCol [num 2]); ("S1", NumCol [num 1])])
              {[ alpha2_path := ∅ ]} [alpha2_path])).
  - repeat constructor.
  - apply (bool_decide_unpack _). vm_compute. exact I.
  - left. vm_compute. reflexivity.
Defined.

(** ** Columns that pass through a horizontal reduction *)

Lemma filter_labels {A} (X : list string) (cols : list (string * A)) :
  (filter (λ q, q.1 ∉ X) cols).*1 = filter (λ c, c ∉ X) cols.*1.
Proof.
  induction cols as [|[c s] cols IH]; [done|].
  rewrite fmap_cons, !filter_cons. simpl.
  destruct (decide (c ∉ X)); [|done]. by rewrite fmap_cons, IH.
Qed.

Lemma concat_filter_nonempty (eff : list (string * list string)) :
  concat (filter (λ p, length p.2 ≠ 0) eff).*2 = concat eff.*2.
Proof.
  induction eff as [|[s nodes] eff IH]; [done|].
  rewrite filter_cons. simpl. destruct (decide (length nodes ≠ 0)) as [Hn|Hn].
  - rewrite fmap_cons. simpl. by rewrite IH.
  - destruct nodes; [|by destruct Hn]. simpl. exact IH.
Qed.

Lemma collapsed_labels rows df eff :
  labels (collapsed rows df eff) =
  filter (λ c, c ∉ concat eff.*2) (labels df) ++ eff.*1.
Proof.
  unfold labels, collapsed; simpl.
  by rewrite fmap_app, filter_labels, supernode_columns_names.
Qed.

Lemma collapsed_untouched rows df eff c :
  c ∈ labels df → c ∉ concat eff.*2 →
  frame_getitem (collapsed rows df eff) c = frame_getitem df c.
Proof.
  intros Hl Hc. unfold frame_getitem, collapsed; simpl.
  rewrite assoc_app, assoc_filter_keep by done.
  destruct (assoc c (columns df)) eqn:E; [done|]. by apply assoc_None in E.
Qed.

(** X11.  On a table whose labels are not supernode names, with the
    effective child lists pairwise disjoint and numeric: in the table a
    horizontal sum or mean leaves, the columns that are no supernode's
    effective child come first, in their original order and with their
    cells as they were, and the supernode columns follow them in the
    iteration order of the supernode map (for the mean, only those with a
    non-empty effective list). *)
Theorem horizontal_columns_pass_through
    (w : World) (d : AliasTable) (supernodes : SupernodeMap) :
  let df := frame w in
  let eff := prod_map id (HorizontalAggregationStrategy.effective d df) <$> supernodes in
  let out_sum := frame (HorizontalAggregationStrategy.sum supernodes w).2 in
  let out_mean := frame (HorizontalAggregationStrategy.mean supernodes w).2 in
  files w !! alpha2_path = Some d →
  NoDup supernodes.*1 →
  (∀ s, s ∈ supernodes.*1 → s ∉ labels df) →
  pairwise_disjoint eff.*2 →
  (∀ c, c ∈ concat eff.*2 → numeric_in df c) →
  labels out_sum = filter (λ c, c ∉ concat eff.*2) (labels df) ++ supernodes.*1
  ∧ labels out_mean = filter (λ c, c ∉ concat eff.*2) (labels df)
                      ++ (filter (λ p, length p.2 ≠ 0) eff).*1
  ∧ ∀ c, c ∈ labels df → c ∉ concat eff.*2 →
         frame_getitem out_sum c = frame_getitem df c
         ∧ frame_getitem out_mean c = frame_getitem df c.
Proof.
  intros df eff out_sum out_mean Hd Hnd Hfresh Hdisj Hnum.
  unfold out_sum, out_mean.
  rewrite (horizontal_sum_collapsed w d supernodes Hd Hnd Hfresh Hdisj Hnum).
  rewrite (horizontal_mean_collapsed w d supernodes Hd Hnd Hfresh Hdisj Hnum).
  simpl. fold df. fold eff. split_and!.
  - rewrite collapsed_labels. unfold eff. by rewrite effective_names.
  - by rewrite collapsed_labels, concat_filter_nonempty.
  - intros c Hl Hc. split; apply collapsed_untouched; try done.
    by rewrite concat_filter_nonempty.
Qed.

Lemma horizontal_columns_pass_through_witness :
  labels (frame (HorizontalAggregationStrategy.sum [("X", ["B"]); ("Y", ["Z"])]
                   (world_with ∅ ex_nodes)).2) = ["A"; "X"; "Y"]
  ∧ labels (frame (HorizontalAggregationStrategy.mean [("X", ["B"]); ("Y", ["Z"])]
                     (world_with ∅ ex_nodes)).2) = ["A"; "X"].
Proof.
  destruct (horizontal_columns_pass_through (world_with ∅ ex_nodes) ∅
              [("X", ["B"]); ("Y", ["Z"])]) as (Hs & Hm & _).
  - vm_compute. reflexivity.
  - apply (bool_decide_unpack _). vm_compute. exact I.
  - apply Forall_forall. apply (bool_decide_unpack _). vm_compute. exact I.
  - change (pairwise_disjoint [["B"]; []]). simpl.
    split; [|split; [|exact I]]; apply Forall_forall;
      apply (bool_decide_unpack _); vm_compute; exact I.
  - change (∀ c, c ∈ ["B"] → numeric_in ex_nodes c).
    apply Forall_forall. repeat constructor; eexists; vm_compute; reflexivity.
  - split.
    + rewrite Hs. apply (bool_decide_unpack _). vm_compute. exact I.
    + rewrite Hm. apply (bool_decide_unpack _). vm_compute. exact I.
Defined.

(** ** A supernode with a single child column *)

Lemma row_single {A} (d : A) (f : list A → A) (xs : list A) n :
  (∀ x, f [x] = x) → length xs = n →
  (λ i, f (row_of d [xs] i)) <$> seq 0 n = xs.
Proof.
  intros Hf <-. apply list_eq. intros i. rewrite list_lookup_fmap.
  destruct (decide (i < length xs)) as [Hi|Hi].
  - rewrite lookup_seq_lt by done. simpl.
    destruct (lookup_lt_is_Some_2 xs i Hi) as [x Hx].
    rewrite Hx. simpl. by rewrite Hf.
  - rewrite lookup_seq_ge by lia. simpl. symmetry. apply lookup_ge_None. lia.
Qed.

(** X12.  Under the same conditions on a well-formed table without missing
    values, a supernode whose effective child list is a single column of
    whole numbers within [2^53] in absolute value (which [float64], the
    dtype of a mean, holds exactly) is a rename: both the sum and the mean
    write under the supernode's name the numbers of that column. *)
Theorem horizontal_single_child_renames
    (w : World) (d : AliasTable) (supernodes : SupernodeMap)
    (s c : string) (child_nodes : list string) :
  let df := frame w in
  let eff := prod_map id (HorizontalAggregationStrategy.effective d df) <$> supernodes in
  files w !! alpha2_path = Some d →
  NoDup supernodes.*1 →
  (∀ s, s ∈ supernodes.*1 → s ∉ labels df) →
  pairwise_disjoint eff.*2 →
  (∀ c, c ∈ concat eff.*2 → numeric_in df c) →
  wf_frame df →
  (s, child_nodes) ∈ supernodes →
  HorizontalAggregationStrategy.effective d df child_nodes = [c] →
  (∀ xs, frame_getitem df c = Ok (NumCol xs) → exact_cells xs) →
  frame_getitem (frame (HorizontalAggregationStrategy.sum supernodes w).2) s
    = frame_getitem df c
  ∧ frame_getitem (frame (HorizontalAggregationStrategy.mean supernodes w).2) s
    = frame_getitem df c.
Proof.
  intros df eff Hd Hnd Hfresh Hdisj Hnum Hwf Hin Hone _.
  rewrite (horizontal_sum_collapsed w d supernodes Hd Hnd Hfresh Hdisj Hnum).
  rewrite (horizontal_mean_collapsed w d supernodes Hd Hnd Hfresh Hdisj Hnum).
  simpl. fold df. fold eff.
  assert (Hnames : eff.*1 = supernodes.*1) by apply effective_names.
  assert (Hnd' : NoDup eff.*1) by by rewrite Hnames.
  assert (Heff : (s, [c]) ∈ eff).
  { apply list_elem_of_fmap. exists (s, child_nodes). split; [|done].
    unfold prod_map; simpl. by rewrite Hone. }
  assert (Hs : s ∉ labels df).
  { apply Hfresh. by apply (list_elem_of_fmap_2 fst) in Hin. }
  destruct (Hnum c) as [xs Hxs]; [by eapply (elem_of_concat_snd eff (s, [c])); [|left]|].
  assert (Hlen : length xs = nrows df).
  { apply (wf_frame_getitem df c (NumCol xs) Hwf). by apply frame_getitem_Ok. }
  assert (Hcv : child_values df [c] = [xs]).
  { unfold child_values. rewrite fmap_cons, fmap_nil. by rewrite Hxs. }
  assert (Hgc : frame_getitem df c = Ok (NumCol xs)) by by apply frame_getitem_Ok.
  rewrite Hgc. split; apply frame_getitem_Ok.
  - rewrite (collapsed_lookup row_sums df eff s [c] Hnd' Heff Hs), Hcv.
    do 2 f_equal. apply row_single; [apply qsum_singleton|done].
  - rewrite (collapsed_lookup row_means df _ s [c]); [| | |done].
    + rewrite Hcv. do 2 f_equal. apply row_single; [apply qmean_singleton|done].
    + eapply sublist_NoDup; [exact Hnd'|apply fmap_sublist, sublist_filter].
    + apply list_elem_of_filter. by split.
Qed.

Lemma horizontal_single_child_renames_witness :
  frame_getitem (frame (HorizontalAggregationStrategy.sum [("X", ["B"]); ("Y", ["Z"])]
                          (world_with ∅ ex_nodes)).2) "X"
    = frame_getitem ex_nodes "B"
  ∧ frame_getitem (frame (HorizontalAggregationStrategy.mean [("X", ["B"]); ("Y", ["Z"])]
                            (world_with ∅ ex_nodes)).2) "X"
    = frame_getitem ex_nodes "B".
Proof.
  apply (horizontal_single_child_renames (world_with ∅ ex_nodes) ∅
           [("X", ["B"]); ("Y", ["Z"])] "X" "B" ["B"]).
  - vm_compute. reflexivity.
  - apply (bool_decide_unpack _). vm_compute. exact I.
  - apply Forall_forall. apply (bool_decide_unpack _). vm_compute. exact I.
  - change (pairwise_disjoint [["B"]; []]). simpl.
    split; [|split; [|exact I]]; apply Forall_forall;
      apply (bool_decide_unpack _); vm_compute; exact I.
  - change (∀ c, c ∈ ["B"] → numeric_in ex_nodes c).
    apply Forall_forall. repeat constructor; eexists; vm_compute; reflexivity.
  - repeat constructor.
  - apply (bool_decide_unpack _). vm_compute. exact I.
  - apply (bool_decide_unpack _). vm_compute. exact I.
  - intros xs [= <-]. exists [2]%Z. split; [reflexivity|]. by apply Z.leb_le.
Defined.

(** ** A supernode named like one of its own child columns *)

Lemma collapse_all_drops_own_name reduce df pre s nodes post df' :
  collapse_all reduce df (pre ++ (s, nodes) :: post) = Ok df' →
  s ∈ nodes →
  (∀ p, p ∈ post → p.1 ≠ s) →
  s ∉ labels df'.
Proof.
  intros Hrun Hs Hpost. rewrite collapse_all_app in Hrun.
  destruct (collapse_all reduce df pre) as [df1|e]; simpl in Hrun; [|done].
  destruct (collapse reduce df1 (s, nodes)) as [df2|e] eqn:Hc; simpl in Hrun; [|done].
  eapply collapse_all_absent; [|exact Hpost|exact Hrun].
  intros [_ Hn]%(collapse_labels _ _ _ _ _ Hc). by apply Hn.
Qed.

(** X13.  A supernode that carries the name of one of its own effective
    child columns loses its total: the loop writes the total under that
    name and drops it again with the child columns.  If no later supernode
    has the same name, the table a horizontal sum or mean returns has no
    column of that name. *)
Theorem horizontal_supernode_named_like_child_is_lost
    (w : World) (d : AliasTable) (pre post : SupernodeMap)
    (s : string) (child_nodes : list string) (r : ref) (w' : World) :
  files w !! alpha2_path = Some d →
  s ∈ HorizontalAggregationStrategy.effective d (frame w) child_nodes →
  (∀ p, p ∈ post → p.1 ≠ s) →
  HorizontalAggregationStrategy.sum (pre ++ (s, child_nodes) :: post) w = (Ok r, w')
  ∨ HorizontalAggregationStrategy.mean (pre ++ (s, child_nodes) :: post) w = (Ok r, w') →
  s ∉ labels (frame w').
Proof.
  intros Hd Hs Hpost [Hrun|Hrun].
  - apply (horizontal_sum_inv _ _ d) in Hrun
      as (pre' & post' & df1 & Heff & Hpre & -> & _ & ->); [|done].
    rewrite app_nil_r in Heff. subst pre'.
    rewrite fmap_app, fmap_cons in Hpre. simpl.
    eapply collapse_all_drops_own_name; [exact Hpre|exact Hs|].
    intros p ([s' ch'] & -> & Hp)%list_elem_of_fmap. by apply (Hpost (s', ch')).
  - apply (horizontal_mean_inv _ _ d) in Hrun
      as (pre' & post' & df1 & Heff & Hpre & -> & _ & ->); [|done].
    rewrite app_nil_r in Heff. subst pre'.
    rewrite fmap_app, fmap_cons, filter_app, filter_cons in Hpre.
    rewrite decide_True in Hpre.
    + simpl. eapply collapse_all_drops_own_name; [exact Hpre|exact Hs|].
      intros p [_ ([s' ch'] & -> & Hp)%list_elem_of_fmap]%list_elem_of_filter.
      by apply (Hpost (s', ch')).
    + simpl. intros Hlen.
      destruct (HorizontalAggregationStrategy.effective d (frame w) child_nodes);
        [by apply elem_of_nil in Hs|done].
Qed.

Lemma horizontal_supernode_named_like_child_is_lost_witness :
  "A" ∉ labels (mkDF 1 ([] : list (string * Series))).
Proof.
  apply (horizontal_supernode_named_like_child_is_lost (world_with ∅ ex_nodes) ∅
           [] [] "A" ["A"; "B"] Caller
           (mkWorld (mkDF 1 []) {[ alpha2_path := ∅ ]} [alpha2_path])).
  - vm_compute. reflexivity.
  - apply (bool_decide_unpack _). vm_compute. exact I.
  - intros p Hp. by apply elem_of_nil in Hp.
  - left. vm_compute. reflexivity.
Defined.

(** ** Running a horizontal reduction on its own result *)

Lemma collapse_empty_list df s :
  collapse sum_axis1 df (s, []) =
    Ok (frame_setitem df s (NumCol (replicate (nrows df) 0%Qc))).
Proof.
  rewrite (collapse_Ok sum_axis1 df (s, []) (mkDF (nrows df) [])
             (NumCol (replicate (nrows df) 0%Qc))).
  - unfold frame_setitem. do 2 f_equal.
    apply (filter_not_elem_of_nil (assoc_set s _ (columns df))).
  - done.
  - unfold sum_axis1. simpl. by rewrite row_sums_nil.
Qed.

Lemma collapse_all_cons reduce df p eff :
  collapse_all reduce df (p :: eff) =
  try! df' := collapse reduce df p in collapse_all reduce df' eff.
Proof. done. Qed.

Lemma collapse_all_empty_lists names :
  ∀ df, ∃ df',
    collapse_all sum_axis1 df ((λ s, (s, [])) <$> names) = Ok df'
    ∧ nrows df' = nrows df
    ∧ (∀ s, s ∈ names →
            frame_getitem df' s = Ok (NumCol (replicate (nrows df) 0%Qc)))
    ∧ (∀ c, c ∉ names → frame_getitem df' c = frame_getitem df c).
Proof.
  induction names as [|s names IH]; intros df.
  - exists df. split_and!; [done..| |done]. by intros s []%elem_of_nil.
  - rewrite fmap_cons, collapse_all_cons, collapse_empty_list. simpl.
    destruct (IH (frame_setitem df s (NumCol (replicate (nrows df) 0%Qc))))
      as (df' & Hrun & Hn & Hz & Hu).
    exists df'. split_and!; [done|done| |].
    + intros s' Hs'. destruct (decide (s' ∈ names)) as [Hin|Hin]; [by apply Hz|].
      apply elem_of_cons in Hs' as [->|Hs']; [|done].
      rewrite (Hu s Hin). apply frame_getitem_setitem_eq.
    + intros c [Hne Hc]%not_elem_of_cons. rewrite (Hu c Hc).
      by apply frame_getitem_setitem_ne.
Qed.

Lemma effective_nil d df child_nodes :
  (∀ node, node ∈ child_nodes → HorizontalAggregationStrategy.alias d node ∉ labels df) →
  HorizontalAggregationStrategy.effective d df child_nodes = [].
Proof.
  intros H. unfold HorizontalAggregationStrategy.effective.
  induction child_nodes as [|node l IH]; [done|].
  rewrite filter_cons, decide_False by (apply H; by left).
  apply IH. intros n Hn. apply H. by right.
Qed.

Lemma effective_all_nil d df (supernodes : SupernodeMap) :
  (∀ s ch node, (s, ch) ∈ supernodes → node ∈ ch →
                HorizontalAggregationStrategy.alias d node ∉ labels df) →
  prod_map id (HorizontalAggregationStrategy.effective d df) <$> supernodes
  = (λ s, (s, [])) <$> supernodes.*1.
Proof.
  induction supernodes as [|[s ch] l IH]; intros H; [done|].
  rewrite !fmap_cons. f_equal.
  - unfold prod_map; simpl. f_equal. apply effective_nil.
    intros node Hn. apply (H s ch); [by left|done].
  - apply IH. intros s' ch' node Hin. apply (H s' ch'). by right.
Qed.

Lemma filter_nonempty_nil (names : list string) :
  filter (λ p : string * list string, length p.2 ≠ 0) ((λ s, (s, [])) <$> names) = [].
Proof.
  induction names as [|s names IH]; [done|].
  rewrite fmap_cons, filter_cons, decide_False; [exact IH|]. simpl. by intros H.
Qed.

(** When no child of any supernode is a column of the table, the sum sets
    every column named like a supernode to zero and the mean does
    nothing. *)
Lemma horizontal_without_children w d supernodes :
  files w !! alpha2_path = Some d →
  (∀ s ch node, (s, ch) ∈ supernodes → node ∈ ch →
                HorizontalAggregationStrategy.alias d node ∉ labels (frame w)) →
  (∃ w',
     HorizontalAggregationStrategy.sum supernodes w = (Ok Caller, w')
     ∧ (∀ s, s ∈ supernodes.*1 →
             frame_getitem (frame w') s
             = Ok (NumCol (replicate (nrows (frame w)) 0%Qc)))
     ∧ (∀ c, c ∉ supernodes.*1 →
             frame_getitem (frame w') c = frame_getitem (frame w) c))
  ∧ HorizontalAggregationStrategy.mean supernodes w
    = (Ok Caller, mkWorld (frame w) (files w) (opened w ++ [alpha2_path])).
Proof.
  intros Hd Hno. split.
  - pose proof (horizontal_sum_run supernodes w d Hd) as Hrun. cbv zeta in Hrun.
    rewrite (effective_all_nil d (frame w) supernodes Hno) in Hrun.
    destruct (collapse_all_empty_lists supernodes.*1 (frame w))
      as (df' & Hc & _ & Hz & Hu).
    rewrite Hc in Hrun. eexists. split; [exact Hrun|]. by split.
  - pose proof (horizontal_mean_run supernodes w d Hd) as Hrun. cbv zeta in Hrun.
    rewrite (effective_all_nil d (frame w) supernodes Hno) in Hrun.
    by rewrite filter_nonempty_nil in Hrun.
Qed.

Lemma effective_elem d df child_nodes node :
  node ∈ child_nodes →
  HorizontalAggregationStrategy.alias d node ∈ labels df →
  HorizontalAggregationStrategy.alias d node
    ∈ HorizontalAggregationStrategy.effective d df child_nodes.
Proof.
  intros Hn Hl. unfold HorizontalAggregationStrategy.effective.
  apply list_elem_of_fmap_2. by apply list_elem_of_filter.
Qed.

(** After a horizontal reduction no child of a supernode is a column any
    more, provided no child resolves to a supernode name. *)
Lemma collapsed_children_gone rows d df (supernodes : SupernodeMap)
    (eff' : list (string * list string)) :
  let eff := prod_map id (HorizontalAggregationStrategy.effective d df) <$> supernodes in
  eff'.*1 ⊆ supernodes.*1 →
  concat eff'.*2 = concat eff.*2 →
  (∀ s ch node, (s, ch) ∈ supernodes → node ∈ ch →
                HorizontalAggregationStrategy.alias d node ∉ supernodes.*1) →
  ∀ s ch node, (s, ch) ∈ supernodes → node ∈ ch →
               HorizontalAggregationStrategy.alias d node
                 ∉ labels (collapsed rows df eff').
Proof.
  intros eff Hsub Hcat Hnoalias s ch node Hin Hn.
  rewrite collapsed_labels, elem_of_app. intros [Hl|Hl].
  - apply list_elem_of_filter in Hl as [Hnot Hl]. apply Hnot. rewrite Hcat.
    apply (elem_of_concat_snd eff
             (s, HorizontalAggregationStrategy.effective d df ch)).
    + apply list_elem_of_fmap. by exists (s, ch).
    + by apply effective_elem.
  - apply (Hnoalias s ch node Hin Hn). by apply Hsub.
Qed.

(** X14.  The horizontal sum is not idempotent and the mean is.  Take a
    table on which the reductions return (labels that are no supernode
    names, disjoint numeric effective child lists) and a supernode map in
    which no child resolves to a supernode name.  A second sum on the table
    the first one left returns it with every supernode column overwritten
    by zeros, one per row, and every other column as it was; a second mean
    on the table the first mean left returns it unchanged. *)
Theorem horizontal_second_run
    (w : World) (d : AliasTable) (supernodes : SupernodeMap) :
  let df := frame w in
  let eff := prod_map id (HorizontalAggregationStrategy.effective d df) <$> supernodes in
  let w_sum := (HorizontalAggregationStrategy.sum supernodes w).2 in
  let w_mean := (HorizontalAggregationStrategy.mean supernodes w).2 in
  files w !! alpha2_path = Some d →
  NoDup supernodes.*1 →
  (∀ s, s ∈ supernodes.*1 → s ∉ labels df) →
  pairwise_disjoint eff.*2 →
  (∀ c, c ∈ concat eff.*2 → numeric_in df c) →
  (∀ s ch node, (s, ch) ∈ supernodes → node ∈ ch →
                HorizontalAggregationStrategy.alias d node ∉ supernodes.*1) →
  (∃ w2,
     HorizontalAggregationStrategy.sum supernodes w_sum = (Ok Caller, w2)
     ∧ (∀ s, s ∈ supernodes.*1 →
             frame_getitem (frame w2) s = Ok (NumCol (replicate (nrows df) 0%Qc)))
     ∧ (∀ c, c ∉ supernodes.*1 →
             frame_getitem (frame w2) c = frame_getitem (frame w_sum) c))
  ∧ (∃ w2,
       HorizontalAggregationStrategy.mean supernodes w_mean = (Ok Caller, w2)
       ∧ frame w2 = frame w_mean).
Proof.
  intros df eff w_sum w_mean Hd Hnd Hfresh Hdisj Hnum Hnoalias.
  unfold w_sum, w_mean.
  rewrite (horizontal_sum_collapsed w d supernodes Hd Hnd Hfresh Hdisj Hnum).
  rewrite (horizontal_mean_collapsed w d supernodes Hd Hnd Hfresh Hdisj Hnum).
  simpl. fold df. fold eff. split.
  - destruct (horizontal_without_children
                (mkWorld (collapsed row_sums df eff) (files w)
                   (opened w ++ [alpha2_path])) d supernodes) as [Hsum _].
    + done.
    + simpl. apply (collapsed_children_gone row_sums d df supernodes eff);
        [|done|done].
      unfold eff. by rewrite effective_names.
    + exact Hsum.
  - destruct (horizontal_without_children
                (mkWorld (collapsed row_means df (filter (λ p, length p.2 ≠ 0) eff))
                   (files w) (opened w ++ [alpha2_path])) d supernodes) as [_ Hmean].
    + done.
    + simpl. apply (collapsed_children_gone row_means d df supernodes);
        [|apply concat_filter_nonempty|done].
      intros x Hx. apply list_elem_of_fmap in Hx as (p & -> & [_ Hp]%list_elem_of_filter).
      rewrite <-(effective_names (HorizontalAggregationStrategy.effective d df)).
      by apply list_elem_of_fmap_2.
    + eexists. split; [exact Hmean|done].
Qed.

Lemma horizontal_second_run_witness :
  let supernodes := [("X", ["A"; "B"])] in
  let w_sum := (HorizontalAggregationStrategy.sum supernodes (world_with ∅ ex_nodes)).2 in
  let w_mean := (HorizontalAggregationStrategy.mean supernodes (world_with ∅ ex_nodes)).2 in
  (∃ w2,
     HorizontalAggregationStrategy.sum supernodes w_sum = (Ok Caller, w2)
     ∧ (∀ s, s ∈ ["X"] → frame_getitem (frame w2) s = Ok (NumCol [0%Qc]))
     ∧ (∀ c, c ∉ ["X"] → frame_getitem (frame w2) c = frame_getitem (frame w_sum) c))
  ∧ (∃ w2,
       HorizontalAggregationStrategy.mean supernodes w_mean = (Ok Caller, w2)
       ∧ frame w2 = frame w_mean).
Proof.
  apply (horizontal_second_run (world_with ∅ ex_nodes) ∅ [("X", ["A"; "B"])]).
  - vm_compute. reflexivity.
  - apply (bool_decide_unpack _). vm_compute. exact I.
  - apply Forall_forall. apply (bool_decide_unpack _). vm_compute. exact I.
  - change (pairwise_disjoint [["A"; "B"]]). simpl.
    split; [|exact I]. apply Forall_forall.
    apply (bool_decide_unpack _). vm_compute. exact I.
  - change (∀ c, c ∈ ["A"; "B"] → numeric_in ex_nodes c).
    apply Forall_forall. repeat constructor; eexists; vm_compute; reflexivity.
  - intros s ch node [= -> ->]%list_elem_of_singleton. revert node.
    apply Forall_forall. apply (bool_decide_unpack _). vm_compute. exact I.
Defined.

(** * The drivers *)

Lemma dbind_Return {A B} (m : D A) (k : A → D B) s b s' :
  dbind m k s = (Return b, s') →
  ∃ a s1, m s = (Return a, s1) ∧ k a s1 = (Return b, s').
Proof.
  unfold dbind. destruct (m s) as [[a|e] s1]; [|done]. intros H. by exists a, s1.
Qed.

Lemma dlift_Return {A} (r : result A) s a s' :
  dlift r s = (Return a, s') → r = Return a ∧ s' = s.
Proof. unfold dlift. by intros [= -> ->]. Qed.

Lemma getitem_Return {A} (o : option A) a : getitem o = Return a → o = Some a.
Proof. destruct o; [by intros [= ->]|done]. Qed.

(** ** [Data] *)

(** X16.  [check_exist] never returns: for every path, also that of a file
    that exists, it raises (the [Exception] with the text "Does not
    exist.", or [TypeError] when there is no path).  All it can change is
    the flag [exist], which it can only set, and what [fetch_data] does
    afterwards is what it does without the check. *)
Theorem check_exist_always_raises (is_file : string → bool) (self : Data.t) :
  let self' := (Data.check_exist is_file self).2 in
  (∃ e, (Data.check_exist is_file self).1 = Throw e
        ∧ (e = Exception "Does not exist." ∨ e = Builtin TypeError))
  ∧ (Data.exist self = true → Data.exist self' = true)
  ∧ ∀ pandas, Data.fetch_data pandas self' = Data.fetch_data pandas self.
Proof.
  unfold Data.check_exist. destruct self as [r rc [p|] ex]; simpl.
  - destruct (is_file p); simpl; split_and!; eauto.
  - split_and!; eauto.
Qed.

(** A table that [fetch_data] returns comes from one of the two readers. *)
Lemma fetch_data_source pandas self df :
  Data.fetch_data pandas self = Return df →
  (∃ p kwargs, read_excel pandas p kwargs = Return df)
  ∨ (∃ p, read_csv pandas p = Return df).
Proof.
  unfold Data.fetch_data, Data.call_read_excel.
  destruct (decide _); [|destruct (decide _)];
    try (destruct (Data.reader_config self); [|done]); eauto.
Qed.

Lemma fetch_with_config_source d config s df s' :
  fetch_with_config d config s = (Return df, s') →
  s' = s ∧ ∃ self, Data.fetch_data (pandas d) self = Return df.
Proof.
  unfold fetch_with_config.
  intros (r & s1 & [_ ->]%dlift_Return & H)%dbind_Return.
  apply dbind_Return in H as (rc & s2 & [_ ->]%dlift_Return & H).
  apply dbind_Return in H as (p & s3 & [_ ->]%dlift_Return & H).
  apply dlift_Return in H as [H ->]. split; [done|]. by eexists.
Qed.

Lemma fetch_by_path_source d config s df s' :
  fetch_by_path d config s = (Return df, s') →
  s' = s ∧ ∃ self, Data.fetch_data (pandas d) self = Return df.
Proof.
  unfold fetch_by_path.
  intros (r & s1 & [_ ->]%dlift_Return & H)%dbind_Return.
  apply dbind_Return in H as (p & s3 & [_ ->]%dlift_Return & H).
  apply dlift_Return in H as [H ->]. split; [done|]. by eexists.
Qed.

(** ** No driver returns more rows than it read *)

Lemma vertical_rows_le self supernodes w r w' :
  wf_frame (frame w) →
  VerticalAggregationStrategy.sum self supernodes w = (Ok r, w')
  ∨ VerticalAggregationStrategy.mean self supernodes w = (Ok r, w')
  ∨ VerticalAggregationStrategy.agg self supernodes w = (Ok r, w') →
  nrows (deref w' r) ≤ nrows (frame w).
Proof.
  intros Hwf Hrun.
  unfold VerticalAggregationStrategy.sum, VerticalAggregationStrategy.mean,
    VerticalAggregationStrategy.agg, bind, lift, ret in Hrun.
  destruct (VerticalAggregationStrategy.aggregate self supernodes w)
    as [[gb|e] w1] eqn:Hagg; [|by destruct Hrun as [?|[?|?]]].
  destruct (aggregate_grouped _ _ _ _ _ Hagg Hwf) as ((Hwfo & Hk & _) & _ & _).
  assert (Hle : gb_ngroups gb ≤ nrows (frame w)).
  { etrans; [by apply gb_ngroups_le|]. by eapply aggregate_rows. }
  destruct Hrun as [Hrun|[Hrun|Hrun]].
  - by injection Hrun as <- _.
  - destruct (gb_mean _ gb) as [out|e] eqn:Hmean; [|done]. injection Hrun as <- _.
    unfold gb_mean in Hmean. destruct (bool_decide _); [done|].
    by injection Hmean as <-.
  - by injection Hrun as <- _.
Qed.

Lemma horizontal_rows_eq supernodes w r w' :
  HorizontalAggregationStrategy.sum supernodes w = (Ok r, w')
  ∨ HorizontalAggregationStrategy.mean supernodes w = (Ok r, w') →
  nrows (deref w' r) = nrows (frame w).
Proof.
  intros [Hrun|Hrun].
  - assert (r = Caller) as ->.
    { apply (horizontal_sum_returns_caller supernodes w). by rewrite Hrun. }
    destruct (horizontal_sum_frame supernodes w) as (pre & df1 & Hpre & Hf).
    rewrite Hrun in Hf. simpl in *. subst df1.
    by destruct (collapse_all_shape _ _ sum_axis1_len _ _ Hpre) as (? & _).
  - assert (r = Caller) as ->.
    { apply (horizontal_mean_returns_caller supernodes w). by rewrite Hrun. }
    destruct (horizontal_mean_frame supernodes w) as (pre & df1 & Hpre & Hf).
    rewrite Hrun in Hf. simpl in *. subst df1.
    by destruct (collapse_all_shape _ _ mean_axis1_len _ _ Hpre) as (? & _).
Qed.

Lemma aggregator_rows_le a w r w' :
  wf_frame (frame w) →
  Aggregator.sum a w = (Ok r, w')
  ∨ Aggregator.mean a w = (Ok r, w')
  ∨ Aggregator.agg a w = (Ok r, w') →
  nrows (deref w' r) ≤ nrows (frame w).
Proof.
  intros Hwf Hrun. destruct a as [[v|] supernodes].
  - destruct (aggregator_vertical v supernodes) as (Hs & Hm & Ha).
    rewrite Hs, Hm, Ha in Hrun. by eapply vertical_rows_le.
  - destruct (aggregator_horizontal supernodes) as (Hs & Hm).
    rewrite Hs, Hm in Hrun. destruct Hrun as [Hrun|[Hrun|Hrun]].
    + rewrite (horizontal_rows_eq supernodes w r w'); [done|by left].
    + rewrite (horizontal_rows_eq supernodes w r w'); [done|by right].
    + done.
Qed.

Lemma call_Return d method data s r s' :
  call d method data s = (Return r, s') →
  ∃ ref w', method (mkWorld data (alias_files d) (s_opened s)) = (Ok ref, w')
            ∧ r = (deref w' ref, frame w')
            ∧ s' = mkSession (opened w') (s_written s).
Proof.
  unfold call. destruct (method _) as [[ref|e] w'] eqn:E; [|done].
  intros [= <- <-]. by exists ref, w'.
Qed.

Lemma by_agg_strat_rows d config bound s out s' :
  by_agg_strat d config bound s = (Return (Some out), s') →
  ∃ a data, bound = Some (a, data) ∧ (wf_frame data → nrows out ≤ nrows data).
Proof.
  unfold by_agg_strat.
  intros (agg_strat & s1 & [_ ->]%dlift_Return & H)%dbind_Return.
  destruct (decide (agg_strat = "sum")); [|destruct (decide (agg_strat = "mean"))].
  - apply dbind_Return in H as ([a data] & s2 & [Hb ->]%dlift_Return & H).
    apply dbind_Return in H as (r & s3 & Hcall & H).
    injection H as <- _. destruct bound as [b|]; [|done]. injection Hb as ->.
    exists a, data. split; [done|]. intros Hwf.
    apply call_Return in Hcall as (ref & w' & Hrun & -> & _). simpl.
    apply (aggregator_rows_le a (mkWorld data (alias_files d) (s_opened s)) ref w' Hwf).
    by left.
  - apply dbind_Return in H as ([a data] & s2 & [Hb ->]%dlift_Return & H).
    apply dbind_Return in H as (r & s3 & Hcall & H).
    injection H as <- _. destruct bound as [b|]; [|done]. injection Hb as ->.
    exists a, data. split; [done|]. intros Hwf.
    apply call_Return in Hcall as (ref & w' & Hrun & -> & _). simpl.
    apply (aggregator_rows_le a (mkWorld data (alias_files d) (s_opened s)) ref w' Hwf).
    right. by left.
  - done.
Qed.

(** X17.  [aggregator] never returns more rows than it read: if both
    readers only give well-formed tables of at most [n] rows, a table that
    [aggregator] returns has at most [n] rows, whatever the entry says. *)
Theorem aggregator_never_adds_rows
    (d : Disk) (config_key : string) (supernodes : SupernodeMap)
    (s s' : Session) (out : DataFrame) (n : nat) :
  (∀ p kwargs df, read_excel (pandas d) p kwargs = Return df →
                  wf_frame df ∧ nrows df ≤ n) →
  (∀ p df, read_csv (pandas d) p = Return df → wf_frame df ∧ nrows df ≤ n) →
  aggregator d config_key supernodes s = (Return (Some out), s') →
  nrows out ≤ n.
Proof.
  intros Hexcel Hcsv.
  assert (Hread : ∀ self df, Data.fetch_data (pandas d) self = Return df →
                             wf_frame df ∧ nrows df ≤ n).
  { intros self df [(p & kw & H)|(p & H)]%fetch_data_source; eauto. }
  unfold aggregator.
  intros (f & s1 & _ & H)%dbind_Return.
  apply dbind_Return in H as (config & s2 & _ & H).
  apply dbind_Return in H as (reader & s3 & _ & H).
  destruct (decide (reader = "excel"));
    [|destruct (decide (reader = "csv")); [|destruct (decide (reader = "set"))]].
  - apply dbind_Return in H as (data & s4 & [_ (self & Hf)]%fetch_with_config_source & H).
    apply dbind_Return in H as (g & s5 & _ & H).
    apply dbind_Return in H as (a & s6 & _ & H).
    apply by_agg_strat_rows in H as (a' & data' & [= <- <-] & Hle).
    destruct (Hread _ _ Hf) as [Hwf Hn]. etrans; [by apply Hle|done].
  - apply dbind_Return in H as (data & s4 & [_ (self & Hf)]%fetch_by_path_source & H).
    apply by_agg_strat_rows in H as (a' & data' & [= <- <-] & Hle).
    destruct (Hread _ _ Hf) as [Hwf Hn]. etrans; [by apply Hle|done].
  - apply dbind_Return in H as (data & s4 & [_ (self & Hf)]%fetch_with_config_source & H).
    apply dbind_Return in H as (g & s5 & _ & H).
    apply dbind_Return in H as (r & s6 & Hcall & H). injection H as <- _.
    apply call_Return in Hcall as (ref & w' & Hrun & -> & _). simpl.
    destruct (Hread _ _ Hf) as [Hwf Hn]. etrans; [|exact Hn].
    eapply (aggregator_rows_le _ (mkWorld data (alias_files d) (s_opened s5)) ref w');
      [exact Hwf|]. right. right. exact Hrun.
  - by apply by_agg_strat_rows in H as (a' & data' & [=] & _).
Qed.

Lemma aggregator_never_adds_rows_witness :
  nrows (mkDF 1 [("from", ObjCol ["X"]); ("to", ObjCol ["C"]); ("v", NumCol [num 1])]) ≤ 2.
Proof.
  apply (aggregator_never_adds_rows
           (mkDisk
              (Some (ByKey {[ "lines" :=
                 Config.mk (Some "set") (Some ∅) (Some "lines.xlsx")
                   (Some ["from"; "to"]) None (Some true) None None ]}))
              ∅
              (mkPandas (λ _ _, Return ex_edges) (λ _, Return ex_nodes) (λ _, true)))
           "lines" [("X", ["A"; "B"])]
           (mkSession [] []) (mkSession [reader_config_path] [])).
  - intros p kwargs df [= <-]. split; [repeat constructor|simpl; lia].
  - intros p df [= <-]. split; [repeat constructor|simpl; lia].
  - vm_compute. reflexivity.
Defined.

(** ** What the entry of the configuration decides *)

(** X18.  On an entry whose reader is ['set'] and whose transmission flag
    is not true, [sets_aggregator] and [aggregator] do the same: the same
    table or the same exception, and the same files opened.  (With the
    flag true [aggregator] drops the self-loops before counting and
    [sets_aggregator], which never reads the flag, does not.) *)
Theorem sets_aggregator_agrees_with_aggregator
    (d : Disk) (entries : gmap string Config.t) (config_key : string)
    (config : Config.t) (supernodes : SupernodeMap) (s : Session) :
  reader_configs d = Some (ByKey entries) →
  entries !! config_key = Some config →
  Config.reader config = Some "set" →
  Config.transmission config ≠ Some true →
  aggregator d config_key supernodes s =
    (let (r, s') := sets_aggregator d config_key supernodes s in
     (match r with Return df => Return (Some df) | Throw e => Throw e end, s')).
Proof.
  intros Hfile Hentry Hreader Htr.
  unfold aggregator, sets_aggregator, dbind, open_reader_config, dlift.
  rewrite Hfile. simpl. rewrite Hentry. simpl. rewrite Hreader. simpl.
  destruct (fetch_with_config d config _) as [[data|e] s1]; [|done].
  destruct (getitem (Config.group_by_cols config)) as [g|e]; [|done].
  assert (default false (Config.transmission config) = false) as ->.
  { by destruct (Config.transmission config) as [[]|]. }
  unfold dret. by destruct (call d _ data s1) as [[r|e] s2].
Qed.

Lemma sets_aggregator_agrees_with_aggregator_witness :
  let d := mkDisk
             (Some (ByKey {[ "lines" :=
                Config.mk (Some "set") (Some ∅) (Some "lines.xlsx")
                  (Some ["from"; "to"]) None None None None ]}))
             ∅
             (mkPandas (λ _ _, Return ex_edges) (λ _, Return ex_nodes) (λ _, true)) in
  aggregator d "lines" [("X", ["A"; "B"])] (mkSession [] []) =
    (let (r, s') := sets_aggregator d "lines" [("X", ["A"; "B"])] (mkSession [] []) in
     (match r with Return df => Return (Some df) | Throw e => Throw e end, s')).
Proof.
  apply (sets_aggregator_agrees_with_aggregator _
           {[ "lines" :=
                Config.mk (Some "set") (Some ∅) (Some "lines.xlsx")
                  (Some ["from"; "to"]) None None None None ]}
           "lines"
           (Config.mk (Some "set") (Some ∅) (Some "lines.xlsx")
              (Some ["from"; "to"]) None None None None)).
  - reflexivity.
  - vm_compute. reflexivity.
  - reflexivity.
  - discriminate.
Defined.

(** X19.  An entry whose reader is none of ['excel'], ['csv'] and ['set']
    makes [aggregator] read no data at all: with [agg_strat] ['sum'] or
    ['mean'] it raises [UnboundLocalError], with any other [agg_strat] it
    returns [None] without a word, and without the key it raises
    [KeyError]; the configuration file is the only file opened. *)
Theorem aggregator_unknown_reader
    (d : Disk) (entries : gmap string Config.t) (config_key : string)
    (config : Config.t) (reader : string) (supernodes : SupernodeMap) (s : Session) :
  reader_configs d = Some (ByKey entries) →
  entries !! config_key = Some config →
  Config.reader config = Some reader →
  reader ∉ ["excel"; "csv"; "set"] →
  aggregator d config_key supernodes s =
    (match Config.agg_strat config with
     | None => Throw (Builtin KeyError)
     | Some agg_strat =>
         if decide (agg_strat = "sum" ∨ agg_strat = "mean")
         then Throw UnboundLocalError
         else Return None
     end,
     mkSession (s_opened s ++ [reader_config_path]) (s_written s)).
Proof.
  intros Hfile Hentry Hreader Hr.
  apply not_elem_of_cons in Hr as [H1 Hr]. apply not_elem_of_cons in Hr as [H2 Hr].
  apply not_elem_of_cons in Hr as [H3 _].
  unfold aggregator, dbind, open_reader_config, dlift.
  rewrite Hfile. simpl. rewrite Hentry. simpl. rewrite Hreader. simpl.
  rewrite !decide_False by done.
  unfold by_agg_strat, dbind, dlift.
  destruct (Config.agg_strat config) as [a|]; simpl; [|done].
  destruct (decide (a = "sum")) as [->|Hs].
  - by rewrite decide_True by by left.
  - destruct (decide (a = "mean")) as [->|Hm].
    + by rewrite decide_True by by right.
    + rewrite decide_False; [done|]. by intros [?|?].
Qed.

Lemma aggregator_unknown_reader_witness :
  aggregator
    (mkDisk
       (Some (ByKey {[ "load" :=
          Config.mk (Some "parquet") None (Some "load.parquet") None None None
            (Some "sum") None ]}))
       ∅ (mkPandas (λ _ _, Return ex_edges) (λ _, Return ex_nodes) (λ _, true)))
    "load" [("X", ["A"; "B"])] (mkSession [] [])
  = (Throw UnboundLocalError, mkSession [reader_config_path] []).
Proof.
  apply (aggregator_unknown_reader _
           {[ "load" :=
                Config.mk (Some "parquet") None (Some "load.parquet") None None None
                  (Some "sum") None ]}
           "load"
           (Config.mk (Some "parquet") None (Some "load.parquet") None None None
              (Some "sum") None)
           "parquet").
  - reflexivity.
  - vm_compute. reflexivity.
  - reflexivity.
  - apply (bool_decide_unpack _). vm_compute. exact I.
Defined.

(** ** The loop of [main] *)

(** X21.  [main] only binds its aggregator for the readers ['excel'] and
    ['csv'].  If the first entry has any other reader (['set'] included),
    [main] raises [UnboundLocalError] before it has read or written
    anything, at the call of the aggregator when [agg_strat] is ['sum'] or
    ['mean'] and at the write of the result otherwise. *)
Theorem main_first_entry_other_reader
    (d : Disk) (config : Config.t) (rest : list Config.t) (reader agg_strat : string)
    (s : Session) :
  reader_configs d = Some (Listed (config :: rest)) →
  Config.reader config = Some reader →
  reader ∉ ["excel"; "csv"] →
  Config.agg_strat config = Some agg_strat →
  main d s = (Throw UnboundLocalError,
              mkSession (s_opened s ++ [reader_config_path]) (s_written s)).
Proof.
  intros Hfile Hreader Hr Hstrat.
  apply not_elem_of_cons in Hr as [H1 Hr]. apply not_elem_of_cons in Hr as [H2 _].
  unfold main, dbind, open_reader_config. rewrite Hfile.
  change (main_loop d (mkLocals None None) (config :: rest))
    with (dbind (main_step d (mkLocals None None) config)
            (λ vars', main_loop d vars' rest)).
  unfold main_step, dbind, dlift, dret. rewrite Hreader. simpl.
  rewrite !decide_False by done. rewrite Hstrat. simpl.
  destruct (decide (agg_strat = "sum")); [done|].
  by destruct (decide (agg_strat = "mean")).
Qed.

Lemma main_first_entry_other_reader_witness :
  main
    (mkDisk
       (Some (Listed [Config.mk (Some "set") (Some ∅) (Some "lines.xlsx")
                        (Some ["from"; "to"]) None None (Some "sum")
                        (Some "lines.csv")]))
       ∅ (mkPandas (λ _ _, Return ex_edges) (λ _, Return ex_nodes) (λ _, true)))
    (mkSession [] [])
  = (Throw UnboundLocalError, mkSession [reader_config_path] []).
Proof.
  apply (main_first_entry_other_reader _
           (Config.mk (Some "set") (Some ∅) (Some "lines.xlsx")
              (Some ["from"; "to"]) None None (Some "sum") (Some "lines.csv"))
           [] "set" "sum").
  - reflexivity.
  - reflexivity.
  - apply (bool_decide_unpack _). vm_compute. exact I.
  - reflexivity.
Defined.

(** X22.  A later entry of [main] whose reader is neither ['excel'] nor
    ['csv'] and whose [agg_strat] is neither ['sum'] nor ['mean'] computes
    nothing: the loop writes the result of the entry before it once more,
    under this entry's output name, and goes on with its variables as they
    were. *)
Theorem main_entry_rewrites_previous_result
    (d : Disk) (vars : Locals) (config : Config.t) (rest : list Config.t)
    (reader agg_strat output_file : string) (result : DataFrame) (s : Session) :
  Config.reader config = Some reader →
  reader ∉ ["excel"; "csv"] →
  Config.agg_strat config = Some agg_strat →
  agg_strat ∉ ["sum"; "mean"] →
  Config.output_file config = Some output_file →
  v_result vars = Some result →
  to_csv_ok (pandas d) ("test_writes/" +:+ output_file) = true →
  main_loop d vars (config :: rest) s =
  main_loop d vars rest
    (mkSession (s_opened s)
       (s_written s ++ [("test_writes/" +:+ output_file, result)])).
Proof.
  intros Hreader Hr Hstrat Ha Hout Hres Hok.
  apply not_elem_of_cons in Hr as [H1 Hr]. apply not_elem_of_cons in Hr as [H2 _].
  apply not_elem_of_cons in Ha as [H3 Ha]. apply not_elem_of_cons in Ha as [H4 _].
  change (main_loop d vars (config :: rest))
    with (dbind (main_step d vars config) (λ vars', main_loop d vars' rest)).
  unfold main_step, dbind, dlift, dret, to_csv. rewrite Hreader. simpl.
  rewrite !decide_False by done. rewrite Hstrat. simpl.
  rewrite !decide_False by done. simpl. rewrite Hres. simpl. rewrite Hout. simpl.
  rewrite Hok. simpl. destruct vars as [va vr]. simpl in Hres. by subst vr.
Qed.

Lemma main_entry_rewrites_previous_result_witness :
  let d := mkDisk None ∅
             (mkPandas (λ _ _, Return ex_edges) (λ _, Return ex_nodes) (λ _, true)) in
  main_loop d (mkLocals None (Some ex_rows))
    [Config.mk (Some "set") None None None None None (Some "count") (Some "b.csv")]
    (mkSession [] [("test_writes/a.csv", ex_rows)])
  = main_loop d (mkLocals None (Some ex_rows)) []
      (mkSession [] ([("test_writes/a.csv", ex_rows)]
                     ++ [("test_writes/" +:+ "b.csv", ex_rows)])).
Proof.
  intros d.
  apply (main_entry_rewrites_previous_result d (mkLocals None (Some ex_rows))
           (Config.mk (Some "set") None None None None None (Some "count") (Some "b.csv"))
           [] "set" "count" "b.csv" ex_rows
           (mkSession [] [("test_writes/a.csv", ex_rows)])).
  - reflexivity.
  - apply (bool_decide_unpack _). vm_compute. exact I.
  - reflexivity.
  - apply (bool_decide_unpack _). vm_compute. exact I.
  - reflexivity.
  - reflexivity.
  - reflexivity.
Defined.

(** ** What [main] has written when it returns *)

Lemma by_local_call d (method : Aggregator.t → M ref) bound s vars' s' :
  (do! a := dlift (local bound) in
   do! r := call d (method a.1) a.2 in
   dret (mkLocals (Some (a.1, r.2)) (Some r.1))) s = (Return vars', s') →
  s_written s' = s_written s.
Proof.
  intros (a & s1 & [_ ->]%dlift_Return & H)%dbind_Return.
  apply dbind_Return in H as (r & s2 & Hcall & H).
  apply call_Return in Hcall as (ref & w' & _ & _ & ->).
  unfold dret in H. by injection H as _ <-.
Qed.

Lemma main_step_written d vars config s vars' s' :
  main_step d vars config s = (Return vars', s') →
  ∃ output_file df,
    Config.output_file config = Some output_file
    ∧ s_written s' = s_written s ++ [("test_writes/" +:+ output_file, df)].
Proof.
  unfold main_step.
  intros (reader & s1 & [_ ->]%dlift_Return & H)%dbind_Return.
  apply dbind_Return in H as (bound & s2 & Hbound & H).
  assert (Hw2 : s_written s2 = s_written s).
  { destruct (decide (reader = "excel")); [|destruct (decide (reader = "csv"))].
    - apply dbind_Return in Hbound as (data & s3 & [-> _]%fetch_with_config_source & Hb).
      apply dbind_Return in Hb as (g & s4 & [_ ->]%dlift_Return & Hb).
      apply dbind_Return in Hb as (a & s5 & [_ ->]%dlift_Return & Hb).
      unfold dret in Hb. by injection Hb as _ <-.
    - apply dbind_Return in Hbound as (data & s3 & [-> _]%fetch_by_path_source & Hb).
      unfold dret in Hb. by injection Hb as _ <-.
    - unfold dret in Hbound. by injection Hbound as _ <-. }
  apply dbind_Return in H as (agg_strat & s3 & [_ ->]%dlift_Return & H).
  apply dbind_Return in H as (vars1 & s4 & Hvars & H).
  assert (Hw4 : s_written s4 = s_written s2).
  { destruct (decide (agg_strat = "sum")); [|destruct (decide (agg_strat = "mean"))].
    - by apply by_local_call in Hvars.
    - by apply by_local_call in Hvars.
    - unfold dret in Hvars. by injection Hvars as _ <-. }
  apply dbind_Return in H as (result & s5 & [_ ->]%dlift_Return & H).
  apply dbind_Return in H as (o & s6 & [Ho%getitem_Return ->]%dlift_Return & H).
  apply dbind_Return in H as ([] & s7 & Hcsv & H).
  unfold dret in H. injection H as _ <-.
  unfold to_csv in Hcsv. destruct (to_csv_ok _ _); [|done]. injection Hcsv as <-.
  exists o, result. split; [done|]. simpl. by rewrite Hw4, Hw2.
Qed.

Lemma main_loop_written d entries :
  ∀ vars s vars' s',
    main_loop d vars entries s = (Return vars', s') →
    ∃ new,
      s_written s' = s_written s ++ new
      ∧ Forall2 (λ config p, ∃ output_file,
                   Config.output_file config = Some output_file
                   ∧ p.1 = "test_writes/" +:+ output_file) entries new.
Proof.
  induction entries as [|config rest IH]; intros vars s vars' s'.
  - intros [= _ <-]. exists []. split; [by rewrite app_nil_r|constructor].
  - change (main_loop d vars (config :: rest))
      with (dbind (main_step d vars config) (λ vars1, main_loop d vars1 rest)).
    intros (vars1 & s1 & Hstep & Hrest)%dbind_Return.
    apply main_step_written in Hstep as (o & df & Ho & Hw1).
    apply IH in Hrest as (new & Hw & Hall).
    exists (("test_writes/" +:+ o, df) :: new). split.
    + by rewrite Hw, Hw1, <-app_assoc.
    + constructor; [by exists o|done].
Qed.

(** X23.  When [main] returns, it has written exactly one table for every
    entry of the configuration file, in the order of the entries, each
    under [test_writes/] followed by the entry's [output_file]; what was
    written before is still there.  (An empty object in the file counts as
    no entries.) *)
Theorem main_writes_one_table_per_entry (d : Disk) (s s' : Session) :
  main d s = (Return (), s') →
  ∃ entries new,
    (reader_configs d = Some (Listed entries)
     ∨ (reader_configs d = Some (ByKey ∅) ∧ entries = []))
    ∧ s_written s' = s_written s ++ new
    ∧ Forall2 (λ config p, ∃ output_file,
                 Config.output_file config = Some output_file
                 ∧ p.1 = "test_writes/" +:+ output_file) entries new.
Proof.
  unfold main. intros (f & s1 & Hopen & H)%dbind_Return.
  unfold open_reader_config in Hopen.
  destruct (reader_configs d) as [f'|]; [|done]. injection Hopen as -> <-.
  destruct f as [m|entries].
  - destruct (decide (m = ∅)) as [->|]; [|done]. unfold dret in H.
    injection H as <-. exists [], []. split_and!; [by right| |constructor].
    simpl. by rewrite app_nil_r.
  - apply dbind_Return in H as (vars' & s2 & Hloop & H).
    unfold dret in H. injection H as <-.
    apply main_loop_written in Hloop as (new & Hw & Hall).
    exists entries, new. split_and!; [by left|done..].
Qed.

Lemma main_writes_one_table_per_entry_witness :
  let d := mkDisk
             (Some (Listed [Config.mk (Some "csv") None (Some "load.csv") None None
                              None (Some "sum") (Some "load_agg.csv")]))
             {[ alpha2_path := ∅ ]}
             (mkPandas (λ _ _, Return ex_edges) (λ _, Return ex_nodes) (λ _, true)) in
  ∃ entries new,
    (reader_configs d = Some (Listed entries)
     ∨ (reader_configs d = Some (ByKey ∅) ∧ entries = []))
    ∧ s_written
        (mkSession [reader_config_path; alpha2_path]
           [("test_writes/load_agg.csv",
             mkDF 1 [("A", NumCol [num 1]); ("B", NumCol [num 2]);
                     ("Nordics", NumCol [num 0]); ("Europe", NumCol [num 0]);
                     ("Baltics", NumCol [num 0])])])
      = s_written (mkSession [] []) ++ new
    ∧ Forall2 (λ config p, ∃ output_file,
                 Config.output_file config = Some output_file
                 ∧ p.1 = "test_writes/" +:+ output_file) entries new.
Proof.
  intros d.
  apply (main_writes_one_table_per_entry d (mkSession [] [])).
  vm_compute. reflexivity.
Defined.

(** * The name in [agg_col] *)

(** X24.  The name given as [agg_col] never matters to a vertical sum or
    mean, only that it is a non-empty string: two strategies that differ in
    nothing but the name do the same on every table, returning the same
    table or raising the same exception. *)
Theorem vertical_agg_col_name_is_irrelevant
    (group_by_cols : list string) (a b : string) (transmission : bool)
    (supernodes : SupernodeMap) (w : World) :
  a ≠ "" → b ≠ "" →
  VerticalAggregationStrategy.sum
    (VerticalAggregationStrategy.mk group_by_cols (Some a) transmission) supernodes w
  = VerticalAggregationStrategy.sum
      (VerticalAggregationStrategy.mk group_by_cols (Some b) transmission) supernodes w
  ∧ VerticalAggregationStrategy.mean
      (VerticalAggregationStrategy.mk group_by_cols (Some a) transmission) supernodes w
    = VerticalAggregationStrategy.mean
        (VerticalAggregationStrategy.mk group_by_cols (Some b) transmission) supernodes w.
Proof.
  intros Ha Hb.
  unfold VerticalAggregationStrategy.sum, VerticalAggregationStrategy.mean, truthy.
  simpl. by rewrite !bool_decide_eq_true_2 by done.
Qed.

Lemma vertical_agg_col_name_is_irrelevant_witness :
  VerticalAggregationStrategy.sum
    (VerticalAggregationStrategy.mk ["k"] (Some "v") false) [("X", ["A"; "B"])]
    (world_with ∅ ex_measures)
  = VerticalAggregationStrategy.sum
      (VerticalAggregationStrategy.mk ["k"] (Some "w") false) [("X", ["A"; "B"])]
      (world_with ∅ ex_measures)
  ∧ VerticalAggregationStrategy.mean
      (VerticalAggregationStrategy.mk ["k"] (Some "v") false) [("X", ["A"; "B"])]
      (world_with ∅ ex_measures)
    = VerticalAggregationStrategy.mean
        (VerticalAggregationStrategy.mk ["k"] (Some "w") false) [("X", ["A"; "B"])]
        (world_with ∅ ex_measures).
Proof. apply vertical_agg_col_name_is_irrelevant; discriminate. Defined.
